(** * ChannelFit: a shallow embedding of [channelfit/_channelfit.py]

    The Python module builds model channel maps of a rotating disk and
    fits them to an observed cube.  This development embeds the parts of
    it that the specification makes claims about:

    - [Moments]   : [makemom01]
    - [Scale]     : [ChannelFit.get_scale]
    - [Disk]      : [ChannelFit.update_xdisk] and the closure [getvlos]
    - [Grid]      : the nested grid and crop indices of [makegrid]
    - [Makegrid]  : the statement sequence of [ChannelFit.makegrid]
    - [Raster]    : [ChannelFit.get_Iout] over an explicit ndarray store
    - [Fit]       : [ChannelFit.cubemodel] and [ChannelFit.fitting]

    A second part proves further properties of these functions and embeds
    the pixel skip of [read_cubefits] ([Cubefits]), the inner function
    [concat] of [modeltofits] ([Modelfits]) and [boxgauss].

    Numbers.  A numpy [float64] is a binary64 value, so it is modelled by
    Rocq's primitive [float] (IEEE 754 binary64 with NaN, signed zeros and
    infinities); [np.nan] is [nan].  Library functions that are not part
    of the repository (cos, sin, tan, exp, erf, pow, hypot, log10, the FITS
    reader, the convolution, the interpolator and the ensemble sampler) are
    taken as parameters, bundled in records.

    Arrays.  A 1-d ndarray is a [list float], an image is a list of rows,
    a cube is a list of images (axis 0 first).  numpy arrays are
    rectangular; the functions below are applied to rectangular lists.

    Errors.  A Python exception is a value of [pyerr]; code that can raise
    returns a [result]. *)

From Stdlib Require Import ZArith QArith Qround Qabs Floats Bool Lia Lqa.
From Stdlib Require Uint63.
From stdpp Require Import base option list strings gmap.

Set Warnings "-inexact-float".
Set Default Proof Using "Type".

(** ** Python exceptions *)

Inductive pyerr : Type :=
| UnboundLocalError (name : string)
| AttributeError (name : string)
| TypeError (what : string)
| ValueError (what : string)
| IndexError (what : string)
| OverflowError (what : string)
| IOError (what : string).

Inductive result (A : Type) : Type :=
| Ok (a : A)
| Raise (e : pyerr).
Arguments Ok {A} a.
Arguments Raise {A} e.

#[global] Instance result_ret : MRet result := fun _ a => Ok a.
#[global] Instance result_bind : MBind result := fun _ _ k m =>
  match m with
  | Ok a => k a
  | Raise e => Raise e
  end.

#[global] Instance result_fmap : FMap result := fun _ _ f m =>
  match m with
  | Ok a => Ok (f a)
  | Raise e => Raise e
  end.

Definition is_ok {A} (r : result A) : bool :=
  match r with Ok _ => true | Raise _ => false end.

(** ** binary64 helpers *)

Module Flt.
Local Open Scope float_scope.

(** [np.nan_to_num]: NaN becomes 0, the infinities become the largest
    finite values. *)
Definition max_float : float := 0x1.fffffffffffffp+1023.
Definition nan_to_num (x : float) : float :=
  if is_nan x then 0
  else if x =? infinity then max_float
  else if x =? neg_infinity then (- max_float)
  else x.

(** [float(n)] for a Python int that fits an int64. *)
Definition of_nat (n : nat) : float := of_uint63 (Uint63.of_Z (Z.of_nat n)).
Definition of_Z (z : Z) : float :=
  if (z <? 0)%Z then - of_uint63 (Uint63.of_Z (- z)) else of_uint63 (Uint63.of_Z z).

(** [np.sign] *)
Definition sign (x : float) : float :=
  if is_nan x then nan
  else if x <? 0 then (-1)
  else if 0 <? x then 1
  else 0.

(** [np.minimum] / [np.maximum]: NaN wins. *)
Definition fmin (a b : float) : float :=
  if is_nan a then a else if is_nan b then b else if b <? a then b else a.
Definition fmax (a b : float) : float :=
  if is_nan a then a else if is_nan b then b else if a <? b then b else a.

(** Reductions start from the first element (numpy's [reduce] without an
    initial value); the sum of no element is 0. *)
Definition reduce (f : float -> float -> float) (l : list float) : option float :=
  match l with
  | [] => None
  | x :: r => Some (fold_left f r x)
  end.
Definition sum (l : list float) : float := default 0 (reduce PrimFloat.add l).

(** [np.nansum]: NaN counts as 0. *)
Definition nansum (l : list float) : float :=
  sum (map (fun x => if is_nan x then 0 else x) l).

Lemma is_nan_SF x :
  is_nan x = match Prim2SF x with S754_nan => true | _ => false end.
Proof.
  unfold is_nan. rewrite FloatAxioms.eqb_spec.
  destruct (Prim2SF x) as [s|s| |s m e];
    try (destruct s; reflexivity); try reflexivity.
  unfold SFeqb, SFcompare.
  destruct s; rewrite Z.compare_refl, Pos.compare_cont_refl; reflexivity.
Qed.

Lemma is_nan_eq x : is_nan x = true -> x = nan.
Proof.
  rewrite is_nan_SF. intros H.
  apply Prim2SF_inj. destruct (Prim2SF x); try discriminate. reflexivity.
Qed.

Lemma is_nan_nan : is_nan nan = true.
Proof. reflexivity. Qed.

Lemma add_nan_l x : nan + x = nan.
Proof. apply Prim2SF_inj. rewrite add_spec. reflexivity. Qed.

Lemma add_nan_r x : x + nan = nan.
Proof.
  apply Prim2SF_inj. rewrite add_spec.
  destruct (Prim2SF x); reflexivity.
Qed.

Lemma sub_nan_l x : nan - x = nan.
Proof. apply Prim2SF_inj. rewrite sub_spec. reflexivity. Qed.

Lemma sub_nan_r x : x - nan = nan.
Proof.
  apply Prim2SF_inj. rewrite sub_spec.
  destruct (Prim2SF x); reflexivity.
Qed.

Lemma mul_nan_l x : nan * x = nan.
Proof. apply Prim2SF_inj. rewrite mul_spec. reflexivity. Qed.

Lemma mul_nan_r x : x * nan = nan.
Proof.
  apply Prim2SF_inj. rewrite mul_spec.
  destruct (Prim2SF x); reflexivity.
Qed.


Lemma div_nan_r x : x / nan = nan.
Proof.
  apply Prim2SF_inj. rewrite div_spec.
  destruct (Prim2SF x); reflexivity.
Qed.

Lemma ltb_nan_l x : (nan <? x) = false.
Proof. rewrite ltb_spec. reflexivity. Qed.

Lemma ltb_nan_r x : (x <? nan) = false.
Proof. rewrite ltb_spec. destruct (Prim2SF x) as [[]|[]| |[]]; reflexivity. Qed.

Lemma leb_nan_l x : (nan <=? x) = false.
Proof. rewrite leb_spec. reflexivity. Qed.

Lemma leb_nan_r x : (x <=? nan) = false.
Proof. rewrite leb_spec. destruct (Prim2SF x) as [[]|[]| |[]]; reflexivity. Qed.

Lemma eqb_nan_l x : (nan =? x) = false.
Proof. rewrite FloatAxioms.eqb_spec. reflexivity. Qed.

Lemma eqb_nan_r x : (x =? nan) = false.
Proof.
  rewrite FloatAxioms.eqb_spec.
  destruct (Prim2SF x) as [[]|[]| |[]]; reflexivity.
Qed.

(** A float that compares equal to 0 is one of the two zeros. *)
Lemma eqb_zero_cases x : (x =? 0) = true -> x = 0 \/ x = (-0).
Proof.
  rewrite FloatAxioms.eqb_spec. intros H.
  destruct (Prim2SF x) as [s|s| |s m e] eqn:E.
  - destruct s; [right|left]; apply Prim2SF_inj; rewrite E; reflexivity.
  - destruct s; discriminate.
  - discriminate.
  - destruct s; discriminate.
Qed.

Lemma eqb_zero_not_nan x : (x =? 0) = true -> is_nan x = false.
Proof. intros [->| ->]%eqb_zero_cases; reflexivity. Qed.

(** *** Order facts *)

Lemma compare_cont_swap p q :
  Pos.compare_cont Eq q p = CompOpp (Pos.compare_cont Eq p q).
Proof. rewrite Pos.compare_cont_antisym. reflexivity. Qed.

Lemma SFcompare_antisym x y :
  SFcompare y x = match SFcompare x y with Some c => Some (CompOpp c) | None => None end.
Proof.
  destruct x as [[]|[]| |[] mx ex], y as [[]|[]| |[] my ey]; simpl; try reflexivity.
  - rewrite (Z.compare_antisym ex ey), (compare_cont_swap mx my).
    destruct (ex ?= ey)%Z; simpl; reflexivity.
  - rewrite (Z.compare_antisym ex ey), (compare_cont_swap mx my).
    destruct (ex ?= ey)%Z; simpl; reflexivity.
Qed.

Lemma ltb_leb_false x y : (x <? y) = true -> (y <=? x) = false.
Proof.
  rewrite ltb_spec, leb_spec. unfold SFltb, SFleb.
  rewrite (SFcompare_antisym (Prim2SF x) (Prim2SF y)).
  destruct (SFcompare (Prim2SF x) (Prim2SF y)) as [[]|]; simpl; congruence.
Qed.

Lemma leb_ltb_false x y : (x <=? y) = true -> (y <? x) = false.
Proof.
  rewrite ltb_spec, leb_spec. unfold SFltb, SFleb.
  rewrite (SFcompare_antisym (Prim2SF x) (Prim2SF y)).
  destruct (SFcompare (Prim2SF x) (Prim2SF y)) as [[]|]; simpl; congruence.
Qed.

(** Below a positive threshold from above: not negative. *)
Lemma leb_pos_not_neg t h : (0 <? t) = true -> (t <=? h) = true -> (h <? 0) = false.
Proof.
  rewrite !ltb_spec, leb_spec. unfold SFltb, SFleb.
  change (Prim2SF 0) with (S754_zero false).
  destruct (Prim2SF t) as [[]|[]| |[] mt et], (Prim2SF h) as [[]|[]| |[] mh eh];
    simpl; try congruence.
Qed.

Lemma SFcompare_opp x y :
  SFcompare (SFopp x) (SFopp y) = SFcompare y x.
Proof.
  destruct x as [[]|[]| |[] mx ex], y as [[]|[]| |[] my ey]; simpl; try reflexivity.
  - rewrite (Z.compare_antisym ex ey), (compare_cont_swap mx my).
    destruct (ex ?= ey)%Z; simpl; try reflexivity.
    destruct (Pos.compare_cont Eq mx my); reflexivity.
  - rewrite (Z.compare_antisym ex ey), (compare_cont_swap mx my).
    destruct (ex ?= ey)%Z; simpl; try reflexivity.
Qed.

(** [|a| >= t] excludes [-t < a < t]. *)
Lemma abs_ge_outside t a :
  (t <=? abs a) = true -> (- t <? a) && (a <? t) = false.
Proof.
  rewrite !ltb_spec, leb_spec, abs_spec, opp_spec. unfold SFltb, SFleb.
  intros H.
  destruct (Prim2SF a) as [sa|sa| |sa ma ea] eqn:Ea.
  - (* zero *) 
    destruct (Prim2SF t) as [[]|[]| |[] mt et]; simpl in *; try congruence; destruct sa; simpl; reflexivity.
  - destruct (Prim2SF t) as [[]|[]| |[] mt et]; simpl in *; try congruence; destruct sa; simpl; reflexivity.
  - destruct (Prim2SF t) as [[]|[]| |[] mt et]; simpl in *; try congruence.
  - destruct sa.
    + (* a negative: first conjunct false *)
      apply andb_false_iff. left.
      change (S754_finite true ma ea) with (SFopp (S754_finite false ma ea)).
      rewrite SFcompare_opp. simpl SFabs in H.
      rewrite (SFcompare_antisym (Prim2SF t) (S754_finite false ma ea)).
      destruct (SFcompare (Prim2SF t) _) as [[]|]; simpl; congruence.
    + apply andb_false_iff. right. simpl SFabs in H.
      rewrite (SFcompare_antisym (Prim2SF t) (S754_finite false ma ea)).
      destruct (SFcompare (Prim2SF t) _) as [[]|]; simpl; congruence.
Qed.

Lemma abs_lt_inside t a :
  (abs a <? t) = true -> (- t <? a) && (a <? t) = true.
Proof.
  rewrite !ltb_spec, abs_spec, opp_spec. unfold SFltb.
  intros H.
  destruct (Prim2SF a) as [sa|sa| |sa ma ea] eqn:Ea.
  - destruct (Prim2SF t) as [[]|[]| |[] mt et]; simpl in *; try congruence; destruct sa; simpl; reflexivity.
  - destruct (Prim2SF t) as [[]|[]| |[] mt et]; simpl in *; try congruence; destruct sa; simpl in *; congruence.
  - destruct (Prim2SF t) as [[]|[]| |[] mt et]; simpl in *; try congruence.
  - simpl SFabs in H.
    assert (exists x, Prim2SF t = x /\ match x with S754_infinity false | S754_finite false _ _ => True | _ => False end) as (x & Ex & Hx).
    { eexists; split; [reflexivity|]. destruct (Prim2SF t) as [[]|[]| |[] mt et]; simpl in *; try congruence; exact I. }
    rewrite Ex in *.
    destruct sa.
    + apply andb_true_iff. split.
      * change (S754_finite true ma ea) with (SFopp (S754_finite false ma ea)).
        rewrite SFcompare_opp. exact H.
      * destruct x as [[]|[]| |[] mt et]; simpl in *; try contradiction; reflexivity.
    + apply andb_true_iff. split; [|exact H].
      destruct x as [[]|[]| |[] mt et]; simpl in *; try contradiction; reflexivity.
Qed.

End Flt.

(** ** binary64 rounding

    Facts about the operations of [SpecFloat], which specify the primitive
    floats: where NaN can come from, and later where results are exact. *)

Module Fp.
Local Open Scope float_scope.

(** ** Rounding never produces NaN *)







Lemma is_infinity_SF x :
  is_infinity x = match Prim2SF x with S754_infinity _ => true | _ => false end.
Proof.
  unfold is_infinity. rewrite FloatAxioms.eqb_spec, abs_spec.
  destruct (Prim2SF x) as [s|s| |s m e]; reflexivity.
Qed.


Lemma is_finite_SF x :
  is_finite x = match Prim2SF x with S754_zero _ | S754_finite _ _ _ => true | _ => false end.
Proof.
  unfold is_finite. rewrite Flt.is_nan_SF, is_infinity_SF.
  destruct (Prim2SF x); reflexivity.
Qed.











Lemma pos_finite x : (0 <? x) = true -> is_infinity x = false -> is_finite x = true.
Proof.
  rewrite ltb_spec, is_infinity_SF, is_finite_SF. change (Prim2SF 0) with (S754_zero false).
  destruct (Prim2SF x) as [sx|sx| |sx mx ex]; try reflexivity; try discriminate.
Qed.

End Fp.

(** ** ndarrays as lists *)

Abbreviation vec := (list float).
Abbreviation img := (list (list float)).
Abbreviation cube := (list (list (list float))).

Module Nd.
Local Open Scope float_scope.

Definition img_map (f : float -> float) (a : img) : img := map (map f) a.
Definition img_map2 (f : float -> float -> float) (a b : img) : img :=
  zip_with (zip_with f) a b.
Definition cube_map (f : float -> float) (a : cube) : cube := map (img_map f) a.
Definition cube_map2 (f : float -> float -> float) (a b : cube) : cube :=
  zip_with (img_map2 f) a b.

(** [mask_set a m x]: the statement [a[m] = x] for a boolean mask [m]. *)
Definition mask_set (a : img) (m : list (list bool)) (x : float) : img :=
  zip_with (zip_with (fun v (b : bool) => if b then x else v)) a m.

(** [np.sum(d, axis=0)]: the images of the cube added up, pixel by pixel. *)
Definition sum_axis0 (d : cube) : img :=
  match d with
  | [] => []
  | c :: r => fold_left (img_map2 PrimFloat.add) r c
  end.

(** [np.sum(a, axis=(1, 2))], [np.max(a, axis=(1, 2))]: one value per
    channel, over the pixels of the channel in row-major order. *)
Definition pixels (c : img) : vec := concat c.
Definition sum_axis12 (a : cube) : vec := map (fun c => Flt.sum (pixels c)) a.
Definition sum_all (a : cube) : float := Flt.sum (concat (map pixels a)).

(** [a[i, j]] *)
Definition at2 {A} (a : list (list A)) (i j : nat) : option A :=
  a !! i ≫= (.!! j).

Lemma at2_zip_with {A B C} (f : A -> B -> C) a b i j :
  at2 (zip_with (zip_with f) a b) i j =
  match at2 a i j, at2 b i j with
  | Some x, Some y => Some (f x y)
  | _, _ => None
  end.
Proof.
  unfold at2. rewrite lookup_zip_with.
  destruct (a !! i) as [ra|]; simpl; [|reflexivity].
  destruct (b !! i) as [rb|]; simpl.
  - rewrite lookup_zip_with.
    destruct (ra !! j); simpl; [|reflexivity].
    destruct (rb !! j); reflexivity.
  - destruct (ra !! j); reflexivity.
Qed.

Lemma at2_map {A B} (f : A -> B) a i j :
  at2 (map (map f) a) i j = f <$> at2 a i j.
Proof.
  unfold at2. rewrite list_lookup_fmap.
  destruct (a !! i) as [ra|]; simpl; [|reflexivity].
  apply list_lookup_fmap.
Qed.

Lemma elem_of_concat {A} (x : A) (ls : list (list A)) :
  x ∈ concat ls -> exists l, x ∈ l /\ l ∈ ls.
Proof.
  induction ls as [|l ls IH]; simpl; [by intros ?%elem_of_nil|].
  rewrite elem_of_app. intros [H|H].
  - exists l. split; [exact H|left].
  - destruct (IH H) as (l' & ? & ?). exists l'. split; [done|by right].
Qed.

(** [a[mask]] along axis 0. *)
Fixpoint select {A} (l : list A) (m : list bool) : list A :=
  match l, m with
  | x :: l', b :: m' => if b then x :: select l' m' else select l' m'
  | _, _ => []
  end.

(** [v[1:] - v[:-1]] *)
Definition diffs (v : vec) : vec :=
  zip_with PrimFloat.sub (tail v) (removelast v).

(** [d * vv] with [vv = np.moveaxis([[v]], 2, 0)], of shape (len(v), 1, 1):
    channel [k] is scaled by [f (v[k])].  numpy broadcasts a single-channel
    [d] over the channels of [v] and refuses any other length mismatch. *)
Definition broadcast_channels (d : cube) (n : nat) : result cube :=
  if decide (length d = n) then Ok d
  else match d with
       | [c] => Ok (replicate n c)
       | _ => Raise (ValueError "operands could not be broadcast together")
       end.

(** numpy's broadcasting of a binary operation along one axis: equal
    lengths pair up, a length of 1 is stretched, any other mismatch is
    refused with [ValueError]. *)
Definition broadcast2 {A B C} (f : A -> B -> result C) (a : list A) (b : list B)
  : result (list C) :=
  if decide (length a = length b) then mapM (fun p => f p.1 p.2) (zip a b)
  else match a, b with
       | [x], _ => mapM (f x) b
       | _, [y] => mapM (fun x => f x y) a
       | _, _ => Raise (ValueError "operands could not be broadcast together")
       end.

(** An elementwise operation on two 3-d arrays. *)
Definition cube_broadcast2 (f : float -> float -> float) (a b : cube) : result cube :=
  broadcast2 (broadcast2 (broadcast2 (fun x y => Ok (f x y)))) a b.

(** The shape of a 3-d array, as the lengths of its rows. *)
Definition shape (a : cube) : list (list nat) := map (map length) a.

Lemma broadcast2_same {A B C} (f : A -> B -> result C) (g : A -> B -> C) a b :
  length a = length b ->
  (forall k x y, a !! k = Some x -> b !! k = Some y -> f x y = Ok (g x y)) ->
  broadcast2 f a b = Ok (zip_with g a b).
Proof.
  intros Hl Hf. unfold broadcast2. rewrite decide_True by exact Hl. clear Hl.
  revert b Hf. induction a as [|x a IH]; intros [|y b] Hf; try reflexivity.
  cbn [zip zip_with mapM fst snd].
  rewrite (Hf 0%nat x y eq_refl eq_refl). cbn [mbind result_bind].
  rewrite (IH b); [reflexivity|].
  intros k x' y' Hx Hy. exact (Hf (S k) x' y' Hx Hy).
Qed.

Lemma shape_lookup (a b : cube) k (ra rb : img) :
  shape a = shape b -> a !! k = Some ra -> b !! k = Some rb ->
  map length ra = map length rb.
Proof.
  intros Hs Ha Hb. unfold shape in Hs.
  apply (f_equal (fun l => l !! k)) in Hs.
  rewrite !list_lookup_fmap, Ha, Hb in Hs. injection Hs as Hs. exact Hs.
Qed.

Lemma cube_broadcast2_same f (a b : cube) :
  shape a = shape b -> cube_broadcast2 f a b = Ok (cube_map2 f a b).
Proof.
  intros Hs. unfold cube_broadcast2, cube_map2, img_map2.
  apply broadcast2_same.
  { apply (f_equal length) in Hs. unfold shape in Hs.
    rewrite !length_map in Hs. exact Hs. }
  intros k ra rb Ha Hb. pose proof (shape_lookup a b k ra rb Hs Ha Hb) as Hr.
  apply broadcast2_same.
  { apply (f_equal length) in Hr. rewrite !length_map in Hr. exact Hr. }
  intros i va vb Hva Hvb.
  apply broadcast2_same; [|reflexivity].
  apply (f_equal (fun l => l !! i)) in Hr.
  rewrite !list_lookup_fmap, Hva, Hvb in Hr. injection Hr as Hr. exact Hr.
Qed.

Lemma shape_cube_map2 f (a b : cube) :
  shape a = shape b -> shape (cube_map2 f a b) = shape a.
Proof.
  unfold shape, cube_map2, img_map2. revert b.
  induction a as [|ra a IH]; intros [|rb b] Hs; try discriminate; [reflexivity|].
  cbn [map zip_with] in *. injection Hs as Hr Hs. f_equal; [|apply IH, Hs].
  clear IH Hs. revert rb Hr.
  induction ra as [|va ra IH]; intros [|vb rb] Hr; try discriminate; [reflexivity|].
  cbn [map zip_with] in *. injection Hr as Hv Hr. f_equal; [|apply IH, Hr].
  rewrite length_zip_with. lia.
Qed.

End Nd.

(** * MomentComputer: [makemom01] *)

Module Moments.
Import Nd.
Local Open Scope float_scope.

Record moments := {
  mom0 : img;
  mom1 : img;
  mom2 : img;
  sigma_mom0 : float
}.

(** [np.min] of a 1-d array; the empty array has no minimum. *)
Definition np_min (l : vec) : result float :=
  match Flt.reduce Flt.fmin l with
  | Some m => Ok m
  | None => Raise (ValueError "zero-size array to reduction operation minimum")
  end.

(** The threshold step of lines 61 and 66: a copy of [d] without NaN, with
    every value below [3 * sigma] set to 0. *)
Definition dmasked_of (d : cube) (sigma : float) : cube :=
  cube_map (fun x => if x <? 3 * sigma then 0 else x) (cube_map Flt.nan_to_num d).

(** [np.sum(d * f(vv), axis=0)] *)
Definition weighted_sum (d : cube) (w : vec) : result img :=
  d' ← broadcast_channels d (length w);
  Ok (sum_axis0 (zip_with (fun c wk => img_map (fun x => x * wk) c) d' w)).

(** Lines 60-70.  [dmasked] is built and thresholded but the moments are
    taken of [d] itself, as in the source. *)
Definition makemom01 (d : cube) (v : vec) (sigma : float) : result moments :=
  let dmasked := cube_map Flt.nan_to_num d in
  dv ← np_min (diffs v);
  let mom0 := img_map (fun s => s * dv) (sum_axis0 d) in
  let sigma_mom0 := sigma * dv * sqrt (Flt.of_nat (length d)) in
  let dmasked := cube_map (fun x => if x <? 3 * sigma then 0 else x) dmasked in
  num ← weighted_sum d v;
  let mom1 := img_map2 PrimFloat.div num (sum_axis0 d) in
  d' ← broadcast_channels d (length v);
  let dev := zip_with (fun c vk =>
               img_map2 (fun x m => x * ((vk - m) * (vk - m))) c mom1) d' v in
  let mom2 := img_map sqrt (sum_axis0 dev) in
  let mom1 := mask_set mom1 (map (map (fun m => m <? 3 * sigma_mom0)) mom0) nan in
  Ok {| mom0 := mom0; mom1 := mom1; mom2 := mom2; sigma_mom0 := sigma_mom0 |}.

(** The moment-1 map the specification describes: the weighted mean of the
    thresholded intensities, masked where moment-0 is below [3 sigma_mom0]. *)
Definition mom1_of_masked (d : cube) (v : vec) (sigma : float) : result img :=
  let dmasked := dmasked_of d sigma in
  dv ← np_min (diffs v);
  let mom0 := img_map (fun s => s * dv) (sum_axis0 d) in
  let sigma_mom0 := sigma * dv * sqrt (Flt.of_nat (length d)) in
  num ← weighted_sum dmasked v;
  let mom1 := img_map2 PrimFloat.div num (sum_axis0 dmasked) in
  Ok (mask_set mom1 (map (map (fun m => m <? 3 * sigma_mom0)) mom0) nan).

(** A two-channel, one-pixel cube: intensities 1 and 7 at velocities 0 and 1,
    noise level 1. *)
Definition d_17 : cube := [ [[1]]; [[7]] ].
Definition v_01 : vec := [0; 1].

(** X2.  The mask of line 69: a pixel whose moment-0 is below three times
    its uncertainty carries NaN in the returned moment-1 map. *)
Lemma makemom01_mom1_masked d v sigma m i j m0 r :
  makemom01 d v sigma = Ok m ->
  at2 (mom0 m) i j = Some m0 ->
  at2 (mom1 m) i j = Some r ->
  (m0 <? 3 * sigma_mom0 m) = true ->
  r = nan.
Proof.
  unfold makemom01. intros H H0 H1 Hlt.
  destruct (np_min (diffs v)) as [dv|]; [|discriminate]. simpl in H.
  destruct (weighted_sum d v) as [num|]; [|discriminate]. simpl in H.
  destruct (broadcast_channels d (length v)) as [d'|]; [|discriminate].
  simpl in H. injection H as <-. simpl in *.
  unfold mask_set in H1. rewrite at2_zip_with, at2_map in H1.
  rewrite H0 in H1. simpl in H1. rewrite Hlt in H1.
  destruct (at2 _ i j); congruence.
Qed.

(** The moment-1 value of [makemom01] is the weighted mean of the raw
    intensities: the thresholded copy [dmasked] does not enter it. *)
Lemma makemom01_mom1_raw d v sigma m :
  makemom01 d v sigma = Ok m ->
  exists num,
    weighted_sum d v = Ok num /\
    mom1 m = mask_set (img_map2 PrimFloat.div num (sum_axis0 d))
               (map (map (fun m0 => m0 <? 3 * sigma_mom0 m)) (mom0 m)) nan.
Proof.
  unfold makemom01. intros H.
  destruct (np_min (diffs v)) as [dv|]; [|discriminate]. simpl in H.
  destruct (weighted_sum d v) as [num|]; [|discriminate]. simpl in H.
  destruct (broadcast_channels d (length v)) as [d'|]; [|discriminate].
  simpl in H. injection H as <-. simpl. eauto.
Qed.

(** C2 (code evaluated at the failing input): on the cube [d_17] with
    velocities [v_01] and noise level 1 the intensity 1 lies below the
    threshold 3, so the thresholded mean velocity is 7/7 = 1; [makemom01]
    returns 7/8 = 0.875 at a pixel that is not masked (moment-0 is 8, above
    3 * sqrt 2), because it sums the raw cube. *)
Theorem makemom01_ignores_threshold :
  (mom1 <$> makemom01 d_17 v_01 1) = Ok [[0.875]] /\
  (mom0 <$> makemom01 d_17 v_01 1) = Ok [[8]] /\
  mom1_of_masked d_17 v_01 1 = Ok [[1]] /\
  dmasked_of d_17 1 = [ [[0]]; [[7]] ].
Proof. vm_compute. repeat split; reflexivity. Qed.

End Moments.

(** * FluxScaler: [ChannelFit.get_scale] *)

Module Scale.
Import Nd.
Local Open Scope float_scope.

(** The attributes of the object that [get_scale] reads. *)
Record ctx := {
  scaling : string;
  data_valid : cube;
  mom0 : img;
  sigma_mom0 : float;
  dv : float;
  v_valid : vec
}.

(** The scale is one value per channel ([chi2], [peak], [uniform]) or one
    value per pixel ([mom0]). *)
Inductive scale_t : Type :=
| PerChannel (s : vec)
| PerPixel (s : img).

(** numpy multiplies and divides arrays of equal shape element by element
    (every call of the source passes equal shapes). *)
Definition shape3 (a : cube) : list (list nat) := map (map length) a.

Definition cube_mul (a b : cube) : result cube :=
  if decide (shape3 a = shape3 b) then Ok (cube_map2 PrimFloat.mul a b)
  else Raise (ValueError "operands could not be broadcast together").

Definition np_max (l : vec) : result float :=
  match Flt.reduce Flt.fmax l with
  | Some m => Ok m
  | None => Raise (ValueError "zero-size array to reduction operation maximum")
  end.

Definition max_axis12 (a : cube) : result vec := mapM (fun c => np_max (pixels c)) a.

(** Lines 404-405 at one position: the quotient, forced to 0 where the
    denominator is 0 or the quotient is negative. *)
Definition scale_cell (gf ff : float) : float :=
  let scale := gf / ff in
  if (ff =? 0) || (scale <? 0) then 0 else scale.

(** Lines 391-403: the numerator [gf] and the denominator [ff]. *)
Definition gf_ff (c : ctx) (Iout : cube) : result (vec * vec + img * img) :=
  if decide (scaling c = "chi2") then
    p ← cube_mul Iout (data_valid c);
    q ← cube_mul Iout Iout;
    Ok (inl (sum_axis12 p, sum_axis12 q))
  else if decide (scaling c = "peak") then
    gf ← max_axis12 (data_valid c);
    ff ← max_axis12 Iout;
    if decide (length gf = length ff) then Ok (inl (gf, ff))
    else Raise (ValueError "operands could not be broadcast together")
  else if decide (scaling c = "mom0") then
    let gf := img_map (fun g => g * 1) (mom0 c) in
    let gf := img_map (fun g => if g <? sigma_mom0 c * 3 then 0 else g) gf in
    let ff := img_map (fun s => s * dv c) (sum_axis0 Iout) in
    if decide (map length gf = map length ff) then Ok (inr (gf, ff))
    else Raise (ValueError "operands could not be broadcast together")
  else if decide (scaling c = "uniform") then
    p ← cube_mul Iout (data_valid c);
    q ← cube_mul Iout Iout;
    let n := length (v_valid c) in
    Ok (inl (replicate n (sum_all p), replicate n (sum_all q)))
  else Raise (UnboundLocalError "gf").

Definition entries (s : scale_t) : vec :=
  match s with
  | PerChannel v => v
  | PerPixel i => pixels i
  end.

(** Lines 390-408.  With [output] the normalized scale is printed, which
    takes the maximum of the scale. *)
Definition get_scale (c : ctx) (Iout : cube) (output : bool) : result scale_t :=
  g ← gf_ff c Iout;
  let scale :=
    match g with
    | inl (gf, ff) => PerChannel (zip_with scale_cell gf ff)
    | inr (gf, ff) => PerPixel (img_map2 scale_cell gf ff)
    end in
  if output then _ ← np_max (entries scale); Ok scale else Ok scale.

(** A channel that is identically zero (either sign of zero). *)
Definition all_zero (c : img) : bool := forallb (fun x => x =? 0) (pixels c).

(** Inputs for the examples: a two-channel, one-pixel model whose first
    channel is zero, and data with a positive and a blanked (NaN) pixel. *)
Definition model_01 : cube := [ [[0]]; [[1]] ].
Definition data_52 : cube := [ [[5]]; [[2]] ].
Definition ctx_of (policy : string) (data : cube) : ctx :=
  {| scaling := policy; data_valid := data; mom0 := [[7]];
     sigma_mom0 := 1; dv := 1; v_valid := [0; 1] |}.

(** *** Facts about zero channels *)

Definition is_zero_float (x : float) : Prop := x = 0 \/ x = (-0).

Lemma sum_zeros l : Forall (fun x => x = 0) l -> Flt.sum l = 0.
Proof.
  destruct l as [|x r]; [reflexivity|].
  intros H. apply Forall_cons in H as [-> H]. unfold Flt.sum. simpl.
  induction H as [|y r -> _ IH]; [reflexivity|]. simpl. exact IH.
Qed.

Lemma max_zeros l m :
  Forall is_zero_float l -> Flt.reduce Flt.fmax l = Some m -> is_zero_float m.
Proof.
  destruct l as [|x r]; [discriminate|]. simpl.
  intros H. apply Forall_cons in H as [Hx H]. intros [= <-].
  revert x Hx. induction H as [|y r Hy _ IH]; intros x Hx; [exact Hx|].
  simpl. apply IH.
  destruct Hx as [-> | ->], Hy as [-> | ->]; vm_compute; auto.
Qed.

Lemma all_zero_Forall c : all_zero c = true -> Forall is_zero_float (pixels c).
Proof.
  unfold all_zero. rewrite forallb_forall, Forall_forall.
  intros H x Hx. apply Flt.eqb_zero_cases, H, list_elem_of_In, Hx.
Qed.

Lemma squares_of_zeros (c : img) :
  Forall is_zero_float (pixels c) ->
  Forall (fun x => x = 0) (pixels (img_map2 PrimFloat.mul c c)).
Proof.
  unfold pixels, img_map2. induction c as [|r c IH]; simpl; [constructor|].
  rewrite Forall_app. intros [Hr Hc]. apply Forall_app. split; [|auto].
  clear -Hr. induction Hr as [|x r Hx _ IH]; simpl; constructor; [|exact IH].
  destruct Hx as [-> | ->]; reflexivity.
Qed.

Lemma scale_cell_forced gf ff :
  (ff =? 0) || (gf / ff <? 0) = true -> scale_cell gf ff = 0.
Proof. unfold scale_cell. intros ->. reflexivity. Qed.

Lemma scale_cell_zero_denominator gf ff : is_zero_float ff -> scale_cell gf ff = 0.
Proof.
  intros H. apply scale_cell_forced.
  destruct H as [-> | ->]; reflexivity.
Qed.

Lemma scale_cell_not_negative gf ff : (scale_cell gf ff <? 0) = false.
Proof.
  unfold scale_cell. destruct (ff =? 0); [reflexivity|]. simpl.
  destruct (gf / ff <? 0) eqn:E; [reflexivity|exact E].
Qed.

(** The numerator and the denominator at a position: a channel index for
    the per-channel policies, a pixel for [mom0]. *)
Definition gf_ff_at (g : vec * vec + img * img) (k : nat * nat) : option (float * float) :=
  match g with
  | inl (gf, ff) => x ← gf !! k.1; y ← ff !! k.1; Some (x, y)
  | inr (gf, ff) => x ← at2 gf k.1 k.2; y ← at2 ff k.1 k.2; Some (x, y)
  end.

Definition scale_at (s : scale_t) (k : nat * nat) : option float :=
  match s with
  | PerChannel v => v !! k.1
  | PerPixel i => at2 i k.1 k.2
  end.

Lemma cube_mul_lookup a b p k ch :
  cube_mul a b = Ok p -> a !! k = Some ch ->
  exists ch', b !! k = Some ch' /\ p !! k = Some (img_map2 PrimFloat.mul ch ch').
Proof.
  unfold cube_mul. destruct (decide _) as [E|]; [|discriminate].
  intros [= <-] Ha.
  assert (length a = length b) as Hl.
  { apply (f_equal length) in E. unfold shape3 in E.
    by rewrite !length_map in E. }
  destruct (b !! k) as [ch'|] eqn:Hb.
  - exists ch'. split; [reflexivity|].
    unfold cube_map2. rewrite lookup_zip_with, Ha. simpl. by rewrite Hb.
  - apply lookup_ge_None in Hb. apply lookup_lt_Some in Ha. lia.
Qed.

Lemma cube_mul_diag_lookup a q k ch :
  cube_mul a a = Ok q -> a !! k = Some ch ->
  q !! k = Some (img_map2 PrimFloat.mul ch ch).
Proof.
  intros H Ha. destruct (cube_mul_lookup _ _ _ _ _ H Ha) as (ch' & Hb & Hq).
  congruence.
Qed.

Lemma mapM_result_lookup {A B} (f : A -> result B) l r k x :
  mapM f l = Ok r -> l !! k = Some x ->
  exists y, f x = Ok y /\ r !! k = Some y.
Proof.
  revert r k. induction l as [|a l IH]; intros r k; [by intros _ ?|].
  simpl. destruct (f a) as [b|] eqn:Ea; simpl; [|discriminate].
  destruct (mapM f l) as [r'|]; simpl; [|discriminate].
  intros [= <-]. destruct k as [|k]; simpl.
  - intros [= <-]. eauto.
  - intros Hk. eapply IH; eauto.
Qed.

Lemma get_scale_inv c Iout o s :
  get_scale c Iout o = Ok s ->
  match s with
  | PerChannel v =>
      exists gf ff, gf_ff c Iout = Ok (inl (gf, ff)) /\ v = zip_with scale_cell gf ff
  | PerPixel i =>
      exists gf ff, gf_ff c Iout = Ok (inr (gf, ff)) /\ i = img_map2 scale_cell gf ff
  end.
Proof.
  unfold get_scale. destruct (gf_ff c Iout) as [[[gf ff]|[gf ff]]|]; simpl;
    [| |discriminate].
  - destruct o; simpl.
    + destruct (np_max _); simpl; [|discriminate]. intros [= <-]. eauto.
    + intros [= <-]. eauto.
  - destruct o; simpl.
    + destruct (np_max _); simpl; [|discriminate]. intros [= <-]. eauto.
    + intros [= <-]. eauto.
Qed.

Lemma get_scale_at c Iout o s g k gf ff :
  get_scale c Iout o = Ok s -> gf_ff c Iout = Ok g ->
  gf_ff_at g k = Some (gf, ff) ->
  scale_at s k = Some (scale_cell gf ff).
Proof.
  intros Hs Hg Hk. apply get_scale_inv in Hs.
  destruct s as [v|i]; destruct Hs as (gf' & ff' & Hg' & ->);
    rewrite Hg in Hg'; injection Hg' as ->; simpl in *.
  - rewrite lookup_zip_with.
    destruct (gf' !! k.1); simpl in *; [|discriminate].
    destruct (ff' !! k.1); simpl in *; [|discriminate]. congruence.
  - unfold img_map2. rewrite at2_zip_with.
    destruct (at2 gf' _ _); simpl in *; [|discriminate].
    destruct (at2 ff' _ _); simpl in *; [|discriminate]. congruence.
Qed.

Lemma get_scale_not_negative c Iout o s x :
  get_scale c Iout o = Ok s -> x ∈ entries s -> (x <? 0) = false.
Proof.
  intros Hs Hx. apply get_scale_inv in Hs.
  destruct s as [v|i]; destruct Hs as (gf & ff & _ & ->); simpl in Hx.
  - apply elem_of_zip_with in Hx as (g & f & -> & _).
    apply scale_cell_not_negative.
  - unfold pixels, img_map2 in Hx.
    apply elem_of_concat in Hx as (row & Hx & Hrow).
    apply elem_of_zip_with in Hrow as (rg & rf & -> & _).
    apply elem_of_zip_with in Hx as (g & f & -> & _).
    apply scale_cell_not_negative.
Qed.

Lemma chi2_zero_channel c Iout o s k ch :
  scaling c = "chi2" -> get_scale c Iout o = Ok s ->
  Iout !! k = Some ch -> all_zero ch = true ->
  scale_at s (k, 0%nat) = Some 0.
Proof.
  intros Hp Hs Hk Hz.
  destruct (gf_ff c Iout) as [g|] eqn:Hg;
    [|unfold get_scale in Hs; rewrite Hg in Hs; discriminate].
  pose proof Hg as Hg'. unfold gf_ff in Hg'. rewrite Hp in Hg'. simpl in Hg'.
  destruct (cube_mul Iout (data_valid c)) as [p|] eqn:Ep; [|discriminate].
  destruct (cube_mul Iout Iout) as [q|] eqn:Eq; [|discriminate].
  simpl in Hg'. injection Hg' as <-.
  destruct (cube_mul_lookup _ _ _ _ _ Ep Hk) as (ch' & _ & Hpk).
  pose proof (cube_mul_diag_lookup _ _ _ _ Eq Hk) as Hqk.
  erewrite (get_scale_at _ _ _ _ _ (k, 0%nat) _ _ Hs Hg).
  2:{ simpl. unfold sum_axis12. rewrite !list_lookup_fmap, Hpk, Hqk. reflexivity. }
  f_equal. apply scale_cell_zero_denominator. left.
  apply sum_zeros, squares_of_zeros, all_zero_Forall, Hz.
Qed.

Lemma peak_zero_channel c Iout o s k ch :
  scaling c = "peak" -> get_scale c Iout o = Ok s ->
  Iout !! k = Some ch -> all_zero ch = true ->
  scale_at s (k, 0%nat) = Some 0.
Proof.
  intros Hp Hs Hk Hz.
  destruct (gf_ff c Iout) as [g|] eqn:Hg;
    [|unfold get_scale in Hs; rewrite Hg in Hs; discriminate].
  pose proof Hg as Hg'. unfold gf_ff in Hg'. rewrite Hp in Hg'. simpl in Hg'.
  destruct (max_axis12 (data_valid c)) as [gf|] eqn:Eg; [|discriminate].
  destruct (max_axis12 Iout) as [ff|] eqn:Ef; [|discriminate].
  simpl in Hg'. destruct (decide (length gf = length ff)) as [Hl|]; [|discriminate].
  injection Hg' as <-.
  destruct (mapM_result_lookup _ _ _ _ _ Ef Hk) as (m & Hm & Hfk).
  destruct (gf !! k) as [gk|] eqn:Hgk.
  2:{ apply lookup_ge_None in Hgk. apply lookup_lt_Some in Hfk. lia. }
  erewrite (get_scale_at _ _ _ _ _ (k, 0%nat) _ _ Hs Hg).
  2:{ simpl. rewrite Hgk, Hfk. reflexivity. }
  f_equal. apply scale_cell_zero_denominator.
  unfold np_max in Hm. destruct (Flt.reduce _ _) as [m'|] eqn:Er; [|discriminate].
  injection Hm as ->. eapply max_zeros; [|exact Er]. apply all_zero_Forall, Hz.
Qed.

Lemma squares_of_zero_cube (a : cube) :
  Forall (fun ch => all_zero ch = true) a ->
  Forall (fun x => x = 0) (concat (map pixels (cube_map2 PrimFloat.mul a a))).
Proof.
  induction 1 as [|ch a Hch _ IH]; simpl; [constructor|].
  apply Forall_app. split; [|exact IH].
  apply squares_of_zeros, all_zero_Forall, Hch.
Qed.

Lemma uniform_zero_cube c Iout o s :
  scaling c = "uniform" -> get_scale c Iout o = Ok s ->
  Forall (fun ch => all_zero ch = true) Iout ->
  Forall (fun x => x = 0) (entries s).
Proof.
  intros Hp Hs Hz. apply get_scale_inv in Hs.
  unfold gf_ff in Hs. rewrite Hp in Hs. simpl in Hs.
  destruct (cube_mul Iout (data_valid c)) as [p|] eqn:Ep.
  2:{ destruct s; destruct Hs as (? & ? & ? & _); discriminate. }
  destruct (cube_mul Iout Iout) as [q|] eqn:Eq.
  2:{ destruct s; destruct Hs as (? & ? & ? & _); discriminate. }
  simpl in Hs. destruct s as [v|i]; destruct Hs as (gf & ff & [= <- <-] & ->).
  simpl. apply Forall_forall. intros x Hx.
  apply elem_of_zip_with in Hx as (g & f & -> & _ & Hf).
  apply elem_of_replicate in Hf as [-> _].
  apply scale_cell_zero_denominator. left.
  unfold cube_mul in Eq. destruct (decide _); [|discriminate].
  injection Eq as <-. unfold sum_all. apply sum_zeros, squares_of_zero_cube, Hz.
Qed.

(** With equal shapes the sum-based policies always return a scale. *)
Lemma get_scale_returns c Iout :
  scaling c = "chi2" \/ scaling c = "uniform" ->
  shape3 Iout = shape3 (data_valid c) ->
  exists s, get_scale c Iout false = Ok (PerChannel s).
Proof.
  intros Hp Hshape. unfold get_scale, gf_ff, cube_mul.
  rewrite (decide_True _ _ Hshape), (decide_True _ _ (eq_refl (shape3 Iout))).
  destruct Hp as [-> | ->]; simpl; eauto.
Qed.

(** C4, as amended.  Whenever [get_scale] returns, the scale at every
    position is the policy's quotient [gf / ff], replaced by exactly 0 where
    the denominator [ff] is 0 or the quotient is negative; so no entry is
    negative, and an entry is NaN only if the quotient is NaN with a
    non-zero denominator.  For [chi2] and [peak] the scale of a channel whose
    model is identically 0 is exactly 0; for [uniform], whose single scale is
    shared by all channels, the scale is 0 when the whole model cube is 0. *)
Theorem get_scale_forced_zero c Iout o s :
  get_scale c Iout o = Ok s ->
  (exists g, gf_ff c Iout = Ok g /\
     forall k gf ff, gf_ff_at g k = Some (gf, ff) ->
       scale_at s k = Some (if (ff =? 0) || (gf / ff <? 0) then 0 else gf / ff)) /\
  (forall x, x ∈ entries s -> (x <? 0) = false) /\
  (scaling c = "chi2" \/ scaling c = "peak" ->
     forall k ch, Iout !! k = Some ch -> all_zero ch = true ->
       scale_at s (k, 0%nat) = Some 0) /\
  (scaling c = "uniform" ->
     Forall (fun ch => all_zero ch = true) Iout ->
     Forall (fun x => x = 0) (entries s)).
Proof.
  intros Hs. repeat split.
  - destruct (gf_ff c Iout) as [g|] eqn:Hg;
      [|unfold get_scale in Hs; rewrite Hg in Hs; discriminate].
    exists g. split; [reflexivity|]. intros k gf ff Hk.
    exact (get_scale_at _ _ _ _ _ _ _ _ Hs Hg Hk).
  - intros x. exact (get_scale_not_negative _ _ _ _ _ Hs).
  - intros [Hp|Hp] k ch Hk Hz.
    + exact (chi2_zero_channel _ _ _ _ _ _ Hp Hs Hk Hz).
    + exact (peak_zero_channel _ _ _ _ _ _ Hp Hs Hk Hz).
  - intros Hp. exact (uniform_zero_cube _ _ _ _ Hp Hs).
Qed.

Lemma get_scale_forced_zero_witness :
  get_scale (ctx_of "chi2" data_52) model_01 false = Ok (PerChannel [0; 2]) /\
  scale_at (PerChannel [0; 2]) (0%nat, 0%nat) = Some 0 /\
  (forall x, x ∈ [0; 2] -> (x <? 0) = false).
Proof.
  pose proof (get_scale_forced_zero (ctx_of "chi2" data_52) model_01 false
                (PerChannel [0; 2]) eq_refl) as (_ & Hneg & Hzero & _).
  split; [reflexivity|]. split; [|exact Hneg].
  exact (Hzero (or_introl eq_refl) 0%nat [[0]] eq_refl eq_refl).
Defined.

(** C4 as stated fails.  Under [uniform] the first channel of [model_01] is
    identically 0 and still gets the scale 2 (the sum over the whole cube
    gives gf = 2, ff = 1); under [chi2] a blanked (NaN) data pixel in a
    channel with non-zero model gives the scale NaN. *)
Lemma get_scale_counterexample :
  all_zero [[0]] = true /\
  get_scale (ctx_of "uniform" data_52) model_01 false = Ok (PerChannel [2; 2]) /\
  get_scale (ctx_of "chi2" [ [[5]]; [[nan]] ]) model_01 false
    = Ok (PerChannel [0; nan]).
Proof. vm_compute. repeat split; reflexivity. Qed.

End Scale.

(** * Library functions taken as parameters *)

(** The numerical functions of numpy, scipy and astropy that the source
    calls, and the physical constant [vunit] that it derives from astropy's
    constants (sqrt (G M_sun / au) / 1000, about 29.78). *)
Record ext := {
  fcos : float -> float;
  fsin : float -> float;
  ftan : float -> float;
  fexp : float -> float;
  ferf : float -> float;
  flog10 : float -> float;
  fpow : float -> float -> float;
  hypot : float -> float -> float;
  fradians : float -> float;
  vunit : float
}.

(** An instance used to evaluate the definitions on concrete inputs.  Its
    [hypot] and [fpow] agree with numpy wherever the examples below use them
    (integer Pythagorean triples, the exponents 0, 2, -2 and -1/2 on exact
    squares and on 0); the trigonometric entries are the values at the
    angle 0 and are only used at that angle, [ferf] is not reached, and
    [flog10] is the value at 1 and is only used there. *)
Definition ext_ref : ext := {|
  fcos := fun _ => 1%float;
  fsin := fun _ => 0%float;
  ftan := fun _ => 0%float;
  fexp := fun _ => 1%float;
  ferf := fun _ => 0%float;
  flog10 := fun _ => 0%float;
  fpow := fun x y =>
    (if y =? 0 then 1
     else if y =? 2 then x * x
     else if y =? -2 then 1 / (x * x)
     else if y =? -0.5 then 1 / sqrt x
     else nan)%float;
  hypot := fun x y => sqrt (x * x + y * y)%float;
  fradians := fun x => (x * 0x1.1df46a2529d39p-6)%float;
  vunit := 29.78%float
|}.

(** * VelocityFieldSolver: [update_xdisk] and [getvlos] *)

Module Disk.
Import Nd.
Local Open Scope float_scope.

Definition at3 {A} (a : list (list (list A))) (l i j : nat) : option A :=
  a !! l ≫= fun m => at2 m i j.

Lemma at3_map {A B} (f : A -> B) a l i j :
  at3 (map (map (map f)) a) l i j = f <$> at3 a l i j.
Proof.
  unfold at3. rewrite list_lookup_fmap.
  destruct (a !! l) as [m|]; simpl; [|reflexivity]. apply at2_map.
Qed.

Lemma at3_zip_with {A B C} (f : A -> B -> C) a b l i j :
  at3 (zip_with (zip_with (zip_with f)) a b) l i j =
  match at3 a l i j, at3 b l i j with
  | Some x, Some y => Some (f x y)
  | _, _ => None
  end.
Proof.
  unfold at3. rewrite lookup_zip_with.
  destruct (a !! l) as [ma|]; simpl; [|reflexivity].
  destruct (b !! l) as [mb|]; simpl.
  - apply at2_zip_with.
  - destruct (at2 ma i j); reflexivity.
Qed.

Section WithExt.
Variable E : ext.

(** ** [update_xdisk], lines 291-319 *)

(** The thresholds of lines 297 and 306. *)
Definition h_thin : float := 0.01.
Definition a_tol : float := 1e-3.

(** The coefficients of the quadratic [a z^2 - 2 b z + c = 0] at a cell with
    rotated coordinates [X] (minor axis) and [Y] (major axis). *)
Definition coef_a (tani hdisk : float) : float :=
  fpow E tani (-2) - fpow E hdisk 2.
Definition coef_b (hdisk Xcosi : float) : float :=
  (1 + fpow E hdisk 2) * Xcosi.
Definition coef_c (tani hdisk Xcosi Y : float) : float :=
  (fpow E tani 2 - fpow E hdisk 2) * (Xcosi * Xcosi) - fpow E hdisk 2 * (Y * Y).
Definition discriminant (a b c : float) : float := b * b - a * c.

(** Line 307: the linearized root. *)
Definition x_linear (cosi tani hdisk X Y : float) : float :=
  let Xcosi := X * cosi in
  let b := coef_b hdisk Xcosi in
  let c := coef_c tani hdisk Xcosi Y in
  Xcosi + c / b / 2.

(** Lines 310-317: a root of the quadratic; [zsini] starts as NaN and is
    assigned only where the discriminant is >= 0. *)
Definition x_root (plus : bool) (cosi tani hdisk X Y : float) : float :=
  let Xcosi := X * cosi in
  let a := coef_a tani hdisk in
  let b := coef_b hdisk Xcosi in
  let c := coef_c tani hdisk Xcosi Y in
  let D := discriminant a b c in
  let zsini :=
    if 0 <=? D then (if plus then b + sqrt D else b - sqrt D) / a else nan in
  Xcosi + zsini.

(** Line 302: [hdisk**2] for the Python float [hdisk].  Python raises
    [OverflowError] where the power of a finite number overflows (numpy
    would return infinity). *)
Definition py_sq (hdisk : float) : result float :=
  let q := fpow E hdisk 2 in
  if is_infinity q && is_finite hdisk
  then Raise (OverflowError "Numerical result out of range")
  else Ok q.

(** Lines 298-299: the razor-thin surface. *)
Definition xdisk_thin (cosi : float) (Xnest : cube) : option cube * option cube :=
  (Some (cube_map (fun X => X / cosi) Xnest),
   Some (cube_map (fun X => X / cosi) Xnest)).

(** Lines 301-317: the flared surface.  Line 304 combines [Xnest] with
    [Ynest] elementwise, so arrays that cannot be broadcast together raise
    [ValueError] in either branch; the boolean mask of line 312 has the
    broadcast shape, and indexing [b] (of the shape of [Xnest]) with a mask
    of another shape raises [IndexError]. *)
Definition xdisk_thick (cosi tani : float) (Xnest Ynest : cube) (hdisk : float)
  : result (option cube * option cube) :=
  let a := coef_a tani hdisk in
  if (- a_tol <? a) && (a <? a_tol) then
    x1 ← cube_broadcast2 (x_linear cosi tani hdisk) Xnest Ynest;
    Ok (Some x1, None)
  else
    x1 ← cube_broadcast2 (x_root true cosi tani hdisk) Xnest Ynest;
    x2 ← cube_broadcast2 (x_root false cosi tani hdisk) Xnest Ynest;
    if decide (shape x1 = shape Xnest) then Ok (Some x1, Some x2)
    else Raise (IndexError "boolean index did not match indexed array").

(** ** [getvlos], lines 339-355 *)

Record vparams := {
  envelope : bool;
  Rc : float;
  Rin : float;
  sini : float;
  signmajor : float;
  signminor : float
}.

(** The value before the two no-value assignments of lines 352-354. *)
Definition vlos_raw (p : vparams) (x_in Y : float) : float :=
  let r := hypot E x_in Y in
  let vp := fpow E r (-0.5) in
  let vr := r * 0 in
  let c := Rc p <? r in
  let vp := if envelope p && c then sqrt (Rc p) / r else vp in
  let vr := if envelope p && c
            then - fpow E r (-0.5) * sqrt (2 - Rc p / r) else vr in
  let erot := Y * signmajor p / r in
  let erad := x_in * signminor p / r in
  (vp * erot + vr * erad) * sini p * vunit E.

Definition vlos_cell (p : vparams) (x_in Y : float) : float :=
  let r := hypot E x_in Y in
  let vlos := vlos_raw p x_in Y in
  let vlos := if r <? Rin p then nan else vlos in
  if negb (envelope p) && (Rc p <? r) then nan else vlos.

(** *** Where the velocity is a number *)






(** Every operation of the closure is elementwise on [x_in] and [Ynest],
    which numpy broadcasts together at line 342 or refuses. *)
Definition getvlos (p : vparams) (Ynest : cube) (x_in : option cube)
  : result (option cube) :=
  match x_in with
  | None => Ok None
  | Some x => vlos ← cube_broadcast2 (vlos_cell p) x Ynest; Ok (Some vlos)
  end.

(** *** The quadratic solve *)

Lemma x_root_no_solution plus cosi tani hdisk X Y :
  (discriminant (coef_a tani hdisk) (coef_b hdisk (X * cosi))
     (coef_c tani hdisk (X * cosi) Y) <? 0) = true ->
  x_root plus cosi tani hdisk X Y = nan.
Proof.
  intros H. unfold x_root. cbv zeta.
  rewrite (Flt.ltb_leb_false _ _ H). apply Flt.add_nan_r.
Qed.

Lemma at3_cube_map2 f (a b : cube) l i j :
  at3 (cube_map2 f a b) l i j =
  match at3 a l i j, at3 b l i j with
  | Some x, Some y => Some (f x y)
  | _, _ => None
  end.
Proof. apply at3_zip_with. Qed.

(** *** The velocity field *)











End WithExt.




End Disk.

(** * GridBuilder: the nested grid of [makegrid], lines 230-283 *)

(** The grid is plain arithmetic on the pixel pitch.  It is written once over
    an interface of the arithmetic it uses, with two instances: binary64, as
    the program runs it, and the rationals, where the geometry can be stated
    exactly (a division by a power of two is exact in binary64 unless it
    underflows, so the two agree on the grids of the examples). *)

Class Num (T : Type) := {
  n_ofZ : Z -> T;
  n_add : T -> T -> T;
  n_sub : T -> T -> T;
  n_mul : T -> T -> T;
  n_div : T -> T -> T;
  n_opp : T -> T;
  n_abs : T -> T;
  n_ltb : T -> T -> bool;
  n_eqb : T -> T -> bool;
  (** the literals 0.5 and 1.1 *)
  n_half : T;
  n_1_1 : T;
  (** [int(x)]: truncation toward zero *)
  n_int : T -> result Z
}.

Module FloatNum.
Local Open Scope float_scope.

(** [float(z)] for a Python int: rounding to nearest. *)
Definition of_Z (z : Z) : float := SF2Prim (binary_normalize prec emax z 0%Z false).

(** [int(x)] for a float. *)
Definition to_int (x : float) : result Z :=
  match Prim2SF x with
  | S754_nan => Raise (ValueError "cannot convert float NaN to integer")
  | S754_infinity _ => Raise (TypeError "cannot convert float infinity to integer")
  | S754_zero _ => Ok 0%Z
  | S754_finite s m e =>
      let a := if (0 <=? e)%Z then (Z.pos m * 2 ^ e)%Z
               else (Z.pos m / 2 ^ (- e))%Z in
      Ok (if s then (- a)%Z else a)
  end.

#[global] Instance float_num : Num float := {|
  n_ofZ := of_Z;
  n_add := PrimFloat.add;
  n_sub := PrimFloat.sub;
  n_mul := PrimFloat.mul;
  n_div := PrimFloat.div;
  n_opp := PrimFloat.opp;
  n_abs := PrimFloat.abs;
  n_ltb := PrimFloat.ltb;
  n_eqb := PrimFloat.eqb;
  n_half := 0.5;
  n_1_1 := 1.1;
  n_int := to_int
|}.

End FloatNum.

Module QNum.
Local Open Scope Q_scope.



End QNum.

Module Grid.
Section Generic.
Context {T : Type} `{Num T}.

(** [np.linspace(start, stop, num)] with its default [endpoint=True]. *)
Definition linspace (start stop : T) (num : Z) : list T :=
  let div := (num - 1)%Z in
  let y := map n_ofZ (seqZ 0 num) in
  let delta := n_sub stop start in
  let y :=
    if (0 <? div)%Z then
      let step := n_div delta (n_ofZ div) in
      if n_eqb step (n_ofZ 0)
      then map (fun k => n_mul (n_div k (n_ofZ div)) delta) y
      else map (fun k => n_mul k step) y
    else map (fun k => n_mul k delta) y in
  let y := map (fun v => n_add v start) y in
  if (1 <? num)%Z then <[Z.to_nat (num - 1) := stop]> y else y.

(** Lines 248-249: the coordinate axis of layer [l]. *)
Definition nest_axis (npixnest : Z) (dpix : T) (l : nat) : list T :=
  let n := n_sub (n_ofZ (npixnest / 2)) n_half in
  map (fun s => n_div (n_mul s dpix) (n_ofZ (2 ^ Z.of_nat l)))
      (linspace (n_opp n) n npixnest).

(** Line 238: [int(2**(np.ceil(np.log2(npix))))].  The logarithm of 0 is
    -inf and gives 0; that of a negative number is NaN, which [int]
    refuses; beyond the binary64 range the power is infinite. *)
Definition npixnest_of (npix : Z) : result Z :=
  if (npix <? 0)%Z then Raise (ValueError "cannot convert float NaN to integer")
  else if (npix =? 0)%Z then Ok 0%Z
  else if (1024 <=? Z.log2_up npix)%Z
       then Raise (TypeError "cannot convert float infinity to integer")
  else Ok (2 ^ Z.log2_up npix)%Z.

(** [a[i0:i1]] for a 1-d array. *)
Definition py_slice {A} (a : list A) (i0 i1 : Z) : list A :=
  let len := Z.of_nat (length a) in
  let norm i := Z.min len (Z.max 0 (if (i <? 0)%Z then i + len else i))%Z in
  let s := norm i0 in
  let e := norm i1 in
  take (Z.to_nat (e - s)) (drop (Z.to_nat s) a).

(** The spacing and the half-width of an axis as the source prints them at
    lines 264-266: [x[1] - x[0]] and [x[-1]]. *)
Definition axis_pitch (a : list T) : result T :=
  match a with
  | x0 :: x1 :: _ => Ok (n_sub x1 x0)
  | _ => Raise (IndexError "index 1 is out of bounds")
  end.
Definition axis_halfwidth (a : list T) : result T :=
  match last a with
  | Some x => Ok x
  | None => Raise (IndexError "index -1 is out of bounds")
  end.

Record nested := {
  dpix : T;
  r_need : T;
  npix : Z;
  npixnest : Z;
  nq1 : Z;
  nq3 : Z;
  nlayer : Z;
  xnest : list (list T);
  ngauss : Z;
  n_need : Z;
  ineed0 : Z;
  ineed1 : Z;
  xneed : list T
}.

(** Lines 232-283 without the rotation and the beam kernel (which need
    cos, sin and exp and are part of [Makegrid]); [ynest] and [yneed] are
    equal to [xnest] and [xneed]. *)
Definition build_nested (dx dy bmaj rmax : T) (nlayer : Z) : result nested :=
  let adx := n_abs dx in
  let ady := n_abs dy in
  let dpix := if n_ltb ady adx then ady else adx in
  let r_need := n_add rmax (n_mul bmaj n_1_1) in
  npix ← n_int (n_add (n_div (n_mul (n_ofZ 2) r_need) dpix) n_half);
  npixnest ← npixnest_of npix;
  let nq1 := (npixnest / 2 - npixnest / 2 / 2)%Z in
  let nq3 := (nq1 + npixnest / 2)%Z in
  let xnest := map (nest_axis npixnest dpix) (seq 0 (Z.to_nat nlayer)) in
  _ ← mapM (fun a => _ ← axis_halfwidth a; axis_pitch a) xnest;
  ngauss ← n_int (n_add (n_mul (n_div bmaj dpix) n_1_1) n_half);
  n_need ← n_int (n_add (n_div r_need dpix) n_half);
  let ineed0 := (npixnest / 2 - n_need)%Z in
  let ineed1 := (npixnest / 2 + n_need)%Z in
  x0 ← match xnest with
       | a :: _ => Ok a
       | [] => Raise (IndexError "index 0 is out of bounds for axis 0")
       end;
  Ok {| dpix := dpix; r_need := r_need; npix := npix; npixnest := npixnest;
        nq1 := nq1; nq3 := nq3; nlayer := nlayer; xnest := xnest;
        ngauss := ngauss; n_need := n_need;
        ineed0 := ineed0; ineed1 := ineed1;
        xneed := py_slice x0 ineed0 ineed1 |}.

End Generic.
Arguments nested T : clear implicits.

(** ** Sizes *)

Section Len.
Context {T : Type} `{Num T}.
Lemma length_linspace (start stop : T) num : length (linspace start stop num) = Z.to_nat num.
Proof.
  unfold linspace.
  assert (forall (y : list T), length (if (1 <? num)%Z then <[Z.to_nat (num - 1) := stop]> y else y) = length y) as E.
  { intros y. destruct (1 <? num)%Z; [apply length_insert|reflexivity]. }
  rewrite E, length_map.
  destruct (0 <? num - 1)%Z; [destruct (n_eqb _ _)|]; rewrite !length_map, length_seqZ; reflexivity.
Qed.

End Len.


(** ** The grid in exact arithmetic *)

Import QNum.
Local Open Scope Q_scope.



(** A grid size returned by [npixnest_of] is 0, 1 or an even number. *)
Lemma npixnest_of_even npix N :
  npixnest_of npix = Ok N -> (2 <= N)%Z -> (N = 2 * (N / 2))%Z /\ (npix <= N)%Z /\ (2 <= npix)%Z.
Proof.
  unfold npixnest_of. destruct (npix <? 0)%Z eqn:E0; [discriminate|].
  destruct (npix =? 0)%Z eqn:E1; [intros [= <-]; lia|].
  destruct (1024 <=? _)%Z; [discriminate|]. intros [= <-] HN.
  assert (0 < npix)%Z by lia.
  destruct (Z.eq_dec npix 1%Z) as [->|]; [change (Z.log2_up 1) with 0%Z in HN; lia|].
  assert (0 < Z.log2_up npix)%Z by (apply Z.log2_up_pos; lia).
  split; [|split; [|lia]].
  - replace (Z.log2_up npix) with (Z.succ (Z.pred (Z.log2_up npix))) by lia.
    rewrite Z.pow_succ_r by lia.
    rewrite (Z.mul_comm 2%Z), Z.div_mul by lia. lia.
  - apply Z.log2_up_spec. lia.
Qed.
























End Grid.

(** * The Python object *)

(** A [ChannelFit] instance is a dictionary of attributes.  Reading an
    attribute that was never assigned raises [AttributeError]; a method
    that raises leaves the attributes it had already assigned in place. *)

Module Py.

Inductive pyval : Type :=
| VNone
| VBool (b : bool)
| VInt (z : Z)
| VFloat (f : float)
| VStr (s : string)
| VVec (a : vec)
| VImg (a : img)
| VCube (a : cube)
| VSlots (a : list (option cube))
| VBools (a : list bool)
| VGetvlos (Rc Rin : float)
| VDict (d : list (string * float)).

Abbreviation obj := (gmap string pyval).

Definition M (A : Type) : Type := obj -> obj * result A.

#[global] Instance M_ret : MRet M := fun _ a s => (s, Ok a).
#[global] Instance M_bind : MBind M := fun _ _ k m s =>
  match m s with
  | (s', Ok a) => k a s'
  | (s', Raise e) => (s', Raise e)
  end.

Definition raise {A} (e : pyerr) : M A := fun s => (s, Raise e).
Definition lift {A} (r : result A) : M A := fun s => (s, r).

Definition getattr (name : string) : M pyval := fun s =>
  (s, match s !! name with
      | Some v => Ok v
      | None => Raise (AttributeError name)
      end).
Definition setattr (name : string) (v : pyval) : M unit := fun s =>
  (<[name := v]> s, Ok tt).

Definition get_float (name : string) : M float :=
  v ← getattr name;
  match v with VFloat f => mret f | _ => raise (TypeError name) end.
Definition get_int (name : string) : M Z :=
  v ← getattr name;
  match v with VInt z => mret z | _ => raise (TypeError name) end.
Definition get_bool (name : string) : M bool :=
  v ← getattr name;
  match v with VBool b => mret b | _ => raise (TypeError name) end.
Definition get_str (name : string) : M string :=
  v ← getattr name;
  match v with VStr b => mret b | _ => raise (TypeError name) end.
Definition get_vec (name : string) : M vec :=
  v ← getattr name;
  match v with VVec a => mret a | _ => raise (TypeError name) end.
Definition get_img (name : string) : M img :=
  v ← getattr name;
  match v with VImg a => mret a | _ => raise (TypeError name) end.
Definition get_cube (name : string) : M cube :=
  v ← getattr name;
  match v with VCube a => mret a | _ => raise (TypeError name) end.
Definition get_slots (name : string) : M (list (option cube)) :=
  v ← getattr name;
  match v with VSlots a => mret a | _ => raise (TypeError name) end.
Definition get_bools (name : string) : M (list bool) :=
  v ← getattr name;
  match v with VBools a => mret a | _ => raise (TypeError name) end.

(** Reading a local variable of a function: a name that has not been
    assigned on the path taken raises [UnboundLocalError]. *)
Definition local {A} (name : string) (x : option A) : M A :=
  match x with
  | Some a => mret a
  | None => raise (UnboundLocalError name)
  end.

(** [writes names m]: running [m] assigns no attribute outside [names]. *)
Definition writes {A} (names : list string) (m : M A) : Prop :=
  forall s n, n ∉ names -> (m s).1 !! n = s !! n.

Lemma writes_pure {A} names (r : result A) : writes names (lift r).
Proof. intros s n _. reflexivity. Qed.

Lemma writes_ret {A} names (a : A) : writes names (mret a).
Proof. intros s n _. reflexivity. Qed.

Lemma writes_raise {A} names e : writes names (raise (A:=A) e).
Proof. intros s n _. reflexivity. Qed.

Lemma writes_local {A} names name (x : option A) : writes names (local name x).
Proof. destruct x; intros s n _; reflexivity. Qed.

Lemma writes_getattr names name : writes names (getattr name).
Proof. intros s n _. reflexivity. Qed.

Lemma writes_setattr names name v : name ∈ names -> writes names (setattr name v).
Proof.
  intros Hin s n Hn. unfold setattr. simpl.
  apply lookup_insert_ne. intros ->. exact (Hn Hin).
Qed.

Lemma writes_bind {A B} names (m : M A) (k : A -> M B) :
  writes names m -> (forall a, writes names (k a)) -> writes names (m ≫= k).
Proof.
  intros Hm Hk s n Hn. unfold mbind, M_bind.
  specialize (Hm s n Hn). destruct (m s) as [s1 [a|e]]; simpl in *.
  - rewrite <- Hm. apply Hk, Hn.
  - exact Hm.
Qed.

Lemma writes_get_float names name : writes names (get_float name).
Proof.
  apply writes_bind; [apply writes_getattr|].
  intros []; first [apply writes_ret | apply writes_raise].
Qed.
Lemma writes_get_int names name : writes names (get_int name).
Proof.
  apply writes_bind; [apply writes_getattr|].
  intros []; first [apply writes_ret | apply writes_raise].
Qed.
Lemma writes_get_bool names name : writes names (get_bool name).
Proof.
  apply writes_bind; [apply writes_getattr|].
  intros []; first [apply writes_ret | apply writes_raise].
Qed.
Lemma writes_get_str names name : writes names (get_str name).
Proof.
  apply writes_bind; [apply writes_getattr|].
  intros []; first [apply writes_ret | apply writes_raise].
Qed.
Lemma writes_get_vec names name : writes names (get_vec name).
Proof.
  apply writes_bind; [apply writes_getattr|].
  intros []; first [apply writes_ret | apply writes_raise].
Qed.
Lemma writes_get_img names name : writes names (get_img name).
Proof.
  apply writes_bind; [apply writes_getattr|].
  intros []; first [apply writes_ret | apply writes_raise].
Qed.
Lemma writes_get_cube names name : writes names (get_cube name).
Proof.
  apply writes_bind; [apply writes_getattr|].
  intros []; first [apply writes_ret | apply writes_raise].
Qed.
Lemma writes_get_slots names name : writes names (get_slots name).
Proof.
  apply writes_bind; [apply writes_getattr|].
  intros []; first [apply writes_ret | apply writes_raise].
Qed.
Lemma writes_get_bools names name : writes names (get_bools name).
Proof.
  apply writes_bind; [apply writes_getattr|].
  intros []; first [apply writes_ret | apply writes_raise].
Qed.

Create HintDb writes.
#[global] Hint Resolve writes_pure writes_ret writes_raise writes_local
  writes_getattr writes_get_float writes_get_int writes_get_bool writes_get_str
  writes_get_vec writes_get_img writes_get_cube writes_get_slots
  writes_get_bools : writes.

(** Running a getter on a state that holds the attribute. *)
Lemma get_float_run s name f : s !! name = Some (VFloat f) -> get_float name s = (s, Ok f).
Proof. intros H. unfold get_float, mbind, M_bind, getattr. rewrite H. reflexivity. Qed.
Lemma get_vec_run s name a : s !! name = Some (VVec a) -> get_vec name s = (s, Ok a).
Proof. intros H. unfold get_vec, mbind, M_bind, getattr. rewrite H. reflexivity. Qed.
Lemma get_img_run s name a : s !! name = Some (VImg a) -> get_img name s = (s, Ok a).
Proof. intros H. unfold get_img, mbind, M_bind, getattr. rewrite H. reflexivity. Qed.
Lemma get_cube_run s name a : s !! name = Some (VCube a) -> get_cube name s = (s, Ok a).
Proof. intros H. unfold get_cube, mbind, M_bind, getattr. rewrite H. reflexivity. Qed.

Lemma bind_inv {A B} (m : M A) (k : A -> M B) s s' b :
  (m ≫= k) s = (s', Ok b) -> exists s1 a, m s = (s1, Ok a) /\ k a s1 = (s', Ok b).
Proof.
  unfold mbind, M_bind. destruct (m s) as [s1 [a|e]]; [eauto|discriminate].
Qed.

Lemma bind_ok {A B} (m : M A) (k : A -> M B) s s' a :
  m s = (s', Ok a) -> (m ≫= k) s = k a s'.
Proof. intros H. unfold mbind, M_bind. rewrite H. reflexivity. Qed.

Lemma bind_raise {A B} (m : M A) (k : A -> M B) s s' e :
  m s = (s', Raise e) -> (m ≫= k) s = (s', Raise e).
Proof. intros H. unfold mbind, M_bind. rewrite H. reflexivity. Qed.

End Py.

(** * [ChannelFit.makegrid], lines 187-283 *)

Module Makegrid.
Import Nd Py.
Local Open Scope float_scope.

(** What [read_cubefits] leaves on the object: the axes, their pitches, the
    cube, the noise level and the beam.  The FITS file and its header are
    outside the program; the outcome of reading them is a parameter. *)
Record observation := {
  o_x : vec; o_y : vec; o_v : vec;
  o_dx : float; o_dy : float; o_dv : float;
  o_data : cube;
  o_sigma : float;
  o_bmaj : float; o_bmin : float; o_bpa : float
}.

Definition loader : Type :=
  string -> option string -> float -> float ->
  float -> float -> float -> float -> Z -> Z -> option float ->
  result observation.

(** The attributes assigned by lines 193-225. *)
Definition head_attrs : list string :=
  ["x"; "dx"; "nx"; "y"; "dy"; "ny"; "v"; "dv"; "nv"; "data"; "sigma";
   "bmaj"; "bmin"; "bpa"; "cubefits"; "dist"; "vsys";
   "incl0"; "sini"; "cosi"; "tani"; "pa_rad"; "cospa"; "sinpa"; "X"; "Y";
   "v_nanblue"; "v_blue"; "v_nanmid"; "v_red"; "v_nanred"; "v_valid0"; "v_valid1";
   "data_blue"; "data_red"; "data_valid0"; "data_valid1";
   "mom0"; "mom1"; "mom2"; "sigma_mom0"].

(** The attributes of the polarity signs, the nested grid and the beam. *)
Definition tail_attrs : list string :=
  ["signmajor"; "signminor"; "nq1"; "nq3"; "nlayer"; "xnest"; "ynest";
   "Xnest"; "Ynest"; "pixperbeam"; "gaussbeam"; "ineed0"; "ineed1";
   "xneed"; "yneed"].

Ltac in_names := solve [repeat first [apply list_elem_of_here | apply list_elem_of_further]].

Ltac writes_step :=
  first
    [ apply writes_setattr; in_names
    | solve [auto with writes]
    | apply writes_bind; [|intros ?] ].

Section WithExt.
Variable E : ext.
Variable load : loader.

(** [read_cubefits] as [makegrid] calls it (no velocity limits).  Lines
    179-184 assign the attributes. *)
Definition read_cubefits (cubefits : string) (center : option string)
    (dist vsys xmin xmax ymin ymax : float) (xskip yskip : Z)
    (sigma : option float) : M unit :=
  o ← lift (load cubefits center dist vsys xmin xmax ymin ymax xskip yskip sigma);
  _ ← setattr "x" (VVec (o_x o));
  _ ← setattr "dx" (VFloat (o_dx o));
  _ ← setattr "nx" (VInt (Z.of_nat (length (o_x o))));
  _ ← setattr "y" (VVec (o_y o));
  _ ← setattr "dy" (VFloat (o_dy o));
  _ ← setattr "ny" (VInt (Z.of_nat (length (o_y o))));
  _ ← setattr "v" (VVec (o_v o));
  _ ← setattr "dv" (VFloat (o_dv o));
  _ ← setattr "nv" (VInt (Z.of_nat (length (o_v o))));
  _ ← setattr "data" (VCube (o_data o));
  _ ← setattr "sigma" (VFloat (o_sigma o));
  _ ← setattr "bmaj" (VFloat (o_bmaj o));
  _ ← setattr "bmin" (VFloat (o_bmin o));
  _ ← setattr "bpa" (VFloat (o_bpa o));
  _ ← setattr "cubefits" (VStr cubefits);
  _ ← setattr "dist" (VFloat dist);
  setattr "vsys" (VFloat vsys).

(** Lines 285-289. *)
Definition update_incl (incl : float) : M unit :=
  incl0 ← get_float "incl0";
  let i := fradians E (incl0 + incl) in
  _ ← setattr "sini" (VFloat (fsin E i));
  _ ← setattr "cosi" (VFloat (fcos E i));
  setattr "tani" (VFloat (ftan E i)).

(** [np.meshgrid(x, y)] *)
Definition meshgrid (x y : vec) : img * img :=
  (map (fun _ => x) y, map (fun yi => map (fun _ => yi) x) y).

(** Lines 34-37, on images and on stacks of images. *)
Definition rot_cell (pa x y : float) : float * float :=
  (x * fcos E pa - y * fsin E pa, x * fsin E pa + y * fcos E pa).
Definition rot_img (x y : img) (pa : float) : img * img :=
  (img_map2 (fun a b => (rot_cell pa a b).1) x y,
   img_map2 (fun a b => (rot_cell pa a b).2) x y).
Definition rot_cube (x y : cube) (pa : float) : cube * cube :=
  (cube_map2 (fun a b => (rot_cell pa a b).1) x y,
   cube_map2 (fun a b => (rot_cell pa a b).2) x y).

Definition mean (l : vec) : float := Flt.sum l / Flt.of_nat (length l).

(** [np.mean(d, axis=0)] for a cube of [ny] by [nx] images. *)
Definition mean_axis0 (ny nx : nat) (d : cube) : img :=
  match d with
  | [] => replicate ny (replicate nx nan)
  | _ => img_map (fun s => s / Flt.of_nat (length d)) (sum_axis0 d)
  end.

(** [data[mask]] with a boolean mask along axis 0. *)
Definition bool_index {A} (a : list A) (m : list bool) : result (list A) :=
  if decide (length a = length m) then Ok (select a m)
  else Raise (IndexError "boolean index did not match indexed array").

(** [makemom01] called with the [sigma] argument of [makegrid], which is
    [None] by default: line 62 comes before the first use of [sigma]. *)
Definition makemom01_opt (d : cube) (v : vec) (sigma : option float)
  : result Moments.moments :=
  _ ← Moments.np_min (diffs v);
  match sigma with
  | None => Raise (TypeError "unsupported operand type(s) for *: NoneType and float")
  | Some s => Moments.makemom01 d v s
  end.

(** Lines 208, 210 and 212: the blue and red velocity windows and the
    fit-worthy channels [v_valid0]. *)
Definition mask_blue (vlim : float * float * float * float) (v : vec) : list bool :=
  let '(vlim0, vlim1, _, _) := vlim in
  map (fun a => (vlim0 <=? a) && (a <=? vlim1)) v.
Definition mask_red (vlim : float * float * float * float) (v : vec) : list bool :=
  let '(_, _, vlim2, vlim3) := vlim in
  map (fun a => (vlim2 <=? a) && (a <=? vlim3)) v.
Definition fit_channels (vlim : float * float * float * float) (v : vec) : vec :=
  select v (mask_blue vlim v) ++ select v (mask_red vlim v).

(** The local variables of [makegrid] that are read after line 193. *)
Record locals := {
  l_v : option vec;
  l_xminor : option img;
  l_xmajor : option img;
  l_pa_rad : float
}.

(** Lines 193-225. *)
Definition makegrid_head (cubefits : option string) (pa incl dist : float)
    (center : option string) (vsys rmax : float)
    (vlim : float * float * float * float) (sigma : option float)
    (xskip yskip : Z) : M locals :=
  let '(vlim0, vlim1, vlim2, vlim3) := vlim in
  l_v ← match cubefits with
        | Some f =>
            _ ← read_cubefits f center dist vsys (- rmax) rmax (- rmax) rmax
                  xskip yskip sigma;
            v ← get_vec "v"; mret (Some v)
        | None => mret None
        end;
  _ ← setattr "incl0" (VFloat incl);
  _ ← update_incl incl;
  let pa_rad := fradians E pa in
  _ ← setattr "pa_rad" (VFloat pa_rad);
  _ ← setattr "cospa" (VFloat (fcos E pa_rad));
  _ ← setattr "sinpa" (VFloat (fsin E pa_rad));
  (* line 204 is a comment: xminor and xmajor are not assigned *)
  let l_xminor : option img := None in
  let l_xmajor : option img := None in
  x ← get_vec "x";
  y ← get_vec "y";
  _ ← setattr "X" (VImg (meshgrid x y).1);
  _ ← setattr "Y" (VImg (meshgrid x y).2);
  v ← local "v" l_v;
  let m_blue := mask_blue (vlim0, vlim1, vlim2, vlim3) v in
  let m_red := mask_red (vlim0, vlim1, vlim2, vlim3) v in
  let v_blue := select v m_blue in
  let v_red := select v m_red in
  _ ← setattr "v_nanblue" (VVec (select v (map (fun a => a <? vlim0) v)));
  _ ← setattr "v_blue" (VVec v_blue);
  _ ← setattr "v_nanmid"
        (VVec (select v (map (fun a => (vlim1 <? a) && (a <? vlim2)) v)));
  _ ← setattr "v_red" (VVec v_red);
  _ ← setattr "v_nanred" (VVec (select v (map (fun a => vlim3 <? a) v)));
  let v_valid0 := fit_channels (vlim0, vlim1, vlim2, vlim3) v in
  _ ← setattr "v_valid0" (VVec v_valid0);
  _ ← setattr "v_valid1" (VVec [mean v_blue; mean v_red]);
  data ← get_cube "data";
  data_blue ← lift (bool_index data m_blue);
  _ ← setattr "data_blue" (VCube data_blue);
  data ← get_cube "data";
  data_red ← lift (bool_index data m_red);
  _ ← setattr "data_red" (VCube data_red);
  let data_valid0 := data_blue ++ data_red in
  _ ← setattr "data_valid0" (VCube data_valid0);
  _ ← setattr "data_valid1"
        (VCube [mean_axis0 (length y) (length x) data_blue;
                mean_axis0 (length y) (length x) data_red]);
  m ← lift (makemom01_opt data_valid0 v_valid0 sigma);
  _ ← setattr "mom0" (VImg (Moments.mom0 m));
  _ ← setattr "mom1" (VImg (Moments.mom1 m));
  _ ← setattr "mom2" (VImg (Moments.mom2 m));
  _ ← setattr "sigma_mom0" (VFloat (Moments.sigma_mom0 m));
  mret {| l_v := l_v; l_xminor := l_xminor; l_xmajor := l_xmajor;
          l_pa_rad := pa_rad |}.

(** The beam kernel, lines 269-277. *)
Definition gaussbeam_of (ngauss : Z) (dpix bmaj bmin bpa : float) : float * img :=
  let xb := map (fun k => FloatNum.of_Z (k - ngauss) * dpix) (seqZ 0 (2 * ngauss + 1)) in
  let yb := xb in
  let bpa_on_disk := fradians E bpa in
  let '(xb, yb) := rot_img (meshgrid xb yb).1 (meshgrid xb yb).2 bpa_on_disk in
  let gaussbeam :=
    img_map2 (fun y x => fexp E (- ((y / bmaj) * (y / bmaj) + (x / bmin) * (x / bmin))))
      yb xb in
  let pixperbeam := Flt.sum (pixels gaussbeam) in
  (pixperbeam, img_map (fun g => g / pixperbeam) gaussbeam).

(** Lines 226-283. *)
Definition makegrid_tail (rmax : float) (nlayer : Z) (l : locals) : M unit :=
  xminor ← local "xminor" (l_xminor l);
  xmajor ← local "xmajor" (l_xmajor l);
  let '(xminor, xmajor) := rot_img xminor xmajor (l_pa_rad l) in
  mom1 ← get_img "mom1";
  _ ← setattr "signmajor"
        (VFloat (Flt.sign (Flt.nansum (pixels (img_map2 PrimFloat.mul mom1 xmajor)))));
  mom1 ← get_img "mom1";
  _ ← setattr "signminor"
        (VFloat (Flt.sign (Flt.nansum (pixels (img_map2 PrimFloat.mul mom1 xminor)))
                 * (-1)));
  dx ← get_float "dx";
  dy ← get_float "dy";
  bmaj ← get_float "bmaj";
  bmin ← get_float "bmin";
  bpa ← get_float "bpa";
  g ← lift (Grid.build_nested (T:=float) dx dy bmaj rmax nlayer);
  _ ← setattr "nq1" (VInt (Grid.nq1 g));
  _ ← setattr "nq3" (VInt (Grid.nq3 g));
  _ ← setattr "nlayer" (VInt nlayer);
  let grids := map (fun s => meshgrid s s) (Grid.xnest g) in
  _ ← setattr "xnest" (VImg (Grid.xnest g));
  _ ← setattr "ynest" (VImg (Grid.xnest g));
  let XY := rot_cube (map fst grids) (map snd grids) (l_pa_rad l) in
  _ ← setattr "Xnest" (VCube XY.1);
  _ ← setattr "Ynest" (VCube XY.2);
  let beam := gaussbeam_of (Grid.ngauss g) (Grid.dpix g) bmaj bmin bpa in
  _ ← setattr "pixperbeam" (VFloat beam.1);
  _ ← setattr "gaussbeam" (VImg beam.2);
  _ ← setattr "ineed0" (VInt (Grid.ineed0 g));
  _ ← setattr "ineed1" (VInt (Grid.ineed1 g));
  _ ← setattr "xneed" (VVec (Grid.xneed g));
  setattr "yneed" (VVec (Grid.xneed g)).

Definition makegrid (cubefits : option string) (pa incl dist : float)
    (center : option string) (vsys rmax : float)
    (vlim : float * float * float * float) (sigma : option float)
    (nlayer xskip yskip : Z) : M unit :=
  l ← makegrid_head cubefits pa incl dist center vsys rmax vlim sigma xskip yskip;
  makegrid_tail rmax nlayer l.

(** ** Frame: what [makegrid] assigns *)

Lemma writes_read_cubefits f center dist vsys xmin xmax ymin ymax xskip yskip sigma :
  writes head_attrs (read_cubefits f center dist vsys xmin xmax ymin ymax xskip yskip sigma).
Proof. unfold read_cubefits. repeat writes_step. Qed.

Lemma writes_update_incl incl : writes head_attrs (update_incl incl).
Proof. unfold update_incl. repeat writes_step. Qed.

Lemma writes_makegrid_head cubefits pa incl dist center vsys rmax vlim sigma xskip yskip :
  writes head_attrs
    (makegrid_head cubefits pa incl dist center vsys rmax vlim sigma xskip yskip).
Proof.
  unfold makegrid_head. destruct vlim as [[[vlim0 vlim1] vlim2] vlim3].
  apply writes_bind.
  { destruct cubefits; [|auto with writes].
    apply writes_bind; [apply writes_read_cubefits|intros ?]. repeat writes_step. }
  intros ?. apply writes_bind; [writes_step|intros ?].
  apply writes_bind; [apply writes_update_incl|intros ?].
  repeat writes_step.
Qed.

(** The object after [read_cubefits] has loaded the observation [o]. *)
Definition loaded (o : observation) (f : string) (dist vsys : float) (s : obj) : obj :=
  <["vsys" := VFloat vsys]> (<["dist" := VFloat dist]> (<["cubefits" := VStr f]>
  (<["bpa" := VFloat (o_bpa o)]> (<["bmin" := VFloat (o_bmin o)]>
  (<["bmaj" := VFloat (o_bmaj o)]> (<["sigma" := VFloat (o_sigma o)]>
  (<["data" := VCube (o_data o)]> (<["nv" := VInt (Z.of_nat (length (o_v o)))]>
  (<["dv" := VFloat (o_dv o)]> (<["v" := VVec (o_v o)]>
  (<["ny" := VInt (Z.of_nat (length (o_y o)))]> (<["dy" := VFloat (o_dy o)]>
  (<["y" := VVec (o_y o)]> (<["nx" := VInt (Z.of_nat (length (o_x o)))]>
  (<["dx" := VFloat (o_dx o)]> (<["x" := VVec (o_x o)]> s)))))))))))))))).

Lemma read_cubefits_run f center dist vsys xmin xmax ymin ymax xskip yskip sigma o s :
  load f center dist vsys xmin xmax ymin ymax xskip yskip sigma = Ok o ->
  read_cubefits f center dist vsys xmin xmax ymin ymax xskip yskip sigma s
    = (loaded o f dist vsys s, Ok tt).
Proof.
  intros H. unfold read_cubefits, lift, mbind, M_bind. rewrite H. reflexivity.
Qed.

Lemma lift_run {A} (r : result A) a s : r = Ok a -> lift r s = (s, Ok a).
Proof. intros ->. reflexivity. Qed.

Lemma length_select {A B} (a : list A) (b : list B) m :
  length a = length m -> length b = length m ->
  length (select a m) = length (select b m).
Proof.
  revert a b. induction m as [|x m IH]; intros [|a0 a] [|b0 b]; simpl; try lia.
  intros [= Ha] [= Hb]. destruct x; simpl; auto.
Qed.

Lemma length_removelast' {A} (l : list A) : length (removelast l) = pred (length l).
Proof.
  induction l as [|a [|b l] IH]; [reflexivity..|].
  change (removelast (a :: b :: l)) with (a :: removelast (b :: l)).
  simpl length in *. rewrite IH. reflexivity.
Qed.

Lemma length_diffs v : length (diffs v) = pred (length v).
Proof.
  unfold diffs. rewrite length_zip_with, length_removelast'.
  destruct v; simpl; lia.
Qed.

Lemma np_min_ok l : (1 <= length l)%nat -> exists m, Moments.np_min l = Ok m.
Proof. destruct l; simpl; [lia|]. intros _. unfold Moments.np_min. simpl. eauto. Qed.

Lemma makemom01_ok d v sg :
  length d = length v -> (2 <= length v)%nat ->
  exists m, Moments.makemom01 d v sg = Ok m.
Proof.
  intros Hl H2. unfold Moments.makemom01, Moments.weighted_sum, broadcast_channels.
  destruct (np_min_ok (diffs v)) as [dv ->]; [rewrite length_diffs; lia|].
  rewrite decide_True by exact Hl. simpl. eauto.
Qed.

Lemma makemom01_opt_ok d v sg :
  length d = length v -> (2 <= length v)%nat ->
  exists m, makemom01_opt d v (Some sg) = Ok m.
Proof.
  intros Hl H2. unfold makemom01_opt.
  destruct (np_min_ok (diffs v)) as [dv ->]; [rewrite length_diffs; lia|].
  simpl. apply makemom01_ok; assumption.
Qed.

Ltac run_get :=
  first [apply get_vec_run | apply get_float_run | apply get_cube_run | apply get_img_run];
  unfold loaded;
  repeat first [rewrite lookup_insert_eq | rewrite lookup_insert_ne by discriminate];
  reflexivity.

Lemma makegrid_head_runs f pa incl dist center vsys rmax vlim sg xskip yskip s o :
  load f center dist vsys (- rmax) rmax (- rmax) rmax xskip yskip (Some sg) = Ok o ->
  length (o_data o) = length (o_v o) ->
  (2 <= length (fit_channels vlim (o_v o)))%nat ->
  exists s' l,
    makegrid_head (Some f) pa incl dist center vsys rmax vlim (Some sg)
      xskip yskip s = (s', Ok l).
Proof.
  intros Hload Hlen H2. unfold makegrid_head.
  destruct vlim as [[[vlim0 vlim1] vlim2] vlim3].
  erewrite bind_ok.
  2:{ erewrite bind_ok by (apply read_cubefits_run; exact Hload).
      erewrite bind_ok by run_get. reflexivity. }
  erewrite bind_ok by reflexivity.
  erewrite bind_ok.
  2:{ unfold update_incl. erewrite bind_ok by run_get.
      do 2 (erewrite bind_ok by reflexivity). reflexivity. }
  do 3 (erewrite bind_ok by reflexivity). cbv zeta.
  do 2 (erewrite bind_ok by run_get).
  do 2 (erewrite bind_ok by reflexivity).
  erewrite bind_ok by reflexivity. cbv zeta.
  do 7 (erewrite bind_ok by reflexivity).
  erewrite bind_ok by run_get.
  erewrite bind_ok.
  2:{ apply lift_run. unfold bool_index. rewrite decide_True; [reflexivity|].
      unfold mask_blue. rewrite length_map. exact Hlen. }
  erewrite bind_ok by reflexivity.
  erewrite bind_ok by run_get.
  erewrite bind_ok.
  2:{ apply lift_run. unfold bool_index. rewrite decide_True; [reflexivity|].
      unfold mask_red. rewrite length_map. exact Hlen. }
  do 3 (erewrite bind_ok by reflexivity).
  edestruct (makemom01_opt_ok
               (select (o_data o) (mask_blue (vlim0, vlim1, vlim2, vlim3) (o_v o))
                ++ select (o_data o) (mask_red (vlim0, vlim1, vlim2, vlim3) (o_v o)))
               (fit_channels (vlim0, vlim1, vlim2, vlim3) (o_v o)) sg) as [m Hm].
  { unfold fit_channels. rewrite !length_app. f_equal.
    - apply length_select; [rewrite Hlen|]; unfold mask_blue; rewrite length_map; reflexivity.
    - apply length_select; [rewrite Hlen|]; unfold mask_red; rewrite length_map; reflexivity. }
  { exact H2. }
  erewrite bind_ok by (apply lift_run; exact Hm).
  do 4 (erewrite bind_ok by reflexivity).
  eexists _, _. reflexivity.
Qed.

Lemma makegrid_tail_raises rmax nlayer l s :
  l_xminor l = None ->
  makegrid_tail rmax nlayer l s = (s, Raise (UnboundLocalError "xminor")).
Proof. intros H. unfold makegrid_tail. rewrite H. reflexivity. Qed.

Lemma makegrid_head_locals cubefits pa incl dist center vsys rmax vlim sigma
    xskip yskip s s' l :
  makegrid_head cubefits pa incl dist center vsys rmax vlim sigma xskip yskip s
    = (s', Ok l) ->
  l_xminor l = None /\ l_xmajor l = None.
Proof.
  unfold makegrid_head. destruct vlim as [[[vlim0 vlim1] vlim2] vlim3].
  intros H.
  repeat (apply bind_inv in H as (? & ? & _ & H); cbv beta zeta in H).
  injection H as _ <-. split; reflexivity.
Qed.

Lemma tail_attrs_fresh n : n ∈ tail_attrs -> n ∉ head_attrs.
Proof.
  revert n. apply Forall_forall.
  repeat constructor; apply (bool_decide_unpack _); vm_compute; exact I.
Qed.

(** No call of [makegrid] returns: every call raises, and the attributes of
    the polarity signs, the nested grid and the beam are left as they were. *)
Lemma makegrid_never_completes cubefits pa incl dist center vsys rmax vlim sigma
    nlayer xskip yskip s :
  exists s' e,
    makegrid cubefits pa incl dist center vsys rmax vlim sigma nlayer xskip yskip s
      = (s', Raise e) /\
    forall n, n ∈ tail_attrs -> s' !! n = s !! n.
Proof.
  pose proof (writes_makegrid_head cubefits pa incl dist center vsys rmax vlim
                sigma xskip yskip s) as Hw.
  unfold makegrid, mbind, M_bind.
  destruct (makegrid_head _ _ _ _ _ _ _ _ _ _ _ s) as [s1 [l|e]] eqn:Hh.
  - destruct (makegrid_head_locals _ _ _ _ _ _ _ _ _ _ _ _ _ _ Hh) as [Hx _].
    rewrite (makegrid_tail_raises _ _ _ _ Hx).
    eexists _, _. split; [reflexivity|].
    intros n Hn. apply Hw, tail_attrs_fresh, Hn.
  - eexists _, _. split; [reflexivity|].
    intros n Hn. apply Hw, tail_attrs_fresh, Hn.
Qed.

(** C1, as amended.  For every input on which the statements before the
    rotation run (a cube that loads, with as many channels as velocities; a
    noise level [sigma] passed to [makegrid]; at least two channels inside
    the velocity windows), whatever the position angle, inclination and
    layer count, [makegrid] reaches the rotation of line 226 and raises the
    undefined-name error for [xminor], which was never assigned; no
    attribute of the polarity signs, the nested grid or the beam kernel has
    been assigned by then.  And no call at all completes, with or without
    a noise level: every call raises some error and leaves those attributes
    as they were. *)
Theorem makegrid_raises_at_rotation f pa incl dist center vsys rmax vlim sg
    nlayer xskip yskip s o :
  load f center dist vsys (- rmax) rmax (- rmax) rmax xskip yskip (Some sg) = Ok o ->
  length (o_data o) = length (o_v o) ->
  (2 <= length (fit_channels vlim (o_v o)))%nat ->
  (exists s',
     makegrid (Some f) pa incl dist center vsys rmax vlim (Some sg)
       nlayer xskip yskip s = (s', Raise (UnboundLocalError "xminor")) /\
     forall n, n ∈ tail_attrs -> s' !! n = s !! n) /\
  (forall cubefits' pa' incl' dist' center' vsys' rmax' vlim' sigma' nlayer'
          xskip' yskip' s0,
     exists s' e,
       makegrid cubefits' pa' incl' dist' center' vsys' rmax' vlim' sigma'
         nlayer' xskip' yskip' s0 = (s', Raise e) /\
       forall n, n ∈ tail_attrs -> s' !! n = s0 !! n).
Proof.
  intros Hload Hlen H2. split.
  - destruct (makegrid_head_runs f pa incl dist center vsys rmax vlim sg
                xskip yskip s o Hload Hlen H2) as (s1 & l & Hh).
    destruct (makegrid_head_locals _ _ _ _ _ _ _ _ _ _ _ _ _ _ Hh) as [Hx _].
    exists s1. split.
    + unfold makegrid. rewrite (bind_ok _ _ _ _ _ Hh).
      apply makegrid_tail_raises, Hx.
    + intros n Hn.
      pose proof (writes_makegrid_head (Some f) pa incl dist center vsys rmax
                    vlim (Some sg) xskip yskip s n (tail_attrs_fresh n Hn)) as Hw.
      rewrite Hh in Hw. exact Hw.
  - intros. apply makegrid_never_completes.
Qed.

End WithExt.

(** A small observation: a 2 by 2 image in four channels, two of them in
    the blue window and two in the red window of [(-2.7, -1, 1, 2.7)]. *)
Definition demo_obs : observation := {|
  o_x := [0; 1]; o_y := [0; 1]; o_v := [-2; -1.5; 1.5; 2];
  o_dx := 1; o_dy := 1; o_dv := 0.5;
  o_data := replicate 4 [[1; 1]; [1; 1]];
  o_sigma := 1; o_bmaj := 1; o_bmin := 1; o_bpa := 0
|}.
Definition demo_load : loader := fun _ _ _ _ _ _ _ _ _ _ _ => Ok demo_obs.

Lemma makegrid_raises_at_rotation_witness :
  exists s',
    makegrid ext_ref demo_load (Some "cube.fits") 0 0 1 None 0 1
      (-2.7, -1, 1, 2.7) (Some 1) 4 1 1 ∅
      = (s', Raise (UnboundLocalError "xminor")) /\
    s' !! "Xnest" = None /\ s' !! "gaussbeam" = None /\ s' !! "signmajor" = None.
Proof.
  assert (2 <= length (fit_channels (-2.7, -1, 1, 2.7)%float (o_v demo_obs)))%nat as H2
    by (vm_compute; lia).
  destruct (makegrid_raises_at_rotation ext_ref demo_load "cube.fits" 0 0 1 None
              0 1 (-2.7, -1, 1, 2.7) 1 4 1 1 ∅ demo_obs eq_refl eq_refl H2)
    as [(s' & Hrun & Hframe) _].
  exists s'. split; [exact Hrun|].
  rewrite !Hframe by (repeat first [apply list_elem_of_here | apply list_elem_of_further]).
  repeat split; apply lookup_empty.
Defined.

(** C1 as stated fails for the default [sigma = None].  The same cube, the
    same angles and windows, but no noise level passed to [makegrid]: the
    call stops in [makemom01], which multiplies [None] by a number, with a
    [TypeError]; the rotation of line 226 is not reached and no
    undefined-name error is raised. *)
Lemma makegrid_default_sigma_counterexample :
  (makegrid ext_ref demo_load (Some "cube.fits") 0 0 1 None 0 1
     (-2.7, -1, 1, 2.7) None 4 1 1 ∅).2
  = Raise (TypeError "unsupported operand type(s) for *: NoneType and float").
Proof. vm_compute. reflexivity. Qed.

End Makegrid.

(** * LineProfileRasterizer: [ChannelFit.get_Iout], lines 361-377 *)

(** [get_Iout] reads the cached arrays [self.vlos] and [self.xdisk] and
    builds the model cube from them.  Whether a numpy operation makes a new
    array or changes one in place decides whether the caches survive a
    call, so here the arrays live in a store and the object holds their
    locations: an arithmetic expression allocates its result, a slice
    assignment and an augmented assignment change the array at a location. *)

Module Raster.
Import Nd.
Local Open Scope float_scope.

Abbreviation loc := positive.

Inductive ndarray : Type :=
| A1 (a : vec)
| A3 (a : cube)
| A4 (a : list cube).

Abbreviation store := (gmap loc ndarray).

Definition S (A : Type) : Type := store -> store * result A.

#[global] Instance S_ret : MRet S := fun _ a h => (h, Ok a).
#[global] Instance S_bind : MBind S := fun _ _ k m h =>
  match m h with
  | (h', Ok a) => k a h'
  | (h', Raise e) => (h', Raise e)
  end.

Definition sraise {A} (e : pyerr) : S A := fun h => (h, Raise e).
Definition slift {A} (r : result A) : S A := fun h => (h, r).

(** A new array: a location that the store does not hold yet. *)
Definition alloc (a : ndarray) : S loc := fun h =>
  let l := fresh (dom h) in (<[l := a]> h, Ok l).

Definition load (l : loc) : S ndarray := fun h =>
  (h, match h !! l with
      | Some a => Ok a
      | None => Raise (ValueError "no array at this location")
      end).

(** An update in place of the array at [l]. *)
Definition store_at (l : loc) (a : ndarray) : S unit := fun h =>
  (<[l := a]> h, Ok tt).

Definition load1 (l : loc) : S vec :=
  a ← load l; match a with A1 v => mret v | _ => sraise (TypeError "ndim") end.
Definition load3 (l : loc) : S cube :=
  a ← load l; match a with A3 v => mret v | _ => sraise (TypeError "ndim") end.
Definition load4 (l : loc) : S (list cube) :=
  a ← load l; match a with A4 v => mret v | _ => sraise (TypeError "ndim") end.

(** The attributes that [get_Iout] reads. *)
Record rself := {
  vlos : list (option loc);
  xdisk : list (option loc);
  v_valid : loc;
  prof : loc;
  Ynest : loc;
  dv : float;
  prof_d : float;
  prof_n : Z;
  nlayer : Z;
  nq1 : Z;
  nq3 : Z;
  ineed0 : Z;
  ineed1 : Z
}.

(** [a[i]] for a Python int [i]. *)
Definition py_index {A} (a : list A) (i : Z) : result A :=
  let len := Z.of_nat (length a) in
  let j := if (i <? 0)%Z then (i + len)%Z else i in
  if ((0 <=? j) && (j <? len))%Z then
    match a !! Z.to_nat j with
    | Some x => Ok x
    | None => Raise (IndexError "index out of bounds")
    end
  else Raise (IndexError "index out of bounds").

(** [x.astype('int')]: truncation; NaN, the infinities and values outside
    the int64 range give the smallest int64. *)
Definition astype_int (x : float) : Z :=
  match FloatNum.to_int x with
  | Ok z => if ((- 2 ^ 63 <=? z) && (z <? 2 ^ 63))%Z then z else (- 2 ^ 63)%Z
  | Raise _ => (- 2 ^ 63)%Z
  end.

(** Lines 368-369: the index into the tabulated profile. *)
Definition profile_index (dv prof_d : float) (prof_n : Z) (v : float) : Z :=
  let iv := v / dv / prof_d + FloatNum.of_Z (prof_n / 2) + 0.5 in
  Z.min (Z.max (astype_int iv) 0) prof_n.

(** numpy's broadcasting of one axis of two operands. *)
Definition bzip {A B C} (f : A -> B -> result C) (a : list A) (b : list B)
  : result (list C) :=
  if decide (length a = length b) then mapM (fun p => f p.1 p.2) (zip a b)
  else match a, b with
       | [x], _ => mapM (f x) b
       | _, [y] => mapM (fun x => f x y) a
       | _, _ => Raise (ValueError "operands could not be broadcast together")
       end.

Definition img_add (a b : img) : result img :=
  bzip (bzip (fun x y => Ok (x + y))) a b.

(** [a[0::2]] and [a[1::2]] *)
Fixpoint evens {A} (l : list A) : list A :=
  match l with
  | x :: _ :: r => x :: evens r
  | [x] => [x]
  | [] => []
  end.
Definition odds {A} (l : list A) : list A := evens (tail l).

(** Lines 39-42 on one image. *)
Definition avefour (a : img) : result img :=
  let a00 := map evens (evens a) in
  let a01 := map odds (evens a) in
  let a10 := map evens (odds a) in
  let a11 := map odds (odds a) in
  s ← img_add a00 a01;
  s ← img_add s a10;
  s ← img_add s a11;
  Ok (img_map (fun x => x / 4) s).

(** The bounds of the slice [i0:i1] of an axis of length [len]. *)
Definition slice_bounds (len : nat) (i0 i1 : Z) : nat * nat :=
  let n := Z.of_nat len in
  let norm i := Z.min n (Z.max 0 (if (i <? 0)%Z then i + n else i))%Z in
  (Z.to_nat (norm i0), Z.to_nat (Z.max (norm i0) (norm i1))).

Definition slice {A} (a : list A) (i0 i1 : Z) : list A :=
  let '(s, e) := slice_bounds (length a) i0 i1 in take (e - s) (drop s a).

(** [a[i0:i1] = b] along one axis, for [b] of the length of the slice. *)
Definition set_slice {A} (a : list A) (i0 i1 : Z) (b : list A) : result (list A) :=
  let '(s, e) := slice_bounds (length a) i0 i1 in
  if decide (length b = (e - s)%nat) then Ok (take s a ++ b ++ drop e a)
  else Raise (ValueError "could not broadcast input array").

(** [a[i0:i1, j0:j1] = b] on an image. *)
Definition set_block (a : img) (i0 i1 j0 j1 : Z) (b : img) : result img :=
  let '(s, e) := slice_bounds (length a) i0 i1 in
  if decide (length b = (e - s)%nat) then
    rows ← mapM (fun p => set_slice p.1 j0 j1 p.2) (zip (take (e - s) (drop s a)) b);
    Ok (take s a ++ rows ++ drop e a)
  else Raise (ValueError "could not broadcast input array").

Section WithExt.
Variable E : ext.
Variable self : rself.

(** Lines 366-372: the contribution of one velocity solution, added to
    [Iout] ([None] stands for the initial Python int 0).  Every assignment
    binds a newly allocated array. *)
Definition add_branch (Mstar pI offvsys : float) (Iout : option loc)
    (vlos_in : loc) (x_in : option loc) : S loc :=
  a ← load3 vlos_in;
  vlos ← alloc (A3 (cube_map (fun w => w * sqrt Mstar) a));
  vv ← load1 (v_valid self);
  vl ← load3 vlos;
  v ← alloc (A4 (map (fun vk => cube_map (fun w => vk - w - offvsys) vl) vv));
  pr ← load1 (prof self);
  v4 ← load4 v;
  p4 ← slift (mapM (mapM (mapM (mapM (fun x =>
          py_index pr (profile_index (dv self) (prof_d self) (prof_n self) x)))))
        v4);
  p ← alloc (A4 p4);
  p ← (if pI =? 0 then mret p
       else
         match x_in with
         | None => sraise (TypeError "unsupported operand type: NoneType")
         | Some xl =>
             x ← load3 xl;
             Y ← load3 (Ynest self);
             let w := cube_map2 (fun x y => fpow E (hypot E x y) (- pI)) x Y in
             p4 ← load4 p;
             alloc (A4 (map (fun c => cube_map2 PrimFloat.mul c w) p4))
         end);
  pn ← load4 p;
  let q := map (cube_map Flt.nan_to_num) pn in
  match Iout with
  | None => alloc (A4 (map (cube_map (fun x => 0 + x)) q))
  | Some l => io ← load4 l; alloc (A4 (zip_with (cube_map2 PrimFloat.add) io q))
  end.

(** Lines 362-372: the loop over [zip(self.vlos, self.xdisk)]. *)
Fixpoint sum_branches (Mstar pI offvsys : float)
    (slots : list (option loc * option loc)) (Iout : option loc) : S (option loc) :=
  match slots with
  | [] => mret Iout
  | (None, _) :: r => sum_branches Mstar pI offvsys r Iout
  | (Some vlos_in, x_in) :: r =>
      l ← add_branch Mstar pI offvsys Iout vlos_in x_in;
      sum_branches Mstar pI offvsys r (Some l)
  end.

(** Lines 374-375 for one [l]: the centre of layer [l - 1] is overwritten,
    in place, by the 2 x 2 averages of layer [l]. *)
Definition fold_layer (Iout : option loc) (l : Z) : S unit :=
  match Iout with
  | None => sraise (TypeError "int object is not subscriptable")
  | Some io =>
      a ← load4 io;
      a' ← slift (mapM (fun ch : cube =>
              fine ← py_index ch l;
              blk ← avefour fine;
              coarse ← py_index ch (l - 1);
              coarse' ← set_block coarse (nq1 self) (nq3 self) (nq1 self) (nq3 self) blk;
              Ok (<[Z.to_nat (l - 1) := coarse']> ch)) a);
      store_at io (A4 a')
  end.

(** [range(nlayer - 1, 0, -1)] *)
Definition layers_down (nlayer : Z) : list Z :=
  reverse (seqZ 1 (nlayer - 1)).

(** Line 376: the crop of layer 0. *)
Definition crop (Iout : option loc) : S cube :=
  match Iout with
  | None => sraise (TypeError "int object is not subscriptable")
  | Some io =>
      a ← load4 io;
      slift (mapM (fun ch : cube =>
               l0 ← py_index ch 0;
               Ok (map (fun row => slice row (ineed0 self) (ineed1 self))
                       (slice l0 (ineed0 self) (ineed1 self)))) a)
  end.

Definition get_Iout (Mstar pI offvsys : float) : S cube :=
  Iout ← sum_branches Mstar pI offvsys (zip (vlos self) (xdisk self)) None;
  _ ← mapM (fold_layer Iout) (layers_down (nlayer self));
  crop Iout.

(** The update in place that the comment of line 366 warns against:
    [vlos_in *= np.sqrt(Mstar)]. *)
Definition imul_sqrt (Mstar : float) (vlos_in : loc) : S unit :=
  a ← load3 vlos_in;
  store_at vlos_in (A3 (cube_map (fun w => w * sqrt Mstar) a)).

(** ** Frame *)

(** [keeps h0 m]: running [m] from a store that extends [h0] leaves every
    array of [h0] at its location with its content. *)
Definition keeps {A} (h0 : store) (m : S A) : Prop :=
  forall h, h0 ⊆ h -> h0 ⊆ (m h).1.

(** [keeps_new h0 m]: moreover the location that [m] returns is not one of
    [h0]. *)
Definition keeps_new (h0 : store) (m : S loc) : Prop :=
  forall h, h0 ⊆ h ->
    h0 ⊆ (m h).1 /\ forall l, (m h).2 = Ok l -> h0 !! l = None.

Lemma keeps_ret {A} (h0 : store) (a : A) : keeps h0 (mret a).
Proof. intros h Hh. exact Hh. Qed.

Lemma keeps_sraise {A} (h0 : store) e : keeps h0 (sraise (A:=A) e).
Proof. intros h Hh. exact Hh. Qed.

Lemma keeps_slift {A} (h0 : store) (r : result A) : keeps h0 (slift r).
Proof. intros h Hh. exact Hh. Qed.

Lemma keeps_load (h0 : store) l : keeps h0 (load l).
Proof. intros h Hh. exact Hh. Qed.

Lemma keeps_bind {A B} (h0 : store) (m : S A) (k : A -> S B) :
  keeps h0 m -> (forall a, keeps h0 (k a)) -> keeps h0 (m ≫= k).
Proof.
  intros Hm Hk h Hh. unfold mbind, S_bind.
  specialize (Hm h Hh). destruct (m h) as [h1 [a|e]]; simpl in *.
  - apply Hk, Hm.
  - exact Hm.
Qed.

Lemma keeps_load1 (h0 : store) l : keeps h0 (load1 l).
Proof.
  apply keeps_bind; [apply keeps_load|].
  intros []; first [apply keeps_ret | apply keeps_sraise].
Qed.
Lemma keeps_load3 (h0 : store) l : keeps h0 (load3 l).
Proof.
  apply keeps_bind; [apply keeps_load|].
  intros []; first [apply keeps_ret | apply keeps_sraise].
Qed.
Lemma keeps_load4 (h0 : store) l : keeps h0 (load4 l).
Proof.
  apply keeps_bind; [apply keeps_load|].
  intros []; first [apply keeps_ret | apply keeps_sraise].
Qed.

Lemma alloc_new (h0 h : store) : h0 ⊆ h -> h0 !! fresh (dom h) = None.
Proof.
  intros Hh. destruct (h0 !! fresh (dom h)) as [x|] eqn:Hx; [|reflexivity].
  exfalso. apply (is_fresh (dom h)).
  apply elem_of_dom. exists x. eapply lookup_weaken; eassumption.
Qed.

Lemma keeps_new_alloc (h0 : store) a : keeps_new h0 (alloc a).
Proof.
  intros h Hh. unfold alloc. simpl. split.
  - apply insert_subseteq_r; [|exact Hh]. apply (alloc_new h0 h Hh).
  - intros l [= <-]. apply (alloc_new h0 h Hh).
Qed.

Lemma keeps_alloc (h0 : store) a : keeps h0 (alloc a).
Proof. intros h Hh. apply (keeps_new_alloc h0 a h Hh). Qed.

Lemma keeps_store_at (h0 : store) l a : h0 !! l = None -> keeps h0 (store_at l a).
Proof. intros Hl h Hh. unfold store_at. simpl. apply insert_subseteq_r; assumption. Qed.

Lemma keeps_new_bind {A} (h0 : store) (m : S A) (k : A -> S loc) :
  keeps h0 m -> (forall a, keeps_new h0 (k a)) -> keeps_new h0 (m ≫= k).
Proof.
  intros Hm Hk h Hh. unfold mbind, S_bind.
  specialize (Hm h Hh). destruct (m h) as [h1 [a|e]]; simpl in *.
  - apply Hk, Hm.
  - split; [exact Hm|discriminate].
Qed.

Lemma keeps_mapM {A B} (h0 : store) (f : A -> S B) (l : list A) :
  (forall x, keeps h0 (f x)) -> keeps h0 (mapM f l).
Proof.
  intros Hf. induction l as [|x l IH]; simpl; [apply keeps_ret|].
  apply keeps_bind; [apply Hf|]. intros y.
  apply keeps_bind; [apply IH|]. intros ys. apply keeps_ret.
Qed.

Create HintDb keeps.
#[local] Hint Resolve keeps_ret keeps_sraise keeps_slift keeps_load keeps_load1
  keeps_load3 keeps_load4 keeps_alloc keeps_new_alloc : keeps.

Lemma keeps_new_add_branch (h0 : store) Mstar pI offvsys Iout vlos_in x_in :
  keeps_new h0 (add_branch Mstar pI offvsys Iout vlos_in x_in).
Proof.
  unfold add_branch.
  do 9 (apply keeps_new_bind; [auto with keeps|intros ?]).
  apply keeps_new_bind.
  { destruct (pI =? 0); [auto with keeps|].
    destruct x_in; [|auto with keeps].
    do 3 (apply keeps_bind; [auto with keeps|intros ?]). auto with keeps. }
  intros ?. apply keeps_new_bind; [auto with keeps|intros ?].
  destruct Iout; [|auto with keeps].
  apply keeps_new_bind; auto with keeps.
Qed.

Lemma keeps_sum_branches (h0 : store) Mstar pI offvsys slots Iout (h : store) :
  (forall l, Iout = Some l -> h0 !! l = None) -> h0 ⊆ h ->
  h0 ⊆ (sum_branches Mstar pI offvsys slots Iout h).1 /\
  forall l, (sum_branches Mstar pI offvsys slots Iout h).2 = Ok (Some l) ->
            h0 !! l = None.
Proof.
  revert Iout h. induction slots as [|[[vl|] x] slots IH]; intros Iout h HI Hh; simpl.
  - split; [exact Hh|]. intros l [= ->]. apply HI. reflexivity.
  - unfold mbind, S_bind.
    destruct (keeps_new_add_branch h0 Mstar pI offvsys Iout vl x h Hh) as [H1 H2].
    destruct (add_branch _ _ _ _ _ _ h) as [h1 [l1|e]]; simpl in *.
    + apply IH; [|exact H1]. intros l [= <-]. apply H2. reflexivity.
    + split; [exact H1|discriminate].
  - apply IH; assumption.
Qed.

Lemma keeps_fold_layer (h0 : store) Iout l :
  (forall io, Iout = Some io -> h0 !! io = None) -> keeps h0 (fold_layer Iout l).
Proof.
  intros HI. unfold fold_layer. destruct Iout as [io|]; [|auto with keeps].
  apply keeps_bind; [auto with keeps|intros ?].
  apply keeps_bind; [auto with keeps|intros ?].
  apply keeps_store_at, HI. reflexivity.
Qed.

Lemma keeps_crop (h0 : store) Iout : keeps h0 (crop Iout).
Proof.
  unfold crop. destruct Iout; [|auto with keeps].
  apply keeps_bind; auto with keeps.
Qed.

(** C10.  A call of [get_Iout], whatever its arguments and whether it
    returns or raises, leaves every array that was in the store before the
    call at its location with its content; in particular the arrays of
    [self.vlos] and [self.xdisk].  The scaling by sqrt(Mstar) and every
    later step write only to arrays allocated during the call. *)
Theorem get_Iout_keeps_cache Mstar pI offvsys (h : store) :
  h ⊆ (get_Iout Mstar pI offvsys h).1 /\
  Forall (fun o => match o with
                   | Some l => is_Some (h !! l) ->
                               (get_Iout Mstar pI offvsys h).1 !! l = h !! l
                   | None => True
                   end) (vlos self ++ xdisk self).
Proof.
  assert (h ⊆ (get_Iout Mstar pI offvsys h).1) as Hsub.
  { unfold get_Iout, mbind, S_bind.
    destruct (keeps_sum_branches h Mstar pI offvsys (zip (vlos self) (xdisk self))
                None h) as [H1 H2]; [discriminate|reflexivity|].
    destruct (sum_branches _ _ _ _ _ h) as [h1 [Iout|e]]; simpl in *; [|exact H1].
    assert (forall io, Iout = Some io -> h !! io = None) as HI.
    { intros io ->. apply H2. reflexivity. }
    pose proof (keeps_mapM h (fold_layer Iout) (layers_down (nlayer self))
                  (fun l => keeps_fold_layer h Iout l HI) h1 H1) as H3.
    destruct (mapM (M:=S) (fold_layer Iout) (layers_down (nlayer self)) h1)
      as [h2 [u|e]]; simpl in *; [|exact H3].
    apply keeps_crop, H3. }
  split; [exact Hsub|].
  apply Forall_forall. intros [l|] _; [|exact I].
  intros [a Ha]. rewrite Ha. eapply lookup_weaken; eassumption.
Qed.

(** The in-place scaling, by contrast, changes the cached array. *)
Lemma imul_sqrt_changes_cache :
  let h : store := {[ 1%positive := A3 [[[1]]] ]} in
  (imul_sqrt 4 1%positive h).1 !! 1%positive = Some (A3 [[[2]]]).
Proof. vm_compute. reflexivity. Qed.

End WithExt.
End Raster.

(** * ParameterEstimator: [cubemodel] and [fitting] *)

Module Fit.
Import Nd Py.
Local Open Scope float_scope.

(** The eleven model parameters, in the order of [self.paramkeys]. *)
Record params (A : Type) := Params {
  Mstar : A; Rc : A; cs : A; h1 : A; h2 : A; pI : A; Rin : A;
  offmajor : A; offminor : A; offvsys : A; incl : A
}.
Arguments Params {A}.
Arguments Mstar {A}. Arguments Rc {A}. Arguments cs {A}. Arguments h1 {A}.
Arguments h2 {A}. Arguments pI {A}. Arguments Rin {A}. Arguments offmajor {A}.
Arguments offminor {A}. Arguments offvsys {A}. Arguments incl {A}.

Definition paramkeys : list string :=
  ["Mstar"; "Rc"; "cs"; "h1"; "h2"; "pI"; "Rin";
   "offmajor"; "offminor"; "offvsys"; "incl"].

Definition to_list {A} (p : params A) : list A :=
  [Mstar p; Rc p; cs p; h1 p; h2 p; pI p; Rin p;
   offmajor p; offminor p; offvsys p; incl p].

Definition pmap {A B} (f : A -> B) (p : params A) : params B :=
  Params (f (Mstar p)) (f (Rc p)) (f (cs p)) (f (h1 p)) (f (h2 p)) (f (pI p))
         (f (Rin p)) (f (offmajor p)) (f (offminor p)) (f (offvsys p))
         (f (incl p)).

(** Keyword arguments of the sampler. *)
Inductive kwval : Type :=
| KNone
| KInt (z : Z)
| KBool (b : bool)
| KFloat (f : float)
| KStr (s : string)
| KStrs (l : list string).

(** What [fitting] does to the outside: the progress bar, the run of the
    ensemble sampler, the printed parameter rows and the text file. *)
Inductive event : Type :=
| EvBar (total : Z)
| EvSample (plim : img)
| EvPrint (name : string) (p : vec)
| EvSavetxt (file : string) (rows : list vec).

(** scipy's convolution and interpolator, the ensemble sampler of the
    repository's [utils] module (its source is not part of this
    development) and [np.savetxt], whose success depends on the file
    system.  The sampler receives the prior limits, the log-probability
    closure, which runs the forward model on the object, and its keyword
    arguments, and returns the rows [popt, plow, pmid, phigh]. *)
Record sci := {
  convolve_same : cube -> img -> cube;
  rgi_linear : vec -> vec -> img -> img -> img -> result img;
  emcee_corner : img -> (vec -> M float) -> gmap string kwval -> M img;
  savetxt : string -> list vec -> result unit
}.

(** [ChannelFit(envelope, combine, scaling)] *)
Definition init (envelope combine : bool) (scaling : string) : obj :=
  <["scaling" := VStr scaling]>
    (<["combine" := VBool combine]> (<["envelope" := VBool envelope]> ∅)).

Section WithExt.
Variable E : ext.
Variable X : sci.

(** ** The cache updates *)

(** Lines 321-336. *)
Definition update_prof (cs : float) : M unit :=
  dv ← get_float "dv";
  let cs_over_dv := cs / dv in
  let w := if cs_over_dv * 2.35482 <? 1 then 1 else cs_over_dv * 2.35482 in
  let vmax := 2 * w in
  let d := w / 11 in
  let n := 45%Z in
  let v := Grid.linspace (T:=float) (- vmax) vmax n in
  let p :=
    if cs_over_dv <? 0.01 then
      map (fun v => (1 + Flt.sign (v + 0.5)) * (1 - Flt.sign (v - 0.5)) / 4) v
    else
      let p := map (fun v => ferf E ((v + 0.5) / sqrt 2 / cs_over_dv)
                             - ferf E ((v - 0.5) / sqrt 2 / cs_over_dv)) v in
      <[Z.to_nat (n - 1) := 0]> (<[0%nat := 0]> p) in
  _ ← setattr "prof" (VVec p);
  _ ← setattr "prof_n" (VInt (n - 1));
  setattr "prof_d" (VFloat d).

(** Lines 291-319, reading the attributes each branch uses. *)
Definition xdisk_pair (hdisk : float) : M (option cube * option cube) :=
  if hdisk <? 0 then mret (None, None)
  else if hdisk <? Disk.h_thin then
    Xnest ← get_cube "Xnest";
    cosi ← get_float "cosi";
    mret (Disk.xdisk_thin cosi Xnest)
  else
    Xnest ← get_cube "Xnest";
    cosi ← get_float "cosi";
    tani ← get_float "tani";
    _ ← lift (Disk.py_sq E hdisk);
    Ynest ← get_cube "Ynest";
    lift (Disk.xdisk_thick E cosi tani Xnest Ynest hdisk).

Definition update_xdisk (h1 h2 : float) : M unit :=
  p1 ← xdisk_pair h1;
  p2 ← xdisk_pair h2;
  setattr "xdisk" (VSlots [p1.1; p1.2; p2.1; p2.2]).

(** Lines 338-356: the closure keeps [Rc] and [Rin]; the attributes of the
    object are read when it is called. *)
Definition update_getvlos (Rc Rin : float) : M unit :=
  setattr "getvlos" (VGetvlos Rc Rin).

Definition getvlos (Rc Rin : float) (x_in : option cube) : M (option cube) :=
  match x_in with
  | None => mret None
  | Some x =>
      Ynest ← get_cube "Ynest";
      _ ← lift (Nd.cube_broadcast2 (hypot E) x Ynest);
      envelope ← get_bool "envelope";
      signmajor ← get_float "signmajor";
      signminor ← get_float "signminor";
      sini ← get_float "sini";
      lift (Disk.getvlos E
              {| Disk.envelope := envelope; Disk.Rc := Rc; Disk.Rin := Rin;
                 Disk.sini := sini; Disk.signmajor := signmajor;
                 Disk.signminor := signminor |} Ynest (Some x))
  end.

(** Lines 358-359. *)
Definition update_vlos : M unit :=
  xdisk ← get_slots "xdisk";
  g ← getattr "getvlos";
  match g with
  | VGetvlos Rc Rin =>
      vlos ← mapM (getvlos Rc Rin) xdisk;
      setattr "vlos" (VSlots vlos)
  | _ => raise (TypeError "getvlos")
  end.

(** ** The forward model *)

(** [get_Iout] on the object: the attributes are read, the cached arrays
    are placed in a fresh store and [Raster.get_Iout] runs on it; only its
    result is kept.  That the call leaves the cached arrays as they were is
    [Raster.get_Iout_keeps_cache], a statement about the store.  The
    attributes are all read before the loop: on an object that lacks one of
    them this raises [AttributeError] at once, where the source reads
    [Ynest] only when [pI != 0] and a branch is present, and [nlayer],
    [nq1], [nq3], [ineed0] and [ineed1] after the loop. *)
Definition alloc_slots (a : list (option cube)) : Raster.S (list (option Raster.loc)) :=
  mapM (fun o : option cube =>
          match o with
          | None => mret None
          | Some c => l ← Raster.alloc (Raster.A3 c); mret (Some l)
          end) a.

Definition get_Iout (Mstar pI offvsys : float) : M cube :=
  vlos ← get_slots "vlos";
  xdisk ← get_slots "xdisk";
  v_valid ← get_vec "v_valid";
  dv ← get_float "dv";
  prof_d ← get_float "prof_d";
  prof_n ← get_int "prof_n";
  prof ← get_vec "prof";
  Ynest ← get_cube "Ynest";
  nlayer ← get_int "nlayer";
  nq1 ← get_int "nq1";
  nq3 ← get_int "nq3";
  ineed0 ← get_int "ineed0";
  ineed1 ← get_int "ineed1";
  lift ((
    lv ← alloc_slots vlos;
    lx ← alloc_slots xdisk;
    l_v ← Raster.alloc (Raster.A1 v_valid);
    l_p ← Raster.alloc (Raster.A1 prof);
    l_Y ← Raster.alloc (Raster.A3 Ynest);
    Raster.get_Iout E
      {| Raster.vlos := lv; Raster.xdisk := lx; Raster.v_valid := l_v;
         Raster.prof := l_p; Raster.Ynest := l_Y; Raster.dv := dv;
         Raster.prof_d := prof_d; Raster.prof_n := prof_n;
         Raster.nlayer := nlayer; Raster.nq1 := nq1; Raster.nq3 := nq3;
         Raster.ineed0 := ineed0; Raster.ineed1 := ineed1 |}
      Mstar pI offvsys) (∅ : Raster.store)).2.

(** Lines 410-415. *)
Definition peaktounity (I_in : cube) : result cube :=
  xypeak ← Scale.max_axis12 I_in;
  let scale := map (fun m => if m =? 0 then 0 else 1 / m) xypeak in
  Ok (zip_with (fun c sc => img_map (fun x => x * sc) c) I_in scale).

(** Lines 379-388. *)
Definition rgi2d (offmajor offminor : float) (I_in : cube) : M cube :=
  mapM (fun c : img =>
          yneed ← get_vec "yneed";
          xneed ← get_vec "xneed";
          pa_rad ← get_float "pa_rad";
          let '(xoff, yoff) := Makegrid.rot_cell E (- pa_rad) offminor offmajor in
          Y ← get_img "Y";
          X' ← get_img "X";
          lift (rgi_linear X yneed xneed c
                  (img_map (fun y => y - yoff) Y)
                  (img_map (fun x => x - xoff) X'))) I_in.

(** [get_scale] on the object: each policy reads its own attributes. *)
Definition get_scale (Iout : cube) : M Scale.scale_t :=
  scaling ← get_str "scaling";
  data_valid ← (if decide (scaling = "chi2" \/ scaling = "peak" \/ scaling = "uniform")
                then get_cube "data_valid" else mret []);
  mom0 ← (if decide (scaling = "mom0") then get_img "mom0" else mret []);
  sigma_mom0 ← (if decide (scaling = "mom0") then get_float "sigma_mom0" else mret 0);
  dv ← (if decide (scaling = "mom0") then get_float "dv" else mret 0);
  v_valid ← (if decide (scaling = "uniform") then get_vec "v_valid" else mret []);
  lift (Scale.get_scale
          {| Scale.scaling := scaling; Scale.data_valid := data_valid;
             Scale.mom0 := mom0; Scale.sigma_mom0 := sigma_mom0;
             Scale.dv := dv; Scale.v_valid := v_valid |} Iout false).

Definition is_free (free : list bool) (key : nat) : bool := default false (free !! key).

(** Lines 417-448. *)
Definition cubemodel (p : params float) (convolving scaling : bool) : M cube :=
  free ← get_bools "free";
  _ ← (if is_free free 10 then Makegrid.update_incl E (incl p) else mret tt);
  _ ← (if is_free free 2 then update_prof (cs p) else mret tt);
  _ ← (if is_free free 3 || is_free free 4 then update_xdisk (h1 p) (h2 p) else mret tt);
  _ ← (if is_free free 1 || is_free free 6 then update_getvlos (Rc p) (Rin p) else mret tt);
  _ ← (if is_free free 3 || is_free free 4 || is_free free 1 || is_free free 6
       then update_vlos else mret tt);
  Iout ← get_Iout (Mstar p) (pI p) (offvsys p);
  Iout ← (if convolving then
            gaussbeam ← get_img "gaussbeam";
            mret (convolve_same X Iout gaussbeam)
          else lift (peaktounity Iout));
  Iout ← rgi2d (offmajor p) (offminor p) Iout;
  if scaling then
    scale ← get_scale Iout;
    policy ← get_str "scaling";
    match scale with
    | Scale.PerPixel sc =>
        if decide (policy = "mom0")
        then mret (map (fun c => img_map2 PrimFloat.mul c sc) Iout)
        else raise (ValueError "operands could not be broadcast together")
    | Scale.PerChannel sc =>
        if decide (policy = "mom0")
        then raise (ValueError "operands could not be broadcast together")
        else mret (zip_with (fun c k => img_map (fun x => x * k) c) Iout sc)
    end
  else
    m ← lift (Scale.np_max (concat (map pixels Iout)));
    mret (cube_map (fun x => x / m) Iout).

(** ** [fitting], lines 450-564 *)

Definition of_list {A} (l : list A) : result (params A) :=
  match l with
  | [a; b; c; d; e; f; g; h; i; j; k] => Ok (Params a b c d e f g h i j k)
  | _ => Raise (TypeError "cubemodel() takes 11 parameters")
  end.

(** [q = p_fixed.copy(); q[p_fixed == None] = p]: the free slots take the
    values of [p] in order; numpy accepts as many values as free slots, or a
    single one. *)
Fixpoint fill (p_fixed : list (option float)) (p : vec) : vec :=
  match p_fixed with
  | [] => []
  | Some x :: r => x :: fill r p
  | None :: r => default 0 (head p) :: fill r (tail p)
  end.

Definition fill_free (p_fixed : list (option float)) (p : vec) : result vec :=
  let nfree := length (filter (fun o => o = None) p_fixed) in
  if decide (length p = nfree) then Ok (fill p_fixed p)
  else match p with
       | [x] => Ok (fill p_fixed (replicate nfree x))
       | _ => Raise (ValueError "cannot assign input values where the mask is true")
       end.

(** [q[:2] = f(q[:2])] *)
Definition on_first_two {A} (f : A -> A) (l : list A) : list A :=
  imap (fun i x => if (i <? 2)%nat then f x else x) l.

Definition free_of (p_fixed : list (option float)) : list bool :=
  map (fun o => bool_decide (o = None)) p_fixed.

(** Lines 477-493: the caches that depend only on fixed parameters are
    computed once. *)
Definition fitting_caches (fixed : params (option float)) : M unit :=
  _ ← setattr "free" (VBools (free_of (to_list fixed)));
  _ ← match incl fixed with Some i => Makegrid.update_incl E i | None => mret tt end;
  _ ← match cs fixed with Some c => update_prof c | None => mret tt end;
  _ ← match h1 fixed, h2 fixed with
      | Some a, Some b => update_xdisk a b
      | _, _ => mret tt
      end;
  _ ← match Rc fixed, Rin fixed with
      | Some a, Some b => update_getvlos a b
      | _, _ => mret tt
      end;
  match h1 fixed, h2 fixed, Rc fixed, Rin fixed with
  | Some _, Some _, Some _, Some _ => update_vlos
  | _, _, _, _ => mret tt
  end.

Definition kwargs0 (labels : list string) (filename : string) (show : bool)
  : gmap string kwval :=
  <["nwalkers_per_ndim" := KInt 16]> (<["nburnin" := KInt 1000]>
  (<["nsteps" := KInt 1000]> (<["labels" := KStrs labels]>
  (<["rangelevel" := KNone]> (<["figname" := KStr (filename +:+ ".corner.png")]>
  (<["show_corner" := KBool show]> ∅)))))).

Definition kw_int (kw : gmap string kwval) (key : string) : result Z :=
  match kw !! key with
  | Some (KInt z) => Ok z
  | _ => Raise (TypeError key)
  end.

(** Lines 519-528: the log-probability of the free values [p]. *)
Definition lnprob (p_fixed : list (option float)) (p : vec) : M float :=
  q ← lift (fill_free p_fixed p);
  let q := on_first_two (fun x => fpow E 10 x) q in
  pr ← lift (of_list q);
  model ← cubemodel pr true true;
  data_valid ← get_cube "data_valid";
  d ← (if decide (Scale.shape3 data_valid = Scale.shape3 model)
       then mret (cube_map2 (fun a b => (a - b) * (a - b)) data_valid model)
       else raise (ValueError "operands could not be broadcast together"));
  sigma ← get_float "sigma";
  pixperbeam ← get_float "pixperbeam";
  let chi2 := Flt.nansum (concat (map pixels d)) / fpow E sigma 2 / pixperbeam in
  mret (-0.5 * chi2).

(** Lines 529-533: the prior limits of the free parameters, transposed. *)
Definition plim_of (ranges : params (float * float)) (p_fixed : list (option float))
  : img :=
  let rows := on_first_two (fun r => (flog10 E r.1, flog10 E r.2)) (to_list ranges) in
  let rows := select rows (free_of p_fixed) in
  [map fst rows; map snd rows].

(** Lines 540-544. *)
Definition get_p (p_fixed : list (option float)) (mcmc : img) (i : Z) : result vec :=
  row ← Raster.py_index mcmc i;
  p ← fill_free p_fixed row;
  Ok (on_first_two (fun x => fpow E 10 x) p).

(** Lines 495-548: the branch with at least one free parameter.  It returns
    the four parameter rows and what it did to the outside. *)
Definition fitting_free (ranges : params (float * float))
    (p_fixed : list (option float)) (filename : string) (show progressbar : bool)
    (kwargs : gmap string kwval) : M (list event) :=
  let p_fixed := on_first_two (fmap (flog10 E)) p_fixed in
  let labels := select (on_first_two (fun k => "log" +:+ k) paramkeys)
                       (free_of p_fixed) in
  let kw := kwargs ∪ kwargs0 labels filename show in
  bar ← (if progressbar then
           a ← lift (kw_int kw "nwalkers_per_ndim");
           b ← lift (kw_int kw "nburnin");
           c ← lift (kw_int kw "nsteps");
           let nfree := Z.of_nat (length (filter (fun o => o = None) p_fixed)) in
           mret [EvBar (a * nfree * (b + c + 2))]
         else mret []);
  combine ← get_bool "combine";
  _ ← (if (combine : bool) then
         d1 ← get_cube "data_valid1"; _ ← setattr "data_valid" (VCube d1);
         v1 ← get_vec "v_valid1"; _ ← setattr "v_valid" (VVec v1);
         dv ← get_float "dv"; v0 ← get_vec "v_valid0";
         _ ← setattr "dv" (VFloat (dv * Flt.of_nat (length v0) / 2));
         sigma ← get_float "sigma"; v0 ← get_vec "v_valid0";
         setattr "sigma" (VFloat (sigma / sqrt (Flt.of_nat (length v0) / 2)))
       else
         d0 ← get_cube "data_valid0"; _ ← setattr "data_valid" (VCube d0);
         v0 ← get_vec "v_valid0"; setattr "v_valid" (VVec v0));
  let plim := plim_of ranges p_fixed in
  mcmc ← emcee_corner X plim (lnprob p_fixed) kw;
  combine ← get_bool "combine";
  _ ← (if (combine : bool) then
         d0 ← get_cube "data_valid0"; _ ← setattr "data_valid" (VCube d0);
         v0 ← get_vec "v_valid0"; _ ← setattr "v_valid" (VVec v0);
         dv ← get_float "dv"; v0 ← get_vec "v_valid0";
         _ ← setattr "dv" (VFloat (dv / (Flt.of_nat (length v0) / 2)));
         sigma ← get_float "sigma"; v0 ← get_vec "v_valid0";
         setattr "sigma" (VFloat (sigma * sqrt (Flt.of_nat (length v0) / 2)))
       else mret tt);
  popt ← lift (get_p p_fixed mcmc 0); _ ← setattr "popt" (VVec popt);
  plow ← lift (get_p p_fixed mcmc 1); _ ← setattr "plow" (VVec plow);
  pmid ← lift (get_p p_fixed mcmc 2); _ ← setattr "pmid" (VVec pmid);
  phigh ← lift (get_p p_fixed mcmc 3); _ ← setattr "phigh" (VVec phigh);
  mret (bar ++ [EvSample plim]).

(** Lines 549-553: every parameter is fixed. *)
Definition fitting_fixed (p : vec) : M (list event) :=
  _ ← setattr "popt" (VVec p);
  _ ← setattr "plow" (VVec p);
  _ ← setattr "pmid" (VVec p);
  _ ← setattr "phigh" (VVec p);
  mret [].

(** Lines 554-564: the rows are printed and saved, and the four
    attributes become dictionaries keyed by parameter name. *)
Definition fitting_report (filename : string) : M (list event) :=
  plow ← get_vec "plow";
  pmid ← get_vec "pmid";
  phigh ← get_vec "phigh";
  popt ← get_vec "popt";
  let plist := [plow; pmid; phigh; popt] in
  _ ← lift (savetxt X (filename +:+ ".popt.txt") plist);
  popt ← get_vec "popt"; _ ← setattr "popt" (VDict (zip paramkeys popt));
  plow ← get_vec "plow"; _ ← setattr "plow" (VDict (zip paramkeys plow));
  pmid ← get_vec "pmid"; _ ← setattr "pmid" (VDict (zip paramkeys pmid));
  phigh ← get_vec "phigh"; _ ← setattr "phigh" (VDict (zip paramkeys phigh));
  mret [EvPrint "plow" plow; EvPrint "pmid" pmid; EvPrint "phigh" phigh;
        EvPrint "popt" popt; EvSavetxt (filename +:+ ".popt.txt") plist].

(** [fitting]: [None in p_fixed] holds exactly when not every entry has a
    value. *)
Definition fitting (ranges : params (float * float))
    (fixed : params (option float)) (filename : string)
    (show progressbar : bool) (kwargs : gmap string kwval) : M (list event) :=
  let p_fixed := to_list fixed in
  _ ← fitting_caches fixed;
  ev1 ← match mapM id p_fixed with
        | None => fitting_free ranges p_fixed filename show progressbar kwargs
        | Some p => fitting_fixed p
        end;
  ev2 ← fitting_report filename;
  mret (ev1 ++ ev2).

End WithExt.

(** ** Running [fitting] *)

Ltac lookup_attr :=
  repeat first [rewrite lookup_insert_eq | rewrite lookup_insert_ne by discriminate];
  try reflexivity.

Ltac read_attr :=
  first [apply get_vec_run | apply get_float_run | apply get_cube_run | apply get_img_run];
  lookup_attr.

(** The four printed rows and the text file of lines 554-560. *)
Definition report_events (filename : string) (plow pmid phigh popt : vec) : list event :=
  [EvPrint "plow" plow; EvPrint "pmid" pmid; EvPrint "phigh" phigh;
   EvPrint "popt" popt;
   EvSavetxt (filename +:+ ".popt.txt") [plow; pmid; phigh; popt]].

(** The prior ranges of the parameters that are left free, in order. *)
Definition free_ranges (fixed : params (option float)) (ranges : params (float * float))
  : list (float * float) :=
  select (to_list ranges) (free_of (to_list fixed)).

(** A stand-in for the libraries: the convolution and the interpolation
    return their input, the sampler returns the lower prior limits in all
    four rows without evaluating the model, and the file is written. *)
Definition sci_ref : sci := {|
  convolve_same := fun c _ => c;
  rgi_linear := fun _ _ c _ _ => Ok c;
  emcee_corner := fun plim _ _ => mret (replicate 4 (default [] (head plim)));
  savetxt := fun _ _ => Ok tt
|}.

(** Prior ranges, and the same with another range for [pI]. *)
Definition ranges_demo : params (float * float) :=
  Params (1, 1) (1, 1) (0.25, 1) (0.25, 1) (0.25, 1) (-2, 2) (0, 1000)
         (-100, 100) (-100, 100) (-0.25, 0.25) (-45, 45).

Definition ranges_wide : params (float * float) :=
  Params (1, 1) (1, 1) (0.25, 1) (0.25, 1) (0.25, 1) (-5, 5) (0, 1000)
         (-100, 100) (-100, 100) (-0.25, 0.25) (-45, 45).

(** A full parameter vector: a point-like line profile and no disk
    surface, so that the caches need no grid. *)
Definition v_demo : params float := Params 1 100 0 (-1) (-1) 0 0 0 0 0 0.

(** Only [pI] is fixed. *)
Definition fixed_pI : params (option float) :=
  Params None None None None None (Some 0) None None None None None.

Definition s_demo : obj :=
  <["dv" := VFloat 1]> (<["incl0" := VFloat 0]> (init true false "chi2")).

Definition s_free : obj :=
  <["v_valid0" := VVec [0; 1]]> (<["data_valid0" := VCube [ [[1]]; [[2]] ]]> s_demo).

Lemma run_split {A} (m : M A) (s : obj) (a : A) :
  (m s).2 = Ok a -> m s = ((m s).1, Ok a).
Proof. destruct (m s) as [s1 r]. simpl. intros ->. reflexivity. Qed.

Lemma get_bool_run s name b : s !! name = Some (VBool b) -> get_bool name s = (s, Ok b).
Proof. intros H. unfold get_bool, mbind, M_bind, getattr. rewrite H. reflexivity. Qed.

Lemma get_slots_run s name a : s !! name = Some (VSlots a) -> get_slots name s = (s, Ok a).
Proof. intros H. unfold get_slots, mbind, M_bind, getattr. rewrite H. reflexivity. Qed.

Lemma get_bools_run s name a : s !! name = Some (VBools a) -> get_bools name s = (s, Ok a).
Proof. intros H. unfold get_bools, mbind, M_bind, getattr. rewrite H. reflexivity. Qed.

Lemma mapM_run {A B} (f : A -> M B) (l : list A) s :
  (forall x, exists r, f x s = (s, Ok r)) ->
  exists rs, mapM f l s = (s, Ok rs).
Proof.
  intros Hf. induction l as [|x l [rs IH]]; [eexists; reflexivity|].
  destruct (Hf x) as [r Hr]. exists (r :: rs). simpl.
  rewrite (bind_ok _ _ _ _ _ Hr), (bind_ok _ _ _ _ _ IH). reflexivity.
Qed.

Lemma select_imap {A B} (g : nat -> A -> B) (l l' : list A) m :
  select l m = select l' m -> select (imap g l) m = select (imap g l') m.
Proof.
  revert g l l'. induction m as [|b m IH]; intros g l l' H.
  - destruct l, l'; reflexivity.
  - destruct l as [|x l], l' as [|x' l']; cbn in *.
    + reflexivity.
    + destruct b; [discriminate|]. rewrite <- (IH _ [] l'); [destruct m; reflexivity|].
      rewrite <- H. destruct m; reflexivity.
    + destruct b; [discriminate|]. rewrite (IH _ l []); [destruct m; reflexivity|].
      rewrite H. destruct m; reflexivity.
    + destruct b.
      * injection H as -> H. f_equal. apply IH, H.
      * apply IH, H.
Qed.

Lemma free_of_imap (g : nat -> option float -> option float) l :
  (forall i o, g i o = None <-> o = None) ->
  free_of (imap g l) = free_of l.
Proof.
  unfold free_of. revert g. induction l as [|o l IH]; intros g Hg; [reflexivity|].
  cbn. f_equal.
  - apply bool_decide_ext, Hg.
  - apply IH. intros i o'. apply Hg.
Qed.

(** Taking the logarithm of the fixed mass and radius leaves the set of
    free parameters as it is. *)
Lemma free_of_log (f : float -> float) l :
  free_of (on_first_two (fmap f) l) = free_of l.
Proof.
  apply free_of_imap. intros i o.
  destruct (i <? 2)%nat; [|reflexivity]. destruct o; split; intros; simplify_eq/=; done.
Qed.

(** ** The flared surface of [update_xdisk] *)

(** The branch of lines 300-317 is entered when neither comparison of
    lines 294 and 297 holds. *)
Definition flared (h : float) : bool := negb (h <? 0) && negb (h <? Disk.h_thin).

(** What the two slots [x1], [x2] of a flare ratio [h] hold, on a grid
    [Xn], [Yn] seen at [cosi], [tani], with [a = tani^(-2) - h^2].  When
    [|a| >= 1e-3] both arrays exist; a cell whose discriminant [D = b^2 - a c]
    is negative holds NaN in both, and a cell with [D >= 0] holds the two
    roots.  When [|a| < 1e-3] the first array holds the linearized solution
    [X cosi + c / b / 2] at every cell, an expression without [a], and the
    second slot is [None]. *)
Definition flared_slots (E : ext) (cosi tani : float) (Xn Yn : cube) (h : float)
    (x1 x2 : option cube) : Prop :=
  let a := Disk.coef_a E tani h in
  ((Disk.a_tol <=? abs a) = true ->
     exists r1 r2,
       x1 = Some r1 /\ x2 = Some r2 /\
       forall l i j X Y,
         Disk.at3 Xn l i j = Some X -> Disk.at3 Yn l i j = Some Y ->
         let b := Disk.coef_b E h (X * cosi) in
         let D := Disk.discriminant a b (Disk.coef_c E tani h (X * cosi) Y) in
         ((D <? 0) = true ->
            Disk.at3 r1 l i j = Some nan /\ Disk.at3 r2 l i j = Some nan) /\
         ((0 <=? D) = true ->
            Disk.at3 r1 l i j = Some (X * cosi + (b + sqrt D) / a) /\
            Disk.at3 r2 l i j = Some (X * cosi + (b - sqrt D) / a))) /\
  ((abs a <? Disk.a_tol) = true ->
     exists r1,
       x1 = Some r1 /\ x2 = None /\
       forall l i j X Y,
         Disk.at3 Xn l i j = Some X -> Disk.at3 Yn l i j = Some Y ->
         Disk.at3 r1 l i j =
           Some (X * cosi + Disk.coef_c E tani h (X * cosi) Y
                            / Disk.coef_b E h (X * cosi) / 2)).

Section Runs.
Variable E : ext.
Variable X : sci.

Lemma xdisk_pair_flared h s Xn Yn c t :
  s !! "Xnest" = Some (VCube Xn) -> s !! "Ynest" = Some (VCube Yn) ->
  s !! "cosi" = Some (VFloat c) -> s !! "tani" = Some (VFloat t) ->
  Nd.shape Xn = Nd.shape Yn ->
  (flared h = true -> is_ok (Disk.py_sq E h) = true) ->
  exists x1 x2,
    xdisk_pair E h s = (s, Ok (x1, x2)) /\
    ((Disk.h_thin <=? h) = true -> flared_slots E c t Xn Yn h x1 x2).
Proof.
  intros HX HY Hc Ht Hs Hsq. unfold xdisk_pair, flared in *.
  destruct (h <? 0) eqn:E0.
  { eexists _, _. split; [reflexivity|]. intros Hh.
    rewrite (Flt.leb_pos_not_neg Disk.h_thin h eq_refl Hh) in E0. discriminate. }
  destruct (h <? Disk.h_thin) eqn:E1.
  { rewrite (bind_ok _ _ _ _ _ (get_cube_run _ _ _ HX)).
    rewrite (bind_ok _ _ _ _ _ (get_float_run _ _ _ Hc)).
    eexists _, _. split; [reflexivity|]. intros Hh.
    rewrite (Flt.leb_ltb_false _ _ Hh) in E1. discriminate. }
  specialize (Hsq eq_refl).
  destruct (Disk.py_sq E h) as [q|] eqn:Eq; [|discriminate].
  rewrite (bind_ok _ _ _ _ _ (get_cube_run _ _ _ HX)).
  rewrite (bind_ok _ _ _ _ _ (get_float_run _ _ _ Hc)).
  rewrite (bind_ok _ _ _ _ _ (get_float_run _ _ _ Ht)).
  rewrite (bind_ok _ _ _ _ _ (Makegrid.lift_run _ _ _ eq_refl)).
  rewrite (bind_ok _ _ _ _ _ (get_cube_run _ _ _ HY)).
  unfold Disk.xdisk_thick. cbv zeta. rewrite !(Nd.cube_broadcast2_same _ _ _ Hs).
  cbn [mbind result_bind].
  rewrite decide_True by (apply Nd.shape_cube_map2, Hs).
  unfold flared_slots. cbv zeta.
  destruct (_ && _) eqn:Ein.
  - eexists _, _. split; [reflexivity|]. intros _. split.
    { intros Ha. rewrite (Flt.abs_ge_outside _ _ Ha) in Ein. discriminate. }
    intros _. eexists. split; [reflexivity|]. split; [reflexivity|].
    intros l i j X0 Y0 HXc HYc.
    rewrite Disk.at3_cube_map2, HXc, HYc. reflexivity.
  - eexists _, _. split; [reflexivity|]. intros _. split.
    2:{ intros Ha. rewrite (Flt.abs_lt_inside _ _ Ha) in Ein. discriminate. }
    intros _. eexists _, _. split; [reflexivity|]. split; [reflexivity|].
    intros l i j X0 Y0 HXc HYc.
    rewrite !Disk.at3_cube_map2, HXc, HYc. split.
    + intros HD. rewrite !Disk.x_root_no_solution by exact HD. split; reflexivity.
    + intros HD. unfold Disk.x_root. cbv zeta. rewrite HD. split; reflexivity.
Qed.

(** C5.  On an object that holds the grid [Xnest], [Ynest] (two arrays of
    one shape, as [makegrid] builds them) and the inclination, for flare
    ratios whose square does not overflow: [update_xdisk] raises nothing
    and assigns the four slots of [self.xdisk]; and for each of the two
    flare ratios [h >= 0.01], the first with slots 0 and 1 and the second
    with slots 2 and 3, the slots are as [flared_slots] says: NaN in both
    arrays at every cell of negative discriminant when [|a| >= 1e-3], the
    linearized solution and no second array when [|a| < 1e-3]. *)
Theorem update_xdisk_discriminant h1 h2 s Xn Yn c t :
  s !! "Xnest" = Some (VCube Xn) -> s !! "Ynest" = Some (VCube Yn) ->
  s !! "cosi" = Some (VFloat c) -> s !! "tani" = Some (VFloat t) ->
  Nd.shape Xn = Nd.shape Yn ->
  (flared h1 = true -> is_ok (Disk.py_sq E h1) = true) ->
  (flared h2 = true -> is_ok (Disk.py_sq E h2) = true) ->
  exists x1 x2 x3 x4,
    update_xdisk E h1 h2 s = (<["xdisk" := VSlots [x1; x2; x3; x4]]> s, Ok tt) /\
    ((Disk.h_thin <=? h1) = true -> flared_slots E c t Xn Yn h1 x1 x2) /\
    ((Disk.h_thin <=? h2) = true -> flared_slots E c t Xn Yn h2 x3 x4).
Proof.
  intros HX HY Hc Ht Hs Hq1 Hq2.
  destruct (xdisk_pair_flared h1 s Xn Yn c t HX HY Hc Ht Hs Hq1) as (x1 & x2 & Hr1 & Hp1).
  destruct (xdisk_pair_flared h2 s Xn Yn c t HX HY Hc Ht Hs Hq2) as (x3 & x4 & Hr2 & Hp2).
  exists x1, x2, x3, x4. split; [|split; assumption].
  unfold update_xdisk.
  rewrite (bind_ok _ _ _ _ _ Hr1), (bind_ok _ _ _ _ _ Hr2). reflexivity.
Qed.

Lemma plim_of_free_ranges ranges ranges' (fixed : params (option float)) :
  free_ranges fixed ranges = free_ranges fixed ranges' ->
  plim_of E ranges (on_first_two (fmap (flog10 E)) (to_list fixed))
  = plim_of E ranges' (on_first_two (fmap (flog10 E)) (to_list fixed)).
Proof.
  intros H. unfold plim_of. rewrite free_of_log. cbv zeta.
  unfold on_first_two, free_ranges in *. rewrite (select_imap _ _ _ _ H). reflexivity.
Qed.

(** C8.  When every one of the eleven parameters has a fixed value [v] and
    the caches of [v] can be computed on the object, [fitting] returns
    after printing and saving four rows that all equal [v]; the attributes
    [popt], [plow], [pmid] and [phigh] are the dictionary of [v]; and the
    ensemble sampler is not run: the trace holds no sampling event, and the
    outcome is the same whatever the sampler, the prior ranges, the
    progress-bar and corner-plot flags and the sampler's keyword
    arguments are. *)
Theorem fitting_all_fixed ranges (v : params float)
    filename show progressbar kwargs s s1 :
  fitting_caches E (pmap Some v) s = (s1, Ok tt) ->
  savetxt X (filename +:+ ".popt.txt") (replicate 4 (to_list v)) = Ok tt ->
  exists s',
    fitting E X ranges (pmap Some v) filename show progressbar kwargs s
      = (s', Ok (report_events filename (to_list v) (to_list v) (to_list v) (to_list v))) /\
    s' !! "popt" = Some (VDict (zip paramkeys (to_list v))) /\
    s' !! "plow" = Some (VDict (zip paramkeys (to_list v))) /\
    s' !! "pmid" = Some (VDict (zip paramkeys (to_list v))) /\
    s' !! "phigh" = Some (VDict (zip paramkeys (to_list v))) /\
    forall X' ranges' show' progressbar' kwargs',
      savetxt X' = savetxt X ->
      fitting E X' ranges' (pmap Some v) filename show' progressbar' kwargs' s
      = fitting E X ranges (pmap Some v) filename show progressbar kwargs s.
Proof.
  intros Hc Hsave.
  assert (forall X' ranges' show' progressbar' kwargs',
            savetxt X' = savetxt X ->
            fitting E X' ranges' (pmap Some v) filename show' progressbar' kwargs' s
            = (<["phigh" := VDict (zip paramkeys (to_list v))]>
               (<["pmid" := VDict (zip paramkeys (to_list v))]>
               (<["plow" := VDict (zip paramkeys (to_list v))]>
               (<["popt" := VDict (zip paramkeys (to_list v))]>
               (<["phigh" := VVec (to_list v)]> (<["pmid" := VVec (to_list v)]>
               (<["plow" := VVec (to_list v)]> (<["popt" := VVec (to_list v)]> s1))))))),
               Ok (report_events filename (to_list v) (to_list v) (to_list v) (to_list v))))
    as Hrun.
  { intros X' ranges' show' progressbar' kwargs' HX.
    unfold fitting. rewrite (bind_ok _ _ _ _ _ Hc).
    change (mapM id (to_list (pmap Some v))) with (Some (to_list v)).
    cbv iota beta.
    erewrite bind_ok.
    2:{ unfold fitting_fixed. do 4 (erewrite bind_ok by reflexivity). reflexivity. }
    erewrite bind_ok.
    2:{ unfold fitting_report.
        do 4 (erewrite bind_ok by read_attr).
        erewrite bind_ok by (apply Makegrid.lift_run; rewrite HX; exact Hsave).
        do 4 (erewrite bind_ok by read_attr; erewrite bind_ok by reflexivity).
        reflexivity. }
    reflexivity. }
  eexists. split; [apply (Hrun X ranges show progressbar kwargs eq_refl)|].
  repeat split; try (lookup_attr; fail).
  intros X' ranges' show' progressbar' kwargs' HX.
  rewrite (Hrun X' ranges' show' progressbar' kwargs' HX).
  rewrite (Hrun X ranges show progressbar kwargs eq_refl). reflexivity.
Qed.

(** C9, as the code has it.  [fitting] compares no fixed value with a
    range: the range of a parameter that has a fixed value is not read, so
    two calls that differ only in the ranges of fixed parameters run alike,
    outcome and final object included.  The fixed value takes precedence
    and nothing is raised on account of the range. *)
Theorem fitting_ignores_range_of_fixed ranges ranges' fixed
    filename show progressbar kwargs :
  free_ranges fixed ranges = free_ranges fixed ranges' ->
  fitting E X ranges fixed filename show progressbar kwargs
  = fitting E X ranges' fixed filename show progressbar kwargs.
Proof.
  intros H. unfold fitting, fitting_free. cbv zeta.
  rewrite (plim_of_free_ranges _ _ _ H). reflexivity.
Qed.

End Runs.

(** ** The forward model leaves the object as it is *)

Lemma writes_nothing {A} (m : M A) s : writes [] m -> (m s).1 = s.
Proof. intros H. apply map_eq. intros n. apply H, not_elem_of_nil. Qed.

Lemma writes_mapM {A B} names (f : A -> M B) (l : list A) :
  (forall x, writes names (f x)) -> writes names (mapM f l).
Proof.
  intros Hf. induction l as [|x l IH]; [apply writes_ret|].
  simpl. apply writes_bind; [apply Hf|]. intros y.
  apply writes_bind; [apply IH|]. intros ys. apply writes_ret.
Qed.

Ltac writes_all :=
  repeat first
    [ solve [auto with writes]
    | apply writes_bind; [|intros ?]
    | apply writes_mapM; intros ?
    | match goal with
      | |- writes _ (if ?b then _ else _) => destruct b
      | |- writes _ (match ?x with _ => _ end) => destruct x
      end ].

Section Frame.
Variable E : ext.
Variable X : sci.

Lemma writes_get_Iout Mstar pI offvsys : writes [] (get_Iout E Mstar pI offvsys).
Proof. unfold get_Iout. writes_all. Qed.

Lemma writes_rgi2d a b c : writes [] (rgi2d E X a b c).
Proof. unfold rgi2d. writes_all. Qed.

Lemma writes_get_scale c : writes [] (get_scale c).
Proof. unfold get_scale. writes_all. Qed.

(** A model evaluation in which only [Mstar], [pI] and the three offsets
    are free assigns no attribute, whether it returns or raises. *)
Lemma cubemodel_keeps_object (p : params float) convolving scaling s free :
  s !! "free" = Some (VBools free) ->
  is_free free 1 = false -> is_free free 2 = false -> is_free free 3 = false ->
  is_free free 4 = false -> is_free free 6 = false -> is_free free 10 = false ->
  (cubemodel E X p convolving scaling s).1 = s.
Proof.
  intros Hf H1 H2 H3 H4 H6 H10. unfold cubemodel.
  rewrite (bind_ok _ _ _ _ _ (get_bools_run _ _ _ Hf)).
  rewrite H1, H2, H3, H4, H6, H10. cbn [orb].
  apply writes_nothing.
  pose proof writes_get_Iout. pose proof writes_rgi2d. pose proof writes_get_scale.
  writes_all.
Qed.

End Frame.

(** A two-cell grid seen at cos i = 1, tan i = 4.  The flare ratio 0.5
    gives a = 1/16 - 1/4 < 0, and at the cell (X, Y) = (0, 1) the
    discriminant is -3/64: both arrays hold NaN there.  The flare ratio
    0.25 gives a = 0: one array, and [None] in the last slot. *)
Definition s_two_cells : obj :=
  <["tani" := VFloat 4]> (<["cosi" := VFloat 1]>
  (<["Ynest" := VCube [[[1; 2]]]]> (<["Xnest" := VCube [[[0; 1]]]]> ∅))).

Lemma update_xdisk_discriminant_witness :
  exists r1 r2 r3,
    update_xdisk ext_ref 0.5 0.25 s_two_cells
      = (<["xdisk" := VSlots [Some r1; Some r2; Some r3; None]]> s_two_cells, Ok tt) /\
    Disk.at3 r1 0 0 0 = Some nan /\ Disk.at3 r2 0 0 0 = Some nan.
Proof.
  destruct (update_xdisk_discriminant ext_ref 0.5 0.25 s_two_cells
              [[[0; 1]]] [[[1; 2]]] 1 4 eq_refl eq_refl eq_refl eq_refl eq_refl
              (fun _ => eq_refl) (fun _ => eq_refl))
    as (x1 & x2 & x3 & x4 & Hrun & H1 & H2).
  destruct (H1 eq_refl) as [Hquad _].
  destruct (Hquad eq_refl) as (r1 & r2 & -> & -> & Hcells).
  destruct (H2 eq_refl) as [_ Hlin].
  destruct (Hlin eq_refl) as (r3 & -> & -> & _).
  exists r1, r2, r3. split; [exact Hrun|].
  destruct (Hcells 0%nat 0%nat 0%nat 0 1 eq_refl eq_refl) as [Hneg _].
  exact (Hneg eq_refl).
Defined.

Lemma fitting_all_fixed_witness :
  exists s',
    fitting ext_ref sci_ref ranges_demo (pmap Some v_demo) "channelfit" false true ∅ s_demo
      = (s', Ok (report_events "channelfit" (to_list v_demo) (to_list v_demo)
                   (to_list v_demo) (to_list v_demo))) /\
    s' !! "popt" = Some (VDict (zip paramkeys (to_list v_demo))).
Proof.
  destruct (fitting_all_fixed ext_ref sci_ref ranges_demo v_demo "channelfit" false true ∅
              s_demo (fitting_caches ext_ref (pmap Some v_demo) s_demo).1)
    as (s' & H & Hp & _).
  - apply run_split. vm_compute. reflexivity.
  - reflexivity.
  - exists s'. split; assumption.
Defined.

Lemma fitting_ignores_range_of_fixed_witness :
  free_ranges fixed_pI ranges_demo = free_ranges fixed_pI ranges_wide /\
  fitting ext_ref sci_ref ranges_demo fixed_pI "channelfit" false false ∅
  = fitting ext_ref sci_ref ranges_wide fixed_pI "channelfit" false false ∅.
Proof.
  split; [reflexivity|].
  apply (fitting_ignores_range_of_fixed ext_ref sci_ref ranges_demo ranges_wide fixed_pI).
  reflexivity.
Defined.

(** Against C9: a call that gives every parameter both a fixed value and
    a range returns normally with the fixed values in all four rows; and a
    call that gives [pI] the fixed value 0 and the range (-2, 2) reaches
    the sampler, whose prior limits have ten columns (the range of [pI] is
    dropped), and ends with [pI = 0] in [popt]. *)
Lemma fitting_fixed_and_range_counterexample :
  (fitting ext_ref sci_ref ranges_demo (pmap Some v_demo) "channelfit" false true ∅
     s_demo).2
    = Ok (report_events "channelfit" (to_list v_demo) (to_list v_demo)
            (to_list v_demo) (to_list v_demo)) /\
  (let run := fitting ext_ref sci_ref ranges_demo fixed_pI "channelfit" false false ∅
                s_free in
   let row := [1; 1; 0.25; 0.25; 0.25; 0; 0; -100; -100; -0.25; -45] in
   run.2 = Ok (EvSample [[0; 0; 0.25; 0.25; 0.25; 0; -100; -100; -0.25; -45];
                         [0; 0; 1; 1; 1; 1000; 100; 100; 0.25; 45]]
               :: report_events "channelfit" row row row row) /\
   run.1 !! "popt" = Some (VDict (zip paramkeys row))).
Proof. vm_compute. repeat split; reflexivity. Qed.

End Fit.

(** * Further properties of the code *)

(** ** The order of binary64 values *)

(** Comparisons of numpy floats decide the velocity windows of [makegrid],
    the channel split of [modeltofits] and the reductions [np.min] and
    [np.max].  Away from NaN the comparison of [spec_float]s is a total
    order. *)

Module FltOrder.
Local Open Scope float_scope.

Definition not_gt (c : comparison) : bool :=
  match c with Gt => false | _ => true end.

Lemma Pos_compare_cont_trans p q r c1 c2 :
  Pos.compare_cont Eq p q = c1 -> Pos.compare_cont Eq q r = c2 ->
  not_gt c1 = true -> not_gt c2 = true ->
  Pos.compare_cont Eq p r = match c1, c2 with Eq, Eq => Eq | _, _ => Lt end.
Proof.
  change (Pos.compare_cont Eq) with Pos.compare. intros <- <-.
  destruct (Pos.compare_spec p q), (Pos.compare_spec q r); simpl; try discriminate;
    intros _ _; subst.
  - apply Pos.compare_refl.
  - apply Pos.compare_lt_iff. assumption.
  - apply Pos.compare_lt_iff. assumption.
  - apply Pos.compare_lt_iff. lia.
Qed.

Lemma Pos_compare_cont_trans_opp p q r c1 c2 :
  CompOpp (Pos.compare_cont Eq p q) = c1 -> CompOpp (Pos.compare_cont Eq q r) = c2 ->
  not_gt c1 = true -> not_gt c2 = true ->
  CompOpp (Pos.compare_cont Eq p r) = match c1, c2 with Eq, Eq => Eq | _, _ => Lt end.
Proof.
  change (Pos.compare_cont Eq) with Pos.compare. intros <- <-.
  destruct (Pos.compare_spec p q), (Pos.compare_spec q r); simpl; try discriminate;
    intros _ _; subst.
  - rewrite Pos.compare_refl. reflexivity.
  - rewrite (proj2 (Pos.compare_gt_iff _ _)); [reflexivity|assumption].
  - rewrite (proj2 (Pos.compare_gt_iff _ _)); [reflexivity|assumption].
  - rewrite (proj2 (Pos.compare_gt_iff _ _)); [reflexivity|lia].
Qed.

(** The comparison of [spec_float]s is transitive. *)
Lemma SFcompare_trans x y z c1 c2 :
  SFcompare x y = Some c1 -> SFcompare y z = Some c2 ->
  not_gt c1 = true -> not_gt c2 = true ->
  SFcompare x z = Some (match c1, c2 with Eq, Eq => Eq | _, _ => Lt end).
Proof.
  destruct x as [[]|[]| |[] mx ex], y as [[]|[]| |[] my ey], z as [[]|[]| |[] mz ez];
    simpl; intros H1 H2 G1 G2; try discriminate;
    try (destruct c1; try discriminate G1; destruct c2; try discriminate G2;
         first [reflexivity | discriminate H1 | discriminate H2]).
  - injection H1 as H1. injection H2 as H2. f_equal.
    destruct (Z.compare_spec ex ey), (Z.compare_spec ey ez); subst; simpl in *;
      try discriminate.
    + rewrite Z.compare_refl. apply (Pos_compare_cont_trans_opp mx my mz _ _ eq_refl eq_refl G1 G2).
    + rewrite (proj2 (Z.compare_gt_iff _ _)) by assumption.
      destruct (CompOpp _); try discriminate; reflexivity.
    + rewrite (proj2 (Z.compare_gt_iff _ _)) by assumption.
      destruct (CompOpp _); try discriminate; reflexivity.
    + rewrite (proj2 (Z.compare_gt_iff _ _)) by lia. reflexivity.
  - injection H1 as H1. injection H2 as H2. f_equal.
    destruct (Z.compare_spec ex ey), (Z.compare_spec ey ez); subst; simpl in *;
      try discriminate.
    + rewrite Z.compare_refl. apply (Pos_compare_cont_trans mx my mz _ _ eq_refl eq_refl G1 G2).
    + rewrite (proj2 (Z.compare_lt_iff _ _)) by assumption.
      destruct (Pos.compare_cont _ _ _); try discriminate; reflexivity.
    + rewrite (proj2 (Z.compare_lt_iff _ _)) by assumption.
      destruct (Pos.compare_cont _ _ _); try discriminate; reflexivity.
    + rewrite (proj2 (Z.compare_lt_iff _ _)) by lia. reflexivity.
Qed.

(** Two floats that are not NaN compare. *)
Lemma compare_not_nan x y :
  is_nan x = false -> is_nan y = false ->
  exists c, SFcompare (Prim2SF x) (Prim2SF y) = Some c.
Proof.
  rewrite !Flt.is_nan_SF.
  destruct (Prim2SF x) as [[]|[]| |[] mx ex], (Prim2SF y) as [[]|[]| |[] my ey];
    simpl; intros; try discriminate; eauto.
Qed.

Lemma compare_Some_not_nan x y c :
  SFcompare (Prim2SF x) (Prim2SF y) = Some c -> is_nan x = false /\ is_nan y = false.
Proof.
  rewrite !Flt.is_nan_SF.
  destruct (Prim2SF x) as [[]|[]| |[] mx ex], (Prim2SF y) as [[]|[]| |[] my ey];
    simpl; intros; try discriminate; split; reflexivity.
Qed.

Lemma ltb_not_nan x y : (x <? y) = true -> is_nan x = false /\ is_nan y = false.
Proof.
  rewrite ltb_spec. unfold SFltb.
  destruct (SFcompare _ _) as [c|] eqn:E; [|discriminate].
  intros _. eapply compare_Some_not_nan, E.
Qed.

Lemma leb_not_nan x y : (x <=? y) = true -> is_nan x = false /\ is_nan y = false.
Proof.
  rewrite leb_spec. unfold SFleb.
  destruct (SFcompare _ _) as [c|] eqn:E; [|discriminate].
  intros _. eapply compare_Some_not_nan, E.
Qed.

(** Without NaN the order is total. *)
Lemma leb_negb_ltb x y :
  is_nan x = false -> is_nan y = false -> (y <=? x) = negb (x <? y).
Proof.
  intros Hx Hy. destruct (compare_not_nan x y Hx Hy) as [c Hc].
  rewrite ltb_spec, leb_spec. unfold SFltb, SFleb.
  rewrite (Flt.SFcompare_antisym (Prim2SF x) (Prim2SF y)), Hc.
  destruct c; reflexivity.
Qed.

Lemma ltb_leb_trans x y z : (x <? y) = true -> (y <=? z) = true -> (x <? z) = true.
Proof.
  rewrite !ltb_spec, leb_spec. unfold SFltb, SFleb.
  destruct (SFcompare (Prim2SF x) (Prim2SF y)) as [c1|] eqn:E1; [|discriminate].
  destruct (SFcompare (Prim2SF y) (Prim2SF z)) as [c2|] eqn:E2; [|discriminate].
  intros H1 H2.
  rewrite (SFcompare_trans _ _ _ c1 c2 E1 E2) by (destruct c1, c2; try discriminate; reflexivity).
  destruct c1, c2; try discriminate; reflexivity.
Qed.

Lemma leb_ltb_trans x y z : (x <=? y) = true -> (y <? z) = true -> (x <? z) = true.
Proof.
  rewrite !ltb_spec, leb_spec. unfold SFltb, SFleb.
  destruct (SFcompare (Prim2SF x) (Prim2SF y)) as [c1|] eqn:E1; [|discriminate].
  destruct (SFcompare (Prim2SF y) (Prim2SF z)) as [c2|] eqn:E2; [|discriminate].
  intros H1 H2.
  rewrite (SFcompare_trans _ _ _ c1 c2 E1 E2) by (destruct c1, c2; try discriminate; reflexivity).
  destruct c1, c2; try discriminate; reflexivity.
Qed.

Lemma leb_trans x y z : (x <=? y) = true -> (y <=? z) = true -> (x <=? z) = true.
Proof.
  rewrite !leb_spec. unfold SFleb.
  destruct (SFcompare (Prim2SF x) (Prim2SF y)) as [c1|] eqn:E1; [|discriminate].
  destruct (SFcompare (Prim2SF y) (Prim2SF z)) as [c2|] eqn:E2; [|discriminate].
  intros H1 H2.
  rewrite (SFcompare_trans _ _ _ c1 c2 E1 E2) by (destruct c1, c2; try discriminate; reflexivity).
  destruct c1, c2; try discriminate; reflexivity.
Qed.

Lemma ltb_leb x y : (x <? y) = true -> (x <=? y) = true.
Proof.
  rewrite ltb_spec, leb_spec. unfold SFltb, SFleb.
  destruct (SFcompare _ _) as [[]|]; try discriminate; reflexivity.
Qed.

End FltOrder.

(** ** [np.min] and [np.max] *)

Module Reduce.
Import Nd.
Local Open Scope float_scope.

Lemma leb_refl x : is_nan x = false -> (x <=? x) = true.
Proof.
  intros H. rewrite (FltOrder.leb_negb_ltb x x H H).
  destruct (x <? x) eqn:E; [|reflexivity].
  apply Flt.ltb_leb_false in E as E'. rewrite (FltOrder.ltb_leb _ _ E) in E'. discriminate.
Qed.

Lemma fmin_spec a b :
  is_nan a = false -> is_nan b = false ->
  (Flt.fmin a b = a \/ Flt.fmin a b = b) /\
  (Flt.fmin a b <=? a) = true /\ (Flt.fmin a b <=? b) = true.
Proof.
  intros Ha Hb. unfold Flt.fmin. rewrite Ha, Hb.
  destruct (b <? a) eqn:E.
  - split; [right; reflexivity|]. split; [apply FltOrder.ltb_leb, E|apply leb_refl, Hb].
  - split; [left; reflexivity|]. split; [apply leb_refl, Ha|].
    rewrite (FltOrder.leb_negb_ltb b a Hb Ha), E. reflexivity.
Qed.

Lemma fmax_spec a b :
  is_nan a = false -> is_nan b = false ->
  (Flt.fmax a b = a \/ Flt.fmax a b = b) /\
  (a <=? Flt.fmax a b) = true /\ (b <=? Flt.fmax a b) = true.
Proof.
  intros Ha Hb. unfold Flt.fmax. rewrite Ha, Hb.
  destruct (a <? b) eqn:E.
  - split; [right; reflexivity|]. split; [apply FltOrder.ltb_leb, E|apply leb_refl, Hb].
  - split; [left; reflexivity|]. split; [apply leb_refl, Ha|].
    rewrite (FltOrder.leb_negb_ltb a b Ha Hb), E. reflexivity.
Qed.

Lemma fold_fmin l acc :
  is_nan acc = false -> Forall (fun x => is_nan x = false) l ->
  let m := fold_left Flt.fmin l acc in
  m ∈ acc :: l /\ Forall (fun x => (m <=? x) = true) (acc :: l).
Proof.
  intros Ha Hl. revert acc Ha. induction Hl as [|x l Hx _ IH]; intros acc Ha; simpl.
  - split; [left|]. constructor; [apply leb_refl, Ha|constructor].
  - destruct (fmin_spec acc x Ha Hx) as (Hc & H1 & H2).
    assert (is_nan (Flt.fmin acc x) = false) as Hn by (destruct Hc as [-> | ->]; assumption).
    destruct (IH _ Hn) as [Hin Hall]. simpl in Hin, Hall.
    apply Forall_cons in Hall as [Hm Hall].
    split.
    + apply elem_of_cons in Hin as [->|Hin].
      * destruct Hc as [-> | ->]; [left|right; left].
      * right; right; exact Hin.
    + constructor; [eapply FltOrder.leb_trans; eassumption|].
      constructor; [eapply FltOrder.leb_trans; eassumption|exact Hall].
Qed.

Lemma fold_fmax l acc :
  is_nan acc = false -> Forall (fun x => is_nan x = false) l ->
  let m := fold_left Flt.fmax l acc in
  m ∈ acc :: l /\ Forall (fun x => (x <=? m) = true) (acc :: l).
Proof.
  intros Ha Hl. revert acc Ha. induction Hl as [|x l Hx _ IH]; intros acc Ha; simpl.
  - split; [left|]. constructor; [apply leb_refl, Ha|constructor].
  - destruct (fmax_spec acc x Ha Hx) as (Hc & H1 & H2).
    assert (is_nan (Flt.fmax acc x) = false) as Hn by (destruct Hc as [-> | ->]; assumption).
    destruct (IH _ Hn) as [Hin Hall]. simpl in Hin, Hall.
    apply Forall_cons in Hall as [Hm Hall].
    split.
    + apply elem_of_cons in Hin as [->|Hin].
      * destruct Hc as [-> | ->]; [left|right; left].
      * right; right; exact Hin.
    + constructor; [eapply FltOrder.leb_trans; eassumption|].
      constructor; [eapply FltOrder.leb_trans; eassumption|exact Hall].
Qed.

(** [np.min] of an array without NaN is one of its elements and a lower
    bound of all of them; [np.max] likewise. *)
Lemma np_min_spec l m :
  Forall (fun x => is_nan x = false) l -> Moments.np_min l = Ok m ->
  m ∈ l /\ Forall (fun x => (m <=? x) = true) l.
Proof.
  unfold Moments.np_min. destruct l as [|a l]; [discriminate|]. simpl.
  intros Hl [= <-]. apply Forall_cons in Hl as [Ha Hl]. apply (fold_fmin l a Ha Hl).
Qed.

Lemma np_max_spec l m :
  Forall (fun x => is_nan x = false) l -> Scale.np_max l = Ok m ->
  m ∈ l /\ Forall (fun x => (x <=? m) = true) l.
Proof.
  unfold Scale.np_max. destruct l as [|a l]; [discriminate|]. simpl.
  intros Hl [= <-]. apply Forall_cons in Hl as [Ha Hl]. apply (fold_fmax l a Ha Hl).
Qed.

(** A NaN among the elements is the result of [np.max]. *)
Lemma fold_fmax_nan l : fold_left Flt.fmax l nan = nan.
Proof. induction l as [|x l IH]; [reflexivity|]. simpl. exact IH. Qed.

Lemma np_max_nan l : nan ∈ l -> Scale.np_max l = Ok nan.
Proof.
  unfold Scale.np_max. destruct l as [|a l]; [intros H; inversion H|]. simpl.
  intros H. f_equal. revert a H. induction l as [|x l IH]; intros a H.
  - apply elem_of_cons in H as [<-|H]; [reflexivity|inversion H].
  - simpl. apply elem_of_cons in H as [<-|H]; [apply fold_fmax_nan|].
    destruct (is_nan a) eqn:Ea.
    + apply Flt.is_nan_eq in Ea as ->. apply fold_fmax_nan.
    + apply IH. apply elem_of_cons in H as [<-|H].
      * replace (Flt.fmax a nan) with nan by (unfold Flt.fmax; rewrite Ea; reflexivity).
        left.
      * right. exact H.
Qed.

End Reduce.

(** ** [makemom01], lines 60-70 *)

Module MomentsFacts.
Import Nd Moments.
Local Open Scope float_scope.

Lemma diffs_nil v : diffs v = [] <-> (length v < 2)%nat.
Proof.
  pose proof (Makegrid.length_diffs v) as H.
  split.
  - intros E. rewrite E in H. simpl in H. lia.
  - intros Hl. apply nil_length_inv. lia.
Qed.

(** X1.  [makemom01] returns exactly when the velocity axis has at least
    two channels and the cube has as many channels as there are velocities,
    or a single channel, which numpy broadcasts.  Every other call raises
    [ValueError]: the minimum of no channel spacing, or shapes that do not
    broadcast. *)
Theorem makemom01_returns_iff d v sigma :
  (is_ok (makemom01 d v sigma) = true <->
   (2 <= length v)%nat /\ (length d = length v \/ length d = 1%nat)) /\
  (is_ok (makemom01 d v sigma) = false ->
   exists what, makemom01 d v sigma = Raise (ValueError what)).
Proof.
  split; [|unfold makemom01, weighted_sum, np_min, broadcast_channels;
           destruct (Flt.reduce Flt.fmin (diffs v)); simpl; [|eauto];
           destruct (decide _); simpl; [discriminate|];
           destruct d as [|c [|c' d]]; simpl; try discriminate; eauto].
  unfold makemom01, weighted_sum, np_min.
  destruct (Flt.reduce Flt.fmin (diffs v)) as [dv|] eqn:Ed; simpl.
  - assert (2 <= length v)%nat as H2.
    { destruct (diffs v) eqn:E; [discriminate|].
      pose proof (Makegrid.length_diffs v) as H. rewrite E in H. simpl in H. lia. }
    unfold broadcast_channels.
    destruct (decide (length d = length v)) as [Hl|Hl]; simpl.
    + split; [intros _; split; [exact H2|left; exact Hl]|reflexivity].
    + destruct d as [|c [|c' d]]; simpl.
      * split; [discriminate|]. intros [_ [H|H]]; [destruct (Hl H)|discriminate H].
      * split; [intros _; split; [exact H2|right; reflexivity]|reflexivity].
      * split; [discriminate|]. intros [_ [H|H]]; [destruct (Hl H)|discriminate H].
  - assert (length v < 2)%nat as H2.
    { apply diffs_nil. destruct (diffs v); [reflexivity|discriminate]. }
    split; [discriminate|]. intros [H _]. lia.
Qed.


(** A pixel below the moment-0 threshold: the two-channel cube [d_17] with
    noise level 10 has moment-0 8 and threshold 3 * 10 * sqrt 2. *)
Lemma makemom01_mom1_masked_witness :
  exists m r,
    makemom01 d_17 v_01 10 = Ok m /\ at2 (mom1 m) 0 0 = Some r /\ r = nan.
Proof.
  eexists _, _. split; [vm_compute; reflexivity|]. split; [vm_compute; reflexivity|].
  eapply (makemom01_mom1_masked d_17 v_01 10 _ 0 0); vm_compute; reflexivity.
Defined.

Lemma sum_nan_acc l : fold_left PrimFloat.add l nan = nan.
Proof. induction l as [|x l IH]; [reflexivity|]. simpl. rewrite Flt.add_nan_l. exact IH. Qed.

(** Adding up images: a pixel that every image holds keeps a value, and a
    NaN at that pixel in the running sum or in one of the images stays. *)
Lemma fold_add_some (r : cube) (acc : img) i j :
  is_Some (at2 acc i j) -> Forall (fun im => is_Some (at2 im i j)) r ->
  is_Some (at2 (fold_left (img_map2 PrimFloat.add) r acc) i j).
Proof.
  intros Ha Hr. revert acc Ha. induction Hr as [|im r [y Hy] _ IH]; intros acc [x Hx];
    simpl; [eauto|].
  apply IH. unfold img_map2. rewrite at2_zip_with, Hx, Hy. eauto.
Qed.

Lemma fold_add_nan_acc (r : cube) (acc : img) i j :
  at2 acc i j = Some nan -> Forall (fun im => is_Some (at2 im i j)) r ->
  at2 (fold_left (img_map2 PrimFloat.add) r acc) i j = Some nan.
Proof.
  intros Ha Hr. revert acc Ha. induction Hr as [|im r [y Hy] _ IH]; intros acc Hx;
    simpl; [exact Hx|].
  apply IH. unfold img_map2. rewrite at2_zip_with, Hx, Hy. rewrite Flt.add_nan_l. reflexivity.
Qed.

Lemma fold_add_nan (r : cube) (acc : img) i j k im :
  is_Some (at2 acc i j) -> Forall (fun im => is_Some (at2 im i j)) r ->
  r !! k = Some im -> at2 im i j = Some nan ->
  at2 (fold_left (img_map2 PrimFloat.add) r acc) i j = Some nan.
Proof.
  intros Ha Hr. revert acc k Ha. induction Hr as [|im' r [y Hy] Hr IH]; intros acc k [x Hx] Hk Hn;
    [discriminate|].
  simpl. destruct k as [|k]; simpl in Hk.
  - injection Hk as ->. apply fold_add_nan_acc; [|exact Hr].
    unfold img_map2. rewrite at2_zip_with, Hx, Hn. rewrite Flt.add_nan_r. reflexivity.
  - apply (IH _ k); [|exact Hk|exact Hn].
    unfold img_map2. rewrite at2_zip_with, Hx, Hy. eauto.
Qed.

Lemma sum_axis0_nan (d : cube) i j k im :
  Forall (fun im => is_Some (at2 im i j)) d ->
  d !! k = Some im -> at2 im i j = Some nan ->
  at2 (sum_axis0 d) i j = Some nan.
Proof.
  intros Hd Hk Hn. destruct d as [|c r]; [discriminate|]. simpl.
  apply Forall_cons in Hd as [Hc Hr]. destruct k as [|k]; simpl in Hk.
  - injection Hk as ->. apply fold_add_nan_acc; assumption.
  - eapply fold_add_nan; eassumption.
Qed.

Lemma sum_axis0_some (d : cube) i j :
  d <> [] -> Forall (fun im => is_Some (at2 im i j)) d -> is_Some (at2 (sum_axis0 d) i j).
Proof.
  intros Hne Hd. destruct d as [|c r]; [congruence|]. simpl.
  apply Forall_cons in Hd as [Hc Hr]. apply fold_add_some; assumption.
Qed.

(** X3.  A blanked pixel stays blank: if one channel of the cube holds NaN
    at a pixel, the moment-0 and moment-1 maps that [makemom01] returns hold
    NaN at that pixel.  (The copy made by [np.nan_to_num] is not the array
    that is summed.) *)
Theorem makemom01_blank_pixel d v sigma m i j k im :
  makemom01 d v sigma = Ok m -> length d = length v ->
  Forall (fun im => is_Some (at2 im i j)) d ->
  d !! k = Some im -> at2 im i j = Some nan ->
  at2 (mom0 m) i j = Some nan /\ at2 (mom1 m) i j = Some nan.
Proof.
  intros H Hl Hd Hk Hn.
  pose proof (sum_axis0_nan d i j k im Hd Hk Hn) as Hs.
  unfold makemom01, weighted_sum, broadcast_channels in H.
  destruct (np_min (diffs v)) as [dv|]; [|discriminate]. simpl in H.
  rewrite decide_True in H by exact Hl. simpl in H. injection H as <-. simpl.
  split.
  - unfold img_map. rewrite at2_map, Hs. simpl. rewrite Flt.mul_nan_l. reflexivity.
  - unfold mask_set. rewrite at2_zip_with.
    unfold img_map2 at 1. rewrite at2_zip_with, Hs.
    destruct (sum_axis0_some
                (zip_with (fun c wk => img_map (fun x => x * wk) c) d v) i j) as [n Hnum].
    { destruct d; [discriminate|]. destruct v; [discriminate|]. discriminate. }
    { apply Forall_lookup. intros q c Hc.
      apply lookup_zip_with_Some in Hc as (c0 & w & -> & Hc0 & _).
      unfold img_map. rewrite at2_map.
      destruct (proj1 (Forall_lookup _ _) Hd q c0 Hc0) as [x ->]. eauto. }
    rewrite Hnum. unfold img_map. rewrite !at2_map, Hs. simpl.
    rewrite Flt.div_nan_r. destruct (_ <? _); reflexivity.
Qed.


Lemma makemom01_blank_pixel_witness :
  exists m,
    makemom01 [ [[nan]]; [[7]] ] v_01 1 = Ok m /\
    at2 (mom0 m) 0 0 = Some nan /\ at2 (mom1 m) 0 0 = Some nan.
Proof.
  eexists. split; [vm_compute; reflexivity|].
  eapply (makemom01_blank_pixel [ [[nan]]; [[7]] ] v_01 1 _ 0 0 0 [[nan]]).
  - vm_compute. reflexivity.
  - reflexivity.
  - repeat constructor; eexists; reflexivity.
  - reflexivity.
  - reflexivity.
Defined.

End MomentsFacts.

(** ** [get_scale], lines 390-408 *)

Module ScaleFacts.
Import Nd Scale.
Local Open Scope float_scope.

(** X4.  The constructor accepts any string as scaling policy; with a
    policy other than the four that [get_scale] knows, no branch assigns
    [gf] and the call raises [UnboundLocalError] at line 404, whatever the
    model cube. *)
Theorem get_scale_unknown_policy c Iout output :
  scaling c <> "chi2" -> scaling c <> "peak" -> scaling c <> "mom0" ->
  scaling c <> "uniform" ->
  get_scale c Iout output = Raise (UnboundLocalError "gf").
Proof.
  intros H1 H2 H3 H4. unfold get_scale, gf_ff.
  rewrite !decide_False by assumption. reflexivity.
Qed.

(** The policy of the example script. *)
Lemma get_scale_unknown_policy_witness :
  get_scale (ctx_of "mom0ft" data_52) model_01 false = Raise (UnboundLocalError "gf").
Proof. apply get_scale_unknown_policy; discriminate. Defined.

End ScaleFacts.

(** ** [peaktounity], lines 410-415 *)

Module PeakFacts.
Import Nd.
Local Open Scope float_scope.

(** A float that is neither NaN nor infinite, times zero, is a zero. *)
Lemma mul_zero_finite x :
  is_nan x = false -> (abs x =? infinity) = false -> (x * 0 =? 0) = true.
Proof.
  intros Hn Hi. rewrite Flt.is_nan_SF in Hn. rewrite FloatAxioms.eqb_spec, FloatAxioms.abs_spec in Hi.
  rewrite FloatAxioms.eqb_spec, FloatAxioms.mul_spec.
  change (Prim2SF 0) with (S754_zero false) in *.
  change (Prim2SF infinity) with (S754_infinity false) in *.
  destruct (Prim2SF x) as [[]|[]| |[] mx ex]; simpl in *; try discriminate; reflexivity.
Qed.

Lemma mapM_result_lookup_Ok {A B} (f : A -> result B) l r k x :
  mapM f l = Ok r -> l !! k = Some x -> exists y, f x = Ok y /\ r !! k = Some y.
Proof.
  revert r k. induction l as [|a l IH]; intros r k H Hk; [discriminate|].
  simpl in H. destruct (f a) as [b|] eqn:Eb; [|discriminate]. simpl in H.
  destruct (mapM f l) as [r'|] eqn:Er; [|discriminate]. simpl in H. injection H as <-.
  destruct k as [|k]; simpl in *.
  - injection Hk as <-. eauto.
  - apply (IH r' k eq_refl Hk).
Qed.

Lemma mapM_result_length {A B} (f : A -> result B) l r :
  mapM f l = Ok r -> length r = length l.
Proof.
  revert r. induction l as [|a l IH]; intros r H; [injection H as <-; reflexivity|].
  simpl in H. destruct (f a) as [b|]; [|discriminate]. simpl in H.
  destruct (mapM f l) as [r'|] eqn:Er; [|discriminate]. simpl in H. injection H as <-.
  simpl. f_equal. apply IH. reflexivity.
Qed.

Lemma mapM_result_is_ok {A B} (f : A -> result B) l :
  is_ok (mapM f l) = forallb (fun x => is_ok (f x)) l.
Proof.
  induction l as [|a l IH]; [reflexivity|]. simpl.
  destruct (f a); simpl; [|reflexivity]. rewrite <- IH. destruct (mapM f l); reflexivity.
Qed.

Lemma peaktounity_lookup I_in O k c :
  Fit.peaktounity I_in = Ok O -> I_in !! k = Some c ->
  exists m,
    Scale.np_max (pixels c) = Ok m /\
    O !! k = Some (img_map (fun x => x * (if m =? 0 then 0 else 1 / m)) c).
Proof.
  unfold Fit.peaktounity. intros H Hk.
  destruct (Scale.max_axis12 I_in) as [xypeak|] eqn:Ep; [|discriminate].
  simpl in H. injection H as <-.
  destruct (mapM_result_lookup_Ok _ _ _ _ _ Ep Hk) as (m & Hm & Hx).
  exists m. split; [exact Hm|].
  rewrite lookup_zip_with, Hk. simpl. rewrite list_lookup_fmap, Hx. reflexivity.
Qed.

(** X5.  [peaktounity] scales each channel by the inverse of its peak.  A
    NaN pixel makes the peak NaN and with it the whole channel; a channel
    whose peak is 0 is multiplied by 0, not by 1/0, so that its finite
    pixels become zeros. *)
Theorem peaktounity_blank_and_zero I_in O k c :
  Fit.peaktounity I_in = Ok O -> I_in !! k = Some c ->
  (nan ∈ pixels c -> O !! k = Some (img_map (fun _ => nan) c)) /\
  (forall m, Scale.np_max (pixels c) = Ok m -> (m =? 0) = true ->
     forall i j x, at2 c i j = Some x ->
       is_nan x = false -> (abs x =? infinity) = false ->
       exists y, Disk.at3 O k i j = Some y /\ (y =? 0) = true).
Proof.
  intros H Hk. destruct (peaktounity_lookup I_in O k c H Hk) as (m & Hm & HO).
  split.
  - intros Hn. rewrite (Reduce.np_max_nan _ Hn) in Hm. injection Hm as <-.
    rewrite HO. f_equal. unfold img_map. apply map_ext. intros r. apply map_ext. intros x.
    change (nan =? 0) with false. cbv iota. rewrite Flt.div_nan_r. apply Flt.mul_nan_r.
  - intros m' Hm' Hz i j x Hx Hnan Hinf. rewrite Hm in Hm'. injection Hm' as <-.
    exists (x * 0). split; [|apply mul_zero_finite; assumption].
    unfold Disk.at3. rewrite HO. simpl. rewrite Hz.
    unfold img_map. rewrite at2_map, Hx. reflexivity.
Qed.

(** [peaktounity] raises exactly when a channel has no pixel. *)
Lemma peaktounity_is_ok I_in :
  is_ok (Fit.peaktounity I_in)
  = forallb (fun c => match pixels c with [] => false | _ => true end) I_in.
Proof.
  unfold Fit.peaktounity, Scale.max_axis12.
  pose proof (mapM_result_is_ok (fun c => Scale.np_max (pixels c)) I_in) as H.
  transitivity (is_ok (mapM (fun c => Scale.np_max (pixels c)) I_in)).
  { destruct (mapM _ I_in); reflexivity. }
  rewrite H. clear H. induction I_in as [|c I IH]; [reflexivity|]. simpl. rewrite IH.
  f_equal. unfold Scale.np_max. destruct (pixels c); reflexivity.
Qed.


Definition I_peak : cube := [ [[1; nan]]; [[0; -2]] ].

Lemma peaktounity_blank_and_zero_witness :
  exists O,
    Fit.peaktounity I_peak = Ok O /\
    O !! 0%nat = Some [[nan; nan]] /\
    exists y, Disk.at3 O 1 0 1 = Some y /\ (y =? 0) = true.
Proof.
  eexists. split; [vm_compute; reflexivity|]. split.
  - apply (proj1 (peaktounity_blank_and_zero I_peak _ 0 [[1; nan]] eq_refl eq_refl)).
    right. left.
  - apply (proj2 (peaktounity_blank_and_zero I_peak _ 1 [[0; -2]] eq_refl eq_refl)
             0 eq_refl eq_refl 0%nat 1%nat (-2)); reflexivity.
Defined.

End PeakFacts.

(** ** [get_Iout], lines 361-377 *)

Module RasterFacts.
Import Nd Raster.
Local Open Scope float_scope.

Section WithExt.
Variable E : ext.

Lemma sum_branches_none self Mstar pI offvsys slots Iout (h : store) :
  Forall (fun p => p.1 = None) slots ->
  sum_branches E self Mstar pI offvsys slots Iout h = (h, Ok Iout).
Proof.
  induction 1 as [|[v x] slots Hv _ IH]; [reflexivity|].
  simpl in Hv. subst v. exact IH.
Qed.

Lemma Forall_zip_fst {A B} (P : A -> Prop) (a : list A) (b : list B) :
  Forall P a -> Forall (fun p => P p.1) (zip a b).
Proof.
  intros H. revert b. induction H as [|x a Hx _ IH]; intros [|y b]; constructor; auto.
Qed.

(** X6.  When no slot of [self.vlos] holds a velocity field (both flare
    ratios negative: [update_xdisk] leaves four [None] and [update_vlos]
    maps them to [None]), the loop adds nothing, [Iout] is still the
    integer 0 and the first subscript of it raises [TypeError]; the store is
    as before. *)
Theorem get_Iout_no_branch self Mstar pI offvsys (h : store) :
  Forall (fun o => o = None) (vlos self) ->
  get_Iout E self Mstar pI offvsys h
  = (h, Raise (TypeError "int object is not subscriptable")).
Proof.
  intros Hn. unfold get_Iout.
  unfold mbind at 1, S_bind at 1.
  rewrite sum_branches_none by (apply (Forall_zip_fst (fun o => o = None)), Hn).
  destruct (layers_down (nlayer self)) as [|l ls]; reflexivity.
Qed.

(** The same object with other corrected coordinates and another [Ynest]. *)
Definition with_coordinates (self : rself) (xd : list (option loc)) (Y : loc) : rself :=
  {| vlos := vlos self; xdisk := xd; v_valid := v_valid self; prof := prof self;
     Ynest := Y; dv := dv self; prof_d := prof_d self; prof_n := prof_n self;
     nlayer := nlayer self; nq1 := nq1 self; nq3 := nq3 self;
     ineed0 := ineed0 self; ineed1 := ineed1 self |}.

Lemma add_branch_flat self xd Y Mstar pI offvsys Iout v (a a' : option loc) (h : store) :
  (pI =? 0) = true ->
  add_branch E (with_coordinates self xd Y) Mstar pI offvsys Iout v a' h
  = add_branch E self Mstar pI offvsys Iout v a h.
Proof. intros HpI. unfold add_branch. rewrite HpI. reflexivity. Qed.

Lemma sum_branches_flat self xd Y Mstar pI offvsys vl (x x' : list (option loc)) Iout
    (h : store) :
  (pI =? 0) = true -> length x = length x' ->
  sum_branches E (with_coordinates self xd Y) Mstar pI offvsys (zip vl x') Iout h
  = sum_branches E self Mstar pI offvsys (zip vl x) Iout h.
Proof.
  intros HpI. revert x x' Iout h.
  induction vl as [|v vl IH]; intros [|a x] [|a' x'] Iout h Hl; try discriminate Hl;
    try reflexivity.
  injection Hl as Hl. simpl. destruct v as [v|]; [|apply IH, Hl].
  unfold mbind, S_bind. rewrite (add_branch_flat self xd Y _ _ _ _ _ a a' h HpI).
  destruct (add_branch E self Mstar pI offvsys Iout v a h) as [h1 [l|e]];
    [apply IH, Hl|reflexivity].
Qed.

(** X7.  With [pI = 0] the power-law weighting of line 370 is skipped:
    [get_Iout] reads neither the corrected coordinates [self.xdisk] nor
    [Ynest], so that any other coordinates (in as many slots) give the same
    outcome and the same store. *)
Theorem get_Iout_flat_profile self xd Y Mstar pI offvsys (h : store) :
  (pI =? 0) = true -> length xd = length (xdisk self) ->
  get_Iout E (with_coordinates self xd Y) Mstar pI offvsys h
  = get_Iout E self Mstar pI offvsys h.
Proof.
  intros HpI Hl. unfold get_Iout. unfold mbind at 1 3, S_bind at 1 3.
  change (vlos (with_coordinates self xd Y)) with (vlos self).
  change (xdisk (with_coordinates self xd Y)) with xd.
  rewrite (sum_branches_flat self xd Y Mstar pI offvsys (vlos self) (xdisk self) xd None h HpI)
    by (symmetry; exact Hl).
  reflexivity.
Qed.

End WithExt.

Definition self_none : rself :=
  {| vlos := [None; None; None; None]; xdisk := [None; None; None; None];
     v_valid := 1%positive; prof := 2%positive; Ynest := 3%positive;
     dv := 1; prof_d := 1; prof_n := 44; nlayer := 4; nq1 := 1; nq3 := 3;
     ineed0 := 0; ineed1 := 4 |}.

Lemma get_Iout_no_branch_witness :
  get_Iout ext_ref self_none 1 0 0 ∅
  = (∅, Raise (TypeError "int object is not subscriptable")).
Proof. apply get_Iout_no_branch. repeat constructor. Defined.

Definition self_one : rself :=
  {| vlos := [Some 4%positive]; xdisk := [None];
     v_valid := 1%positive; prof := 2%positive; Ynest := 3%positive;
     dv := 1; prof_d := 1; prof_n := 0; nlayer := 1; nq1 := 0; nq3 := 0;
     ineed0 := 0; ineed1 := 1 |}.

Definition store_one : store :=
  <[4%positive := A3 [[[0]]]]> (<[2%positive := A1 [1]]> (<[1%positive := A1 [0]]> ∅)).

Lemma get_Iout_flat_profile_witness :
  get_Iout ext_ref (with_coordinates self_one [Some 5%positive] 6%positive) 1 0 0 store_one
  = get_Iout ext_ref self_one 1 0 0 store_one.
Proof. apply get_Iout_flat_profile; reflexivity. Defined.

End RasterFacts.

(** ** [avefour], lines 39-42, and the layer fold of [get_Iout] *)

Module BlockFacts.
Import Nd.
Local Open Scope nat_scope.

Lemma list_ind2 {A} (P : list A -> Prop) :
  P [] -> (forall x, P [x]) -> (forall x y l, P l -> P (x :: y :: l)) ->
  forall l, P l.
Proof.
  intros H0 H1 H2. fix IH 1. intros [|x [|y l]]; [exact H0|apply H1|apply H2, IH].
Qed.

Lemma evens_lookup {A} (l : list A) i : Raster.evens l !! i = l !! (2 * i)%nat.
Proof.
  revert i. induction l as [|x|x y l IH] using list_ind2; intros [|i]; try reflexivity.
  simpl Raster.evens. rewrite lookup_cons_ne_0 by lia. simpl pred.
  rewrite IH. replace (2 * S i)%nat with (S (S (2 * i)%nat)) by lia. reflexivity.
Qed.

Lemma odds_lookup {A} (l : list A) i : Raster.odds l !! i = l !! (2 * i + 1)%nat.
Proof.
  unfold Raster.odds. rewrite evens_lookup. destruct l as [|x l]; [reflexivity|].
  simpl tail. replace (2 * i + 1)%nat with (S (2 * i)%nat) by lia. reflexivity.
Qed.

Lemma length_evens {A} (l : list A) m : length l = (2 * m)%nat -> length (Raster.evens l) = m.
Proof.
  revert m. induction l as [|x|x y l IH] using list_ind2; intros m H; simpl in *.
  - lia.
  - lia.
  - destruct m as [|m]; [lia|]. rewrite (IH m); lia.
Qed.

Lemma length_odds {A} (l : list A) m : length l = (2 * m)%nat -> length (Raster.odds l) = m.
Proof.
  unfold Raster.odds. destruct l as [|x l]; simpl; [lia|]. revert x m.
  induction l as [|y|y z l IH] using list_ind2; intros x m H; simpl in *.
  - lia.
  - destruct m as [|[|m]]; simpl; lia.
  - destruct m as [|m]; [lia|]. rewrite (IH z m); lia.
Qed.

Lemma mapM_result_Ok {A B} (f : A -> result B) (g : A -> B) l :
  Forall (fun x => f x = Ok (g x)) l -> mapM f l = Ok (map g l).
Proof.
  induction 1 as [|x l Hx _ IH]; [reflexivity|].
  simpl. rewrite Hx. simpl. rewrite IH. reflexivity.
Qed.

Lemma bzip_same {A B C} (f : A -> B -> result C) (g : A -> B -> C) a b :
  Forall2 (fun x y => f x y = Ok (g x y)) a b -> Raster.bzip f a b = Ok (zip_with g a b).
Proof.
  intros H. unfold Raster.bzip. rewrite decide_True by (eapply Forall2_length, H).
  rewrite (mapM_result_Ok _ (fun p => g p.1 p.2)).
  - f_equal. induction H; simpl; [reflexivity|]. f_equal. assumption.
  - induction H; simpl; constructor; assumption.
Qed.

Definition shaped (m n : nat) (a : img) : Prop :=
  length a = m /\ Forall (fun r => length r = n) a.

Lemma img_add_same m n a b :
  shaped m n a -> shaped m n b ->
  Raster.img_add a b = Ok (img_map2 PrimFloat.add a b) /\ shaped m n (img_map2 PrimFloat.add a b).
Proof.
  intros [Ha Hra] [Hb Hrb]. unfold Raster.img_add, img_map2.
  assert (Forall2 (fun r r' => length r = length r') a b) as H2.
  { apply Forall2_same_length_lookup_2; [lia|]. intros i r r' Hr Hr'.
    rewrite (proj1 (Forall_lookup _ _) Hra i r Hr), (proj1 (Forall_lookup _ _) Hrb i r' Hr').
    reflexivity. }
  split.
  - apply bzip_same. eapply Forall2_impl; [exact H2|]. intros r r' Hl. simpl in Hl.
    apply bzip_same. apply Forall2_same_length_lookup_2; [exact Hl|]. reflexivity.
  - split; [rewrite length_zip_with; lia|].
    apply Forall_lookup. intros i r Hr.
    apply lookup_zip_with_Some in Hr as (ra & rb & -> & Hra' & Hrb').
    rewrite length_zip_with.
    rewrite (proj1 (Forall_lookup _ _) Hra i ra Hra'), (proj1 (Forall_lookup _ _) Hrb i rb Hrb').
    lia.
Qed.

Lemma shaped_quarter (pick1 pick2 : forall A, list A -> list A) m n a :
  (forall A (l : list A) k, length l = (2 * k)%nat -> length (pick1 A l) = k) ->
  (forall A (l : list A) k, length l = (2 * k)%nat -> length (pick2 A l) = k) ->
  (forall A (l : list A) x, x ∈ pick1 A l -> x ∈ l) ->
  shaped (2 * m) (2 * n) a -> shaped m n (map (pick2 float) (pick1 _ a)).
Proof.
  intros H1 H2 Hin [Ha Hr]. split; [rewrite length_map; apply H1, Ha|].
  apply Forall_map. apply Forall_forall. intros r Hrin. simpl.
  apply H2. apply (proj1 (Forall_forall _ _) Hr). apply Hin, Hrin.
Qed.

Lemma elem_of_evens {A} (l : list A) x : x ∈ Raster.evens l -> x ∈ l.
Proof.
  intros [i Hi]%list_elem_of_lookup. rewrite evens_lookup in Hi.
  eapply list_elem_of_lookup_2, Hi.
Qed.
Lemma elem_of_odds {A} (l : list A) x : x ∈ Raster.odds l -> x ∈ l.
Proof.
  intros [i Hi]%list_elem_of_lookup. rewrite odds_lookup in Hi.
  eapply list_elem_of_lookup_2, Hi.
Qed.

Lemma at2_evens_evens (a : img) i j :
  at2 (map Raster.evens (Raster.evens a)) i j = at2 a (2 * i) (2 * j).
Proof.
  unfold at2. rewrite list_lookup_fmap, evens_lookup.
  destruct (a !! (2 * i)%nat); simpl; [apply evens_lookup|reflexivity].
Qed.
Lemma at2_evens_odds (a : img) i j :
  at2 (map Raster.odds (Raster.evens a)) i j = at2 a (2 * i) (2 * j + 1).
Proof.
  unfold at2. rewrite list_lookup_fmap, evens_lookup.
  destruct (a !! (2 * i)%nat); simpl; [apply odds_lookup|reflexivity].
Qed.
Lemma at2_odds_evens (a : img) i j :
  at2 (map Raster.evens (Raster.odds a)) i j = at2 a (2 * i + 1) (2 * j).
Proof.
  unfold at2. rewrite list_lookup_fmap, odds_lookup.
  destruct (a !! (2 * i + 1)%nat); simpl; [apply evens_lookup|reflexivity].
Qed.
Lemma at2_odds_odds (a : img) i j :
  at2 (map Raster.odds (Raster.odds a)) i j = at2 a (2 * i + 1) (2 * j + 1).
Proof.
  unfold at2. rewrite list_lookup_fmap, odds_lookup.
  destruct (a !! (2 * i + 1)%nat); simpl; [apply odds_lookup|reflexivity].
Qed.

Lemma avefour_even m n a :
  shaped (2 * m) (2 * n) a ->
  Raster.avefour a
  = Ok (img_map (fun x => x / 4)%float
          (img_map2 PrimFloat.add
             (img_map2 PrimFloat.add
                (img_map2 PrimFloat.add (map Raster.evens (Raster.evens a)) (map Raster.odds (Raster.evens a)))
                (map Raster.evens (Raster.odds a)))
             (map Raster.odds (Raster.odds a)))) /\
  shaped m n (img_map2 PrimFloat.add
             (img_map2 PrimFloat.add
                (img_map2 PrimFloat.add (map Raster.evens (Raster.evens a)) (map Raster.odds (Raster.evens a)))
                (map Raster.evens (Raster.odds a)))
             (map Raster.odds (Raster.odds a))).
Proof.
  intros Ha.
  pose proof (shaped_quarter (@Raster.evens) (@Raster.evens) m n a (@length_evens) (@length_evens)
                (@elem_of_evens) Ha) as H00.
  pose proof (shaped_quarter (@Raster.evens) (@Raster.odds) m n a (@length_evens) (@length_odds)
                (@elem_of_evens) Ha) as H01.
  pose proof (shaped_quarter (@Raster.odds) (@Raster.evens) m n a (@length_odds) (@length_evens)
                (@elem_of_odds) Ha) as H10.
  pose proof (shaped_quarter (@Raster.odds) (@Raster.odds) m n a (@length_odds) (@length_odds)
                (@elem_of_odds) Ha) as H11.
  destruct (img_add_same m n _ _ H00 H01) as [E1 S1].
  destruct (img_add_same m n _ _ S1 H10) as [E2 S2].
  destruct (img_add_same m n _ _ S2 H11) as [E3 S3].
  split; [|exact S3].
  unfold Raster.avefour. cbv zeta. rewrite E1. simpl. rewrite E2. simpl. rewrite E3. reflexivity.
Qed.

Lemma shaped_img_map f m n a : shaped m n a -> shaped m n (img_map f a).
Proof.
  intros [Hl Hr]. split; [unfold img_map; rewrite length_map; exact Hl|].
  unfold img_map. apply Forall_map. eapply Forall_impl; [exact Hr|].
  intros r Hlen. simpl. rewrite length_map. exact Hlen.
Qed.

(** X8.  On an image of [2 m] rows of [2 n] pixels, [avefour] returns the
    image of [m] rows of [n] pixels whose pixel [(i, j)] is the mean of the
    2 x 2 block at [(2 i, 2 j)], added up in the order of the source. *)
Theorem avefour_block_mean m n a :
  shaped (2 * m) (2 * n) a ->
  exists b,
    Raster.avefour a = Ok b /\ shaped m n b /\
    forall i j, (i < m)%nat -> (j < n)%nat ->
      exists x00 x01 x10 x11,
        at2 a (2 * i) (2 * j) = Some x00 /\ at2 a (2 * i) (2 * j + 1) = Some x01 /\
        at2 a (2 * i + 1) (2 * j) = Some x10 /\ at2 a (2 * i + 1) (2 * j + 1) = Some x11 /\
        at2 b i j = Some ((x00 + x01 + x10 + x11) / 4)%float.
Proof.
  intros Ha. destruct (avefour_even m n a Ha) as [Eb Sb].
  eexists. split; [exact Eb|]. split.
  { destruct Sb as [Hl Hr]. split; [unfold img_map; rewrite length_map; exact Hl|].
    unfold img_map. apply Forall_map. eapply Forall_impl; [exact Hr|].
    intros r Hlen. simpl. rewrite length_map. exact Hlen. }
  intros i j Hi Hj.
  assert (forall i' j', (i' < 2 * m)%nat -> (j' < 2 * n)%nat -> is_Some (at2 a i' j')) as Hat.
  { intros i' j' Hi' Hj'. destruct Ha as [Hl Hr]. unfold at2.
    destruct (lookup_lt_is_Some_2 a i') as [r Er]; [lia|]. rewrite Er. simpl.
    apply lookup_lt_is_Some_2. rewrite (proj1 (Forall_lookup _ _) Hr i' r Er). lia. }
  destruct (Hat (2 * i) (2 * j))%nat as [x00 E00]; [lia..|].
  destruct (Hat (2 * i) (2 * j + 1))%nat as [x01 E01]; [lia..|].
  destruct (Hat (2 * i + 1) (2 * j))%nat as [x10 E10]; [lia..|].
  destruct (Hat (2 * i + 1) (2 * j + 1))%nat as [x11 E11]; [lia..|].
  exists x00, x01, x10, x11. repeat (split; [assumption|]).
  unfold img_map, img_map2. rewrite at2_map, !at2_zip_with.
  rewrite at2_evens_evens, at2_evens_odds, at2_odds_evens, at2_odds_odds.
  rewrite E00, E01, E10, E11. reflexivity.
Qed.


Lemma avefour_block_mean_witness :
  exists b, Raster.avefour [[1; 2]; [3; 6]]%float = Ok b /\ at2 b 0 0 = Some 3%float.
Proof.
  destruct (avefour_block_mean 1 1 [[1; 2]; [3; 6]]%float) as (b & Eb & _ & H);
    [split; [reflexivity|repeat constructor]|].
  exists b. split; [exact Eb|].
  destruct (H 0 0) as (x00 & x01 & x10 & x11 & E00 & E01 & E10 & E11 & Hb); [lia..|].
  injection E00 as <-. injection E01 as <-. injection E10 as <-. injection E11 as <-.
  exact Hb.
Defined.

Lemma slice_bounds_inside len (i0 i1 : Z) :
  (0 <= i0 <= i1)%Z -> (i1 <= Z.of_nat len)%Z ->
  Raster.slice_bounds len i0 i1 = (Z.to_nat i0, Z.to_nat i1).
Proof.
  intros H0 H1. unfold Raster.slice_bounds.
  assert ((i0 <? 0)%Z = false) as -> by lia.
  assert ((i1 <? 0)%Z = false) as -> by lia.
  f_equal; lia.
Qed.

(** [a[s:e] = b] written out: the rows before [s], the new rows, the rows
    from [e] on. *)
Definition splice {A} (s e : nat) (a b : list A) : list A :=
  take s a ++ b ++ drop e a.

Lemma splice_lookup {A} (s e : nat) (a b : list A) i :
  s <= e <= length a -> length b = e - s ->
  splice s e a b !! i = if decide (s <= i < e) then b !! (i - s) else a !! i.
Proof.
  intros He Hb. unfold splice.
  destruct (decide (s <= i < e)) as [Hi|Hi].
  - rewrite lookup_app_r by (rewrite length_take; lia).
    rewrite length_take. replace (i - s `min` length a) with (i - s) by lia.
    apply lookup_app_l. lia.
  - destruct (decide (i < s)) as [Hlt|Hge].
    + rewrite lookup_app_l by (rewrite length_take; lia). apply lookup_take_lt. lia.
    + rewrite lookup_app_r by (rewrite length_take; lia).
      rewrite length_take. replace (i - s `min` length a) with (i - s) by lia.
      rewrite lookup_app_r by lia. rewrite lookup_drop. f_equal. lia.
Qed.

Lemma length_splice {A} (s e : nat) (a b : list A) :
  s <= e <= length a -> length b = e - s -> length (splice s e a b) = length a.
Proof.
  intros He Hb. unfold splice. rewrite !length_app, length_take, length_drop. lia.
Qed.

Lemma map_zip_uncurried {A B C} (f : A -> B -> C) (l : list A) (b : list B) :
  map (fun p => f p.1 p.2) (zip l b) = zip_with f l b.
Proof.
  revert b. induction l as [|x l IH]; intros [|y b]; simpl; try reflexivity.
  f_equal. apply IH.
Qed.

Lemma set_slice_inside {A} (a b : list A) (i0 i1 : Z) :
  (0 <= i0 <= i1)%Z -> (i1 <= Z.of_nat (length a))%Z ->
  length b = Z.to_nat i1 - Z.to_nat i0 ->
  Raster.set_slice a i0 i1 b = Ok (splice (Z.to_nat i0) (Z.to_nat i1) a b).
Proof.
  intros H0 H1 Hb. unfold Raster.set_slice. rewrite slice_bounds_inside by assumption.
  rewrite decide_True by exact Hb. reflexivity.
Qed.

Lemma set_block_inside N m (a b : img) (i0 i1 : Z) :
  shaped N N a -> shaped m m b ->
  (0 <= i0 <= i1)%Z -> (i1 <= Z.of_nat N)%Z -> m = Z.to_nat i1 - Z.to_nat i0 ->
  Raster.set_block a i0 i1 i0 i1 b
  = Ok (splice (Z.to_nat i0) (Z.to_nat i1) a
          (zip_with (splice (Z.to_nat i0) (Z.to_nat i1))
             (take m (drop (Z.to_nat i0) a)) b)).
Proof.
  intros [Ha Hra] [Hb Hrb] H0 H1 Hm. unfold Raster.set_block.
  rewrite slice_bounds_inside by (rewrite ?Ha; assumption).
  rewrite decide_True by lia. rewrite <- Hm.
  rewrite (mapM_result_Ok _
             (fun p => splice (Z.to_nat i0) (Z.to_nat i1) p.1 p.2)).
  - rewrite map_zip_uncurried. reflexivity.
  - apply Forall_forall. intros [r br] Hin. simpl.
    apply elem_of_zip_l in Hin as Hr. apply elem_of_zip_r in Hin as Hbr. simpl in *.
    apply set_slice_inside; [assumption| |].
    + apply elem_of_take in Hr as (i & Hi & _). rewrite lookup_drop in Hi.
      rewrite (proj1 (Forall_lookup _ _) Hra _ r Hi). assumption.
    + rewrite (proj1 (Forall_forall _ _) Hrb br Hbr). exact Hm.
Qed.


(** X9.  The layer fold fits: for a grid size [N >= 2] that
    [makegrid] derives ([npixnest]) and its quartile indices
    [nq1 = N // 2 - N // 2 // 2] and [nq3 = nq1 + N // 2], the 2 x 2
    average of an [N] by [N] layer has exactly the shape of the block
    [nq1:nq3, nq1:nq3] of the next coarser layer; the assignment of lines
    374-375 raises nothing, changes that block and leaves the rest of the
    coarser layer as it was. *)
Theorem fold_block_fits npix N (coarse fine : img) :
  Grid.npixnest_of npix = Ok N -> (2 <= N)%Z ->
  shaped (Z.to_nat N) (Z.to_nat N) coarse -> shaped (Z.to_nat N) (Z.to_nat N) fine ->
  let nq1 := (N / 2 - N / 2 / 2)%Z in
  let nq3 := (nq1 + N / 2)%Z in
  exists blk c',
    Raster.avefour fine = Ok blk /\
    Raster.set_block coarse nq1 nq3 nq1 nq3 blk = Ok c' /\
    shaped (Z.to_nat N) (Z.to_nat N) c' /\
    forall i j,
      at2 c' i j =
      if decide ((Z.to_nat nq1 <= i < Z.to_nat nq3) /\ (Z.to_nat nq1 <= j < Z.to_nat nq3))
      then at2 blk (i - Z.to_nat nq1) (j - Z.to_nat nq1)
      else at2 coarse i j.
Proof.
  intros HN H2 Hc Hf nq1 nq3.
  destruct (Grid.npixnest_of_even npix N HN H2) as (Heven & _ & _).
  set (m := Z.to_nat (N / 2)).
  assert (Z.to_nat N = 2 * m) as HNm by (subst m; lia).
  rewrite HNm in Hf.
  destruct (avefour_even m m fine Hf) as [Eb Sb0].
  pose proof (shaped_img_map (fun x => x / 4)%float _ _ _ Sb0) as Sb.
  match type of Eb with _ = Ok ?b => set (blk := b) in * end.
  assert (0 <= nq1 <= nq3)%Z as Hq.
  { subst nq1 nq3. assert (0 <= N / 2 / 2 <= N / 2)%Z; [|lia].
    split; [apply Z.div_pos; lia|apply Z.div_le_upper_bound; lia]. }
  assert (nq3 <= Z.of_nat (Z.to_nat N))%Z as Hq3.
  { subst nq1 nq3. assert (0 <= N / 2 / 2)%Z by (apply Z.div_pos; lia). lia. }
  assert (m = Z.to_nat nq3 - Z.to_nat nq1) as Hm by (subst m nq1 nq3; lia).
  exists blk. eexists. split; [exact Eb|].
  split; [apply (set_block_inside (Z.to_nat N) m); assumption|].
  destruct Hc as [Hcl Hcr]. destruct Sb as [Hbl Hbr].
  assert (Z.to_nat nq1 <= Z.to_nat nq3 <= Z.to_nat N) as Hnat by lia.
  assert (length (zip_with (splice (Z.to_nat nq1) (Z.to_nat nq3))
                    (take m (drop (Z.to_nat nq1) coarse)) blk)
          = Z.to_nat nq3 - Z.to_nat nq1) as Hzl.
  { rewrite length_zip_with, length_take, length_drop. lia. }
  split; [split|].
  - rewrite length_splice; [exact Hcl|lia|exact Hzl].
  - apply Forall_lookup. intros i r Hr.
    rewrite splice_lookup in Hr by (first [lia|exact Hzl]).
    destruct (decide _) as [Hi|Hi].
    + apply lookup_zip_with_Some in Hr as (rc & rb & -> & Hrc & Hrb).
      apply lookup_take_Some in Hrc as [Hrc _]. rewrite lookup_drop in Hrc.
      rewrite length_splice.
      * apply (proj1 (Forall_lookup _ _) Hcr _ _ Hrc).
      * rewrite (proj1 (Forall_lookup _ _) Hcr _ _ Hrc). lia.
      * rewrite (proj1 (Forall_lookup _ _) Hbr _ _ Hrb). lia.
    + apply (proj1 (Forall_lookup _ _) Hcr _ _ Hr).
  - intros i j. unfold at2 at 1.
    rewrite splice_lookup by (first [lia|exact Hzl]).
    destruct (decide (Z.to_nat nq1 <= i < Z.to_nat nq3)) as [Hi|Hi].
    + rewrite lookup_zip_with.
      rewrite lookup_take_lt by lia. rewrite lookup_drop.
      replace (Z.to_nat nq1 + (i - Z.to_nat nq1)) with i by lia.
      destruct (lookup_lt_is_Some_2 coarse i) as [rc Hrc]; [lia|].
      destruct (lookup_lt_is_Some_2 blk (i - Z.to_nat nq1)) as [rb Hrb]; [lia|].
      rewrite Hrc, Hrb. simpl.
      rewrite splice_lookup.
      * destruct (decide (Z.to_nat nq1 <= j < Z.to_nat nq3)) as [Hj|Hj].
        -- rewrite decide_True by (split; assumption). unfold at2. rewrite Hrb. reflexivity.
        -- rewrite decide_False by (intros [_ ?]; contradiction).
           unfold at2. rewrite Hrc. reflexivity.
      * rewrite (proj1 (Forall_lookup _ _) Hcr _ _ Hrc). lia.
      * rewrite (proj1 (Forall_lookup _ _) Hbr _ _ Hrb). lia.
    + rewrite decide_False by (intros [? _]; contradiction). reflexivity.
Qed.


Lemma fold_block_fits_witness :
  exists blk c',
    Raster.avefour [[4; 8]; [12; 16]]%float = Ok blk /\
    Raster.set_block [[1; 2]; [3; 4]]%float 1 2 1 2 blk = Ok c' /\
    at2 c' 1 1 = at2 blk 0 0 /\ at2 c' 0 1 = Some 2%float.
Proof.
  destruct (fold_block_fits 2 2 [[1; 2]; [3; 4]]%float [[4; 8]; [12; 16]]%float)
    as (blk & c' & Eb & Ec & _ & H).
  - reflexivity.
  - lia.
  - split; [reflexivity|repeat constructor].
  - split; [reflexivity|repeat constructor].
  - exists blk, c'. split; [exact Eb|]. split; [exact Ec|].
    split; [apply (H 1 1)|apply (H 0 1)].
Defined.

End BlockFacts.

(** ** The velocity windows of [makegrid], lines 207-211 *)

Module Windows.
Import Nd Makegrid.
Local Open Scope float_scope.

Definition b2n (b : bool) : nat := if b then 1 else 0.

Lemma one_window v0 v1 v2 v3 a :
  (v0 <=? v1) = true -> (v1 <? v2) = true -> (v2 <=? v3) = true ->
  is_nan a = false ->
  (b2n (a <? v0)%float + b2n ((v0 <=? a) && (a <=? v1))%float
   + b2n ((v1 <? a) && (a <? v2))%float
   + b2n ((v2 <=? a) && (a <=? v3))%float + b2n (v3 <? a)%float = 1)%nat.
Proof.
  intros H01 H12 H23 Ha.
  destruct (FltOrder.leb_not_nan _ _ H01) as [N0 N1].
  destruct (FltOrder.leb_not_nan _ _ H23) as [N2 N3].
  rewrite (FltOrder.leb_negb_ltb a v0 Ha N0).
  rewrite (FltOrder.leb_negb_ltb v1 a N1 Ha).
  rewrite (FltOrder.leb_negb_ltb v3 a N3 Ha).
  pose proof (FltOrder.leb_negb_ltb a v2 Ha N2) as E2.
  assert ((a <? v0) = true -> (v1 <? a) = false) as I1.
  { intros H. apply Flt.leb_ltb_false. apply FltOrder.ltb_leb.
    eapply FltOrder.ltb_leb_trans; eassumption. }
  assert ((v2 <=? a) = true -> (v1 <? a) = true) as I2.
  { intros H. eapply FltOrder.ltb_leb_trans; eassumption. }
  assert ((v3 <? a) = true -> (v2 <=? a) = true) as I3.
  { intros H. apply FltOrder.ltb_leb. eapply FltOrder.leb_ltb_trans; eassumption. }
  destruct (a <? v0), (v1 <? a), (v2 <=? a), (v3 <? a), (a <? v2); simpl in *;
    try reflexivity; try discriminate;
    try (specialize (I1 eq_refl); discriminate);
    try (specialize (I2 eq_refl); discriminate);
    try (specialize (I3 eq_refl); discriminate).
Qed.

Lemma length_select_count {A} (v : list A) (f : A -> bool) :
  length (select v (map f v)) = sum_list (map (fun a => b2n (f a)) v).
Proof.
  induction v as [|a v IH]; [reflexivity|]. simpl. destruct (f a); simpl; rewrite IH; reflexivity.
Qed.

(** X10.  With limits [vlim0 <= vlim1 < vlim2 <= vlim3] and a velocity
    axis without NaN, the five selections of lines 207-211 ([v_nanblue],
    [v_blue], [v_nanmid], [v_red], [v_nanred]) partition the axis: every
    channel falls in exactly one of them, so their lengths add up to the
    number of channels. *)
Theorem velocity_windows_partition v0 v1 v2 v3 (v : vec) :
  (v0 <=? v1) = true -> (v1 <? v2) = true -> (v2 <=? v3) = true ->
  Forall (fun a => is_nan a = false) v ->
  (length (select v (map (fun a => a <? v0)%float v))
   + length (select v (mask_blue (v0, v1, v2, v3) v))
   + length (select v (map (fun a => (v1 <? a) && (a <? v2))%float v))
   + length (select v (mask_red (v0, v1, v2, v3) v))
   + length (select v (map (fun a => v3 <? a)%float v)) = length v)%nat.
Proof.
  intros H01 H12 H23 Hv. unfold mask_blue, mask_red.
  rewrite !length_select_count.
  induction Hv as [|a v Ha _ IH]; [reflexivity|]. simpl.
  pose proof (one_window v0 v1 v2 v3 a H01 H12 H23 Ha). lia.
Qed.

Definition v_seven : vec := [-3; -2; -1.5; 0; 1.5; 2; 3].

Lemma velocity_windows_partition_witness :
  (length (select v_seven (map (fun a => a <? -2.5)%float v_seven))
   + length (select v_seven (mask_blue (-2.5, -1, 1, 2.5)%float v_seven))
   + length (select v_seven (map (fun a => (-1 <? a) && (a <? 1))%float v_seven))
   + length (select v_seven (mask_red (-2.5, -1, 1, 2.5)%float v_seven))
   + length (select v_seven (map (fun a => 2.5 <? a)%float v_seven)) = 7)%nat.
Proof.
  apply (velocity_windows_partition (-2.5) (-1) 1 2.5 v_seven);
    first [reflexivity | repeat constructor].
Defined.

(** With the default limits [(-100, 0, 0, 100)] the two inner limits
    coincide, and a channel at exactly that velocity is selected twice. *)
Lemma velocity_windows_overlap :
  fit_channels (-100, 0, 0, 100) [-1; 0; 1] = [-1; 0; 0; 1].
Proof. vm_compute. reflexivity. Qed.

End Windows.

(** * [read_cubefits]: the pixel skip, lines 139-148 *)

Module Cubefits.
Import Nd.
Local Open Scope Z_scope.

(** The integer modulo and floor division raise on a zero divisor. *)
Inductive zresult (A : Type) : Type :=
| ZOk (a : A)
| ZeroDivisionError.
Arguments ZOk {A} a.
Arguments ZeroDivisionError {A}.

(** [a[start::step]] for [step <> 0], by the index rules of Python slices:
    a negative [start] counts from the end, an out-of-range one is clipped,
    and the indices [start, start + step, ...] run to the end of the array
    (to its beginning for a negative step). *)
Definition py_stride {A} (a : list A) (start step : Z) : list A :=
  let len := Z.of_nat (length a) in
  if 0 <? step then
    let s := if start <? 0 then Z.max 0 (start + len) else Z.min start len in
    let n := if s <? len then (len - s - 1) / step + 1 else 0 in
    omap (fun k => a !! Z.to_nat (s + k * step)) (seqZ 0 n)
  else
    let s := if start <? 0 then Z.max (-1) (start + len) else Z.min start (len - 1) in
    let n := if -1 <? s then s / (- step) + 1 else 0 in
    omap (fun k => a !! Z.to_nat (s + k * step)) (seqZ 0 n).

Record skipped := {
  k_x : vec; k_y : vec; k_d : cube;
  k_crpix1 : Z; k_crpix2 : Z;
  k_cdelt1 : float; k_cdelt2 : float
}.

(** Lines 139-148.  [crpix1] and [crpix2] are [int(h['CRPIX1'])] and
    [int(h['CRPIX2'])]. *)
Definition skip_pixels (crpix1 crpix2 : Z) (cdelt1 cdelt2 : float) (xskip yskip : Z)
    (x y : vec) (d : cube) : zresult skipped :=
  let crpix := crpix1 - 1 in
  if xskip =? 0 then ZeroDivisionError else
  let startpix := crpix mod xskip in
  let x := py_stride x startpix xskip in
  let h_crpix1 := (crpix - startpix) / xskip + 1 in
  let h_cdelt1 := (cdelt1 * FloatNum.of_Z xskip)%float in
  let d := map (map (fun row => py_stride row startpix xskip)) d in
  let crpix := crpix2 - 1 in
  if yskip =? 0 then ZeroDivisionError else
  let startpix := crpix mod yskip in
  let y := py_stride y startpix yskip in
  let h_crpix2 := (crpix - startpix) / yskip + 1 in
  let h_cdelt2 := (cdelt2 * FloatNum.of_Z yskip)%float in
  let d := map (fun im => py_stride im startpix yskip) d in
  ZOk {| k_x := x; k_y := y; k_d := d; k_crpix1 := h_crpix1; k_crpix2 := h_crpix2;
         k_cdelt1 := h_cdelt1; k_cdelt2 := h_cdelt2 |}.

Lemma omap_lookup_all {A B} (f : A -> option B) (l : list A) k :
  Forall (fun x => is_Some (f x)) l -> omap f l !! k = l !! k ≫= f.
Proof.
  intros H. revert k. induction H as [|x l [y Hy] _ IH]; intros k; [reflexivity|].
  simpl. rewrite Hy. destruct k as [|k]; simpl; [symmetry; exact Hy|apply IH].
Qed.

(** With a positive step and a start inside [0, step), element [k] of the
    slice is element [start + k * step] of the array. *)
Lemma py_stride_lookup {A} (a : list A) start step (k : nat) :
  0 < step -> 0 <= start ->
  py_stride a start step !! k = a !! Z.to_nat (start + Z.of_nat k * step).
Proof.
  intros Hstep Hstart. unfold py_stride.
  assert ((0 <? step) = true) as -> by lia.
  assert ((start <? 0) = false) as -> by lia.
  set (len := Z.of_nat (length a)).
  destruct (Z.min start len <? len) eqn:Es.
  - assert (start < len) as Hlt by lia.
    replace (Z.min start len) with start by lia.
    set (n := (len - start - 1) / step + 1).
    assert (forall j, 0 <= j -> (j < n <-> start + j * step < len)) as Hn.
    { intros j Hj. subst n.
      pose proof (Z.div_mod (len - start - 1) step ltac:(lia)) as Hdm.
      pose proof (Z.mod_pos_bound (len - start - 1) step Hstep) as Hb.
      split; intros; nia. }
    rewrite omap_lookup_all.
    + destruct (Z.lt_ge_cases (Z.of_nat k) n) as [Hk|Hk].
      * rewrite lookup_seqZ_lt by exact Hk. reflexivity.
      * rewrite lookup_seqZ_ge by exact Hk. simpl. symmetry. apply lookup_ge_None.
        assert (~ Z.of_nat k < n) as Hk' by lia. rewrite Hn in Hk' by lia. lia.
    + apply Forall_forall. intros j Hj. apply elem_of_seqZ in Hj.
      apply lookup_lt_is_Some_2. assert (start + j * step < len) by (apply Hn; lia). lia.
  - assert (len <= start) by lia. simpl. symmetry. apply lookup_ge_None. nia.
Qed.

(** X11.  For positive [xskip] and [yskip] the pixel skip keeps axes,
    data and header aligned: pixel [k] of the new x axis is pixel
    [sx + k * xskip] of the old one, with [sx = (int(CRPIX1) - 1) % xskip],
    likewise in y; the data cube is subsampled at the same pixels; and the
    new reference pixels index the old reference pixels (an old pixel's
    offset from the old reference is [xskip] times the new pixel's offset
    from the new reference). *)
Theorem skip_pixels_aligned crpix1 crpix2 cdelt1 cdelt2 xskip yskip x y d :
  0 < xskip -> 0 < yskip ->
  let sx := (crpix1 - 1) mod xskip in
  let sy := (crpix2 - 1) mod yskip in
  exists r,
    skip_pixels crpix1 crpix2 cdelt1 cdelt2 xskip yskip x y d = ZOk r /\
    (forall k : nat, k_x r !! k = x !! Z.to_nat (sx + Z.of_nat k * xskip)) /\
    (forall k : nat, k_y r !! k = y !! Z.to_nat (sy + Z.of_nat k * yskip)) /\
    (forall c j k : nat,
       Disk.at3 (k_d r) c j k
       = Disk.at3 d c (Z.to_nat (sy + Z.of_nat j * yskip))
                      (Z.to_nat (sx + Z.of_nat k * xskip))) /\
    (forall k : Z, sx + k * xskip - (crpix1 - 1) = (k - (k_crpix1 r - 1)) * xskip) /\
    (forall k : Z, sy + k * yskip - (crpix2 - 1) = (k - (k_crpix2 r - 1)) * yskip).
Proof.
  intros Hx Hy sx sy. unfold skip_pixels.
  assert ((xskip =? 0) = false) as -> by lia.
  assert ((yskip =? 0) = false) as -> by lia.
  cbv zeta. fold sx sy.
  pose proof (Z.mod_pos_bound (crpix1 - 1) xskip Hx) as Bx. fold sx in Bx.
  pose proof (Z.mod_pos_bound (crpix2 - 1) yskip Hy) as By. fold sy in By.
  eexists. split; [reflexivity|]. cbn [k_x k_y k_d k_crpix1 k_crpix2].
  split; [intros k; apply py_stride_lookup; lia|].
  split; [intros k; apply py_stride_lookup; lia|].
  split.
  - intros c j k. unfold Disk.at3, at2. rewrite !list_lookup_fmap.
    destruct (d !! c) as [im|]; simpl; [|reflexivity].
    rewrite py_stride_lookup by lia. rewrite list_lookup_fmap.
    destruct (im !! _) as [row|]; simpl; [|reflexivity].
    apply py_stride_lookup; lia.
  - assert (forall c s skip, 0 < skip -> s = c mod skip ->
              forall k, s + k * skip - c = (k - ((c - s) / skip + 1 - 1)) * skip) as H.
    { intros c s skip Hs -> k.
      pose proof (Z.div_mod c skip ltac:(lia)) as Hdm.
      replace ((c - c mod skip) / skip) with (c / skip); [lia|].
      replace (c - c mod skip) with (c / skip * skip) by lia.
      symmetry. apply Z.div_mul. lia. }
    split; intros k; apply H; [exact Hx|reflexivity|exact Hy|reflexivity].
Qed.


Lemma skip_pixels_aligned_witness :
  exists r,
    skip_pixels 6 1 1 1 2 1 [0; 1; 2; 3; 4; 5; 6; 7]%float [0]%float
      [[[0; 1; 2; 3; 4; 5; 6; 7]]]%float = ZOk r /\
    k_x r !! 2%nat = Some 5%float /\
    1 + 2 * 2 - (6 - 1) = (2 - (k_crpix1 r - 1)) * 2.
Proof.
  destruct (skip_pixels_aligned 6 1 1 1 2 1 [0; 1; 2; 3; 4; 5; 6; 7]%float [0]%float
              [[[0; 1; 2; 3; 4; 5; 6; 7]]]%float)
    as (r & Er & Hx & _ & _ & Hcx & _); [lia|lia|].
  exists r. split; [exact Er|]. split; [exact (Hx 2%nat)|exact (Hcx 2)].
Defined.

End Cubefits.

(** * [modeltofits]: the inner function [concat], lines 587-610 *)

Module Modelfits.
Import Nd.
Local Open Scope float_scope.

(** [np.full((n, ny, nx), np.nan)] *)
Definition nan_cube (n ny nx : nat) : cube :=
  replicate n (replicate ny (replicate nx nan)).

Definition has_shape (ny nx : nat) (im : img) : bool :=
  (length im =? ny)%nat && forallb (fun r => (length r =? nx)%nat) im.

(** [np.append(model, part, axis=0)] onto a cube of [ny] by [nx] images:
    the shapes must agree outside axis 0. *)
Definition append0 (ny nx : nat) (model part : cube) : result cube :=
  if forallb (has_shape ny nx) part then Ok (model ++ part)
  else Raise (ValueError "all the input array dimensions except for the concatenation axis must match exactly").

(** [if len(part) > 0: model = np.append(model, part, axis=0)] *)
Definition append_if (ny nx : nat) (model part : cube) : result cube :=
  match part with
  | [] => Ok model
  | _ => append0 ny nx model part
  end.

(** Lines 587-610, with the attributes it reads as arguments: the lengths
    of [v_nanblue], [v_nanmid] and [v_nanred], and [ny], [nx] from the
    header. *)
Definition concat (v_valid v_red v_blue : vec)
    (n_nanblue n_nanmid n_nanred ny nx : nat) (m : cube) : result cube :=
  m_blue ← match v_red with
           | [] => Ok (cube_map (fun x => x * 1) m)
           | _ => lo ← Moments.np_min v_red;
                  Makegrid.bool_index m (map (fun a => a <? lo) v_valid)
           end;
  p ← match v_blue with
      | [] => Ok ([], cube_map (fun x => x * 1) m)
      | _ => hi ← Scale.np_max v_blue;
             m_red ← Makegrid.bool_index m (map (fun a => hi <? a) v_valid);
             Ok (m_blue, m_red)
      end;
  let '(m_blue, m_red) := p in
  let model := nan_cube n_nanblue ny nx in
  model ← append_if ny nx model m_blue;
  model ← append_if ny nx model (nan_cube n_nanmid ny nx);
  model ← append_if ny nx model m_red;
  append_if ny nx model (nan_cube n_nanred ny nx).

Lemma select_app {A} (a b : list A) (ma mb : list bool) :
  length a = length ma -> select (a ++ b) (ma ++ mb) = select a ma ++ select b mb.
Proof.
  revert ma. induction a as [|x a IH]; intros [|c ma] H; try discriminate; [reflexivity|].
  injection H as H. simpl. destruct c; simpl; rewrite IH by exact H; reflexivity.
Qed.

Lemma select_all {A B} (a : list A) (v : list B) (f : B -> bool) :
  length a = length v -> Forall (fun x => f x = true) v -> select a (map f v) = a.
Proof.
  intros Hl Hv. revert a Hl. induction Hv as [|x v Hx _ IH]; intros [|y a] Hl;
    try discriminate; [reflexivity|].
  injection Hl as Hl. simpl. rewrite Hx. f_equal. apply IH, Hl.
Qed.

Lemma select_none {A B} (a : list A) (v : list B) (f : B -> bool) :
  Forall (fun x => f x = false) v -> select a (map f v) = [].
Proof.
  intros Hv. revert a. induction Hv as [|x v Hx _ IH]; intros [|y a]; try reflexivity.
  simpl. rewrite Hx. apply IH.
Qed.

Lemma forallb_replicate {A} (f : A -> bool) n x :
  f x = true -> forallb f (replicate n x) = true.
Proof. intros H. induction n as [|n IH]; [reflexivity|]. simpl. rewrite H, IH. reflexivity. Qed.

Lemma nan_cube_shape n ny nx : forallb (has_shape ny nx) (nan_cube n ny nx) = true.
Proof.
  unfold nan_cube. apply forallb_replicate. unfold has_shape.
  rewrite length_replicate, Nat.eqb_refl. simpl.
  apply forallb_replicate. rewrite length_replicate. apply Nat.eqb_refl.
Qed.

Lemma append_if_ok ny nx model part :
  forallb (has_shape ny nx) part = true -> append_if ny nx model part = Ok (model ++ part).
Proof.
  intros H. unfold append_if, append0. destruct part; [rewrite app_nil_r; reflexivity|].
  rewrite H. reflexivity.
Qed.

(** X12.  For two non-empty velocity windows, every blue velocity below
    every red one, and a model cube [mb ++ mr] with one [ny] by [nx]
    channel per fit-worthy velocity, [concat] rebuilds the full velocity
    axis: NaN channels for [v_nanblue], the blue model channels, NaN
    channels for [v_nanmid], the red model channels, NaN channels for
    [v_nanred]. *)
Theorem concat_layout v_blue v_red n_nanblue n_nanmid n_nanred ny nx (mb mr : cube) :
  v_blue <> [] -> v_red <> [] ->
  length mb = length v_blue -> length mr = length v_red ->
  forallb (has_shape ny nx) (mb ++ mr) = true ->
  Forall (fun b => Forall (fun r => (b <? r) = true) v_red) v_blue ->
  concat (v_blue ++ v_red) v_red v_blue n_nanblue n_nanmid n_nanred ny nx (mb ++ mr)
  = Ok (nan_cube n_nanblue ny nx ++ mb ++ nan_cube n_nanmid ny nx ++ mr
        ++ nan_cube n_nanred ny nx).
Proof.
  intros Hb Hr Hlb Hlr Hs Hlt0.
  assert (forall b r, b ∈ v_blue -> r ∈ v_red -> (b <? r) = true) as Hlt.
  { intros b r Hib Hir.
    exact (proj1 (Forall_forall _ _) (proj1 (Forall_forall _ _) Hlt0 b Hib) r Hir). }
  assert (Forall (fun x => is_nan x = false) v_blue) as Nb.
  { apply Forall_forall. intros b Hin. destruct v_red as [|r ?]; [congruence|].
    apply (FltOrder.ltb_not_nan b r), Hlt; [exact Hin|left]. }
  assert (Forall (fun x => is_nan x = false) v_red) as Nr.
  { apply Forall_forall. intros r Hin. destruct v_blue as [|b ?]; [congruence|].
    apply (FltOrder.ltb_not_nan b r), Hlt; [left|exact Hin]. }
  unfold concat.
  destruct (Moments.np_min v_red) as [lo|] eqn:Elo;
    [|destruct v_red; [congruence|discriminate]].
  destruct (Scale.np_max v_blue) as [hi|] eqn:Ehi;
    [|destruct v_blue; [congruence|discriminate]].
  destruct (Reduce.np_min_spec v_red lo Nr Elo) as [Hlo Hlo'].
  destruct (Reduce.np_max_spec v_blue hi Nb Ehi) as [Hhi Hhi'].
  assert (Makegrid.bool_index (mb ++ mr) (map (fun a => a <? lo) (v_blue ++ v_red)) = Ok mb)
    as E1.
  { unfold Makegrid.bool_index. rewrite decide_True by (rewrite length_map, !length_app; lia).
    rewrite map_app, select_app by (rewrite length_map; exact Hlb).
    rewrite select_all, select_none, app_nil_r; [reflexivity| |exact Hlb|].
    - eapply Forall_impl; [exact Hlo'|]. intros r. apply Flt.leb_ltb_false.
    - apply Forall_forall. intros b Hin. apply Hlt; assumption. }
  assert (Makegrid.bool_index (mb ++ mr) (map (fun a => hi <? a) (v_blue ++ v_red)) = Ok mr)
    as E2.
  { unfold Makegrid.bool_index. rewrite decide_True by (rewrite length_map, !length_app; lia).
    rewrite map_app, select_app by (rewrite length_map; exact Hlb).
    rewrite select_none, select_all; [reflexivity|exact Hlr| |].
    - apply Forall_forall. intros r Hin. apply Hlt; assumption.
    - eapply Forall_impl; [exact Hhi'|]. intros b. apply Flt.leb_ltb_false. }
  destruct v_red as [|r0 v_red']; [congruence|].
  destruct v_blue as [|b0 v_blue']; [congruence|].
  cbn [mbind result_bind]. rewrite E1. cbn [mbind result_bind]. rewrite E2.
  cbn [mbind result_bind].
  rewrite forallb_app in Hs. apply andb_true_iff in Hs as [Hsb Hsr].
  rewrite (append_if_ok _ _ _ mb Hsb). cbn [mbind result_bind].
  rewrite (append_if_ok _ _ _ _ (nan_cube_shape n_nanmid ny nx)). cbn [mbind result_bind].
  rewrite (append_if_ok _ _ _ mr Hsr). cbn [mbind result_bind].
  rewrite (append_if_ok _ _ _ _ (nan_cube_shape n_nanred ny nx)).
  rewrite <- !app_assoc. reflexivity.
Qed.


Lemma concat_layout_witness :
  concat ([-2; -1.5] ++ [1.5; 2]) [1.5; 2] [-2; -1.5] 1 1 1 1 1
    ([ [[1]]; [[2]] ] ++ [ [[3]]; [[4]] ])
  = Ok [ [[nan]]; [[1]]; [[2]]; [[nan]]; [[3]]; [[4]]; [[nan]] ].
Proof.
  apply (concat_layout [-2; -1.5] [1.5; 2] 1 1 1 1 1 [ [[1]]; [[2]] ] [ [[3]]; [[4]] ]);
    first [discriminate | reflexivity | repeat constructor].
Defined.

End Modelfits.

(** * [fitting], [cubemodel] and the line profile *)

Module FitFacts.
Import Nd Py Fit.
Local Open Scope float_scope.

Ltac lookup_attr :=
  repeat first [rewrite lookup_insert_eq | rewrite lookup_insert_ne by discriminate];
  try reflexivity.

(** ** [q[p_fixed == None] = p], lines 522-523 and 541-542 *)

(** The number of free parameters. *)
Definition nfree (p_fixed : list (option float)) : nat :=
  length (filter (fun o => o = None) p_fixed).

Lemma length_fill p_fixed p : length (fill p_fixed p) = length p_fixed.
Proof.
  revert p. induction p_fixed as [|[x|] r IH]; intros p; simpl; [reflexivity|..];
    rewrite IH; reflexivity.
Qed.

Lemma fill_fixed p_fixed p k x :
  p_fixed !! k = Some (Some x) -> fill p_fixed p !! k = Some x.
Proof.
  revert p k. induction p_fixed as [|[y|] r IH]; intros p [|k] H; simpl in *;
    try discriminate; try (injection H as ->; reflexivity); apply IH, H.
Qed.

Lemma fill_select p_fixed p :
  length p = nfree p_fixed -> select (fill p_fixed p) (free_of p_fixed) = p.
Proof.
  unfold nfree. revert p. induction p_fixed as [|[y|] r IH]; intros p H; simpl in *.
  - destruct p; [reflexivity|discriminate].
  - apply IH, H.
  - destruct p as [|a p]; [discriminate|]. simpl in *. f_equal. apply IH. lia.
Qed.

Lemma fill_free_fixed p_fixed p q k x :
  fill_free p_fixed p = Ok q -> p_fixed !! k = Some (Some x) -> q !! k = Some x.
Proof.
  unfold fill_free. destruct (decide _); [|destruct p as [|a [|b p]]; try discriminate];
    intros [= <-] Hk; apply fill_fixed, Hk.
Qed.

(** X13.  Filling the free slots of the fixed vector with sampled values
    keeps the length of the vector and every fixed value at its position;
    and when there are as many values as free slots, reading the free
    slots back gives the values, in order. *)
Theorem fill_free_roundtrip p_fixed p q :
  fill_free p_fixed p = Ok q ->
  length q = length p_fixed /\
  (forall k x, p_fixed !! k = Some (Some x) -> q !! k = Some x) /\
  (length p = nfree p_fixed -> select q (free_of p_fixed) = p).
Proof.
  intros H. split; [|split].
  - unfold fill_free in H.
    destruct (decide _); [|destruct p as [|a [|b p]]; try discriminate];
      injection H as <-; apply length_fill.
  - intros k x Hk. eapply fill_free_fixed; eassumption.
  - intros Hl. unfold fill_free in H. fold (nfree p_fixed) in H.
    rewrite decide_True in H by exact Hl. injection H as <-. apply fill_select, Hl.
Qed.

Lemma fill_free_roundtrip_witness :
  fill_free [Some 1; None; Some 3; None] [5; 7] = Ok [1; 5; 3; 7] /\
  select [1; 5; 3; 7] (free_of [Some 1; None; Some 3; None]) = [5; 7].
Proof.
  split; [reflexivity|].
  apply (fill_free_roundtrip [Some 1; None; Some 3; None] [5; 7] [1; 5; 3; 7]);
    reflexivity.
Defined.

Section WithExt.
Variable E : ext.
Variable X : sci.

(** ** What [fitting] reports for a fixed parameter *)

(** [get_p]: a fixed value comes back from the row, through
    [10 ** log10] for the first two parameters. *)
Lemma get_p_fixed (fixed : list (option float)) mcmc i p k x :
  get_p E (on_first_two (fmap (flog10 E)) fixed) mcmc i = Ok p ->
  fixed !! k = Some (Some x) ->
  p !! k = Some (if (k <? 2)%nat then fpow E 10 (flog10 E x) else x).
Proof.
  unfold get_p. intros H Hk.
  destruct (Raster.py_index mcmc i) as [row|]; [|discriminate]. simpl in H.
  destruct (fill_free _ row) as [q|] eqn:Eq; [|discriminate]. simpl in H.
  injection H as <-.
  unfold on_first_two in *. rewrite list_lookup_imap.
  rewrite (fill_free_fixed _ _ _ k (if (k <? 2)%nat then flog10 E x else x) Eq).
  - simpl. destruct (k <? 2)%nat; reflexivity.
  - rewrite list_lookup_imap, Hk. simpl. destruct (k <? 2)%nat; reflexivity.
Qed.

Lemma get_vec_inv name s s' a :
  get_vec name s = (s', Ok a) -> s' = s /\ s !! name = Some (VVec a).
Proof.
  unfold get_vec, mbind, M_bind, getattr.
  destruct (s !! name) as [[]|]; simpl; intros [= <- <-] || discriminate.
  split; reflexivity.
Qed.

Lemma setattr_inv name v s s' u : setattr name v s = (s', Ok u) -> s' = <[name := v]> s.
Proof. unfold setattr. intros [= <-]. reflexivity. Qed.

Lemma lift_inv {A} (r : result A) s s' a : lift r s = (s', Ok a) -> s' = s /\ r = Ok a.
Proof. unfold lift. intros [= <- ->]. split; reflexivity. Qed.

(** What [fitting_report] leaves in [popt]. *)
Lemma fitting_report_popt filename s s' ev popt :
  fitting_report X filename s = (s', Ok ev) -> s !! "popt" = Some (VVec popt) ->
  s' !! "popt" = Some (VDict (zip paramkeys popt)).
Proof.
  unfold fitting_report. intros H Hp.
  repeat (apply bind_inv in H as (? & ? & ?Hs & H); cbv beta zeta in H).
  repeat match goal with
         | Hs : get_vec _ _ = (_, Ok _) |- _ => apply get_vec_inv in Hs as [-> ?]
         | Hs : setattr _ _ _ = (_, Ok _) |- _ => apply setattr_inv in Hs as ->
         | Hs : lift _ _ = (_, Ok _) |- _ => apply lift_inv in Hs as [-> ?]
         end.
  injection H as <- _.
  rewrite !lookup_insert_ne by discriminate. rewrite lookup_insert_eq.
  repeat match goal with
         | H : s !! "popt" = Some (VVec _) |- _ =>
             rewrite Hp in H; injection H as <-
         end.
  reflexivity.
Qed.

Ltac invert_run H :=
  repeat (apply bind_inv in H as (? & ? & ?Hs & H); cbv beta zeta in H);
  repeat match goal with
         | Hs : get_vec _ _ = (_, Ok _) |- _ => apply get_vec_inv in Hs as [-> ?]
         | Hs : setattr _ _ _ = (_, Ok _) |- _ => apply setattr_inv in Hs as ->
         | Hs : lift _ _ = (_, Ok _) |- _ => apply lift_inv in Hs as [-> ?]
         end.

(** What the branch with free parameters leaves in [popt]. *)
Lemma fitting_free_popt ranges p_fixed filename show progressbar kwargs s s' ev :
  fitting_free E X ranges p_fixed filename show progressbar kwargs s = (s', Ok ev) ->
  exists mcmc popt,
    get_p E (on_first_two (fmap (flog10 E)) p_fixed) mcmc 0 = Ok popt /\
    s' !! "popt" = Some (VVec popt).
Proof.
  unfold fitting_free. cbv zeta. intros H. invert_run H.
  injection H as <- _.
  eexists _, _. split; [eassumption|].
  rewrite !lookup_insert_ne by discriminate. apply lookup_insert_eq.
Qed.

Lemma fitting_fixed_popt p s s' ev :
  fitting_fixed p s = (s', Ok ev) -> s' !! "popt" = Some (VVec p).
Proof.
  unfold fitting_fixed. intros H. invert_run H. injection H as <- _.
  rewrite !lookup_insert_ne by discriminate. apply lookup_insert_eq.
Qed.

Lemma mapM_id_Some {A} (l : list (option A)) p k x :
  mapM id l = Some p -> l !! k = Some (Some x) -> p !! k = Some x.
Proof.
  revert p k. induction l as [|[a|] l IH]; intros p k H Hk; try discriminate.
  simpl in H. destruct (mapM id l) as [p'|] eqn:Ep; [|discriminate]. injection H as <-.
  destruct k as [|k]; simpl in *; [congruence|]. apply (IH p' k eq_refl Hk).
Qed.

Lemma lookup_zip_paramkeys (p : vec) k key x :
  paramkeys !! k = Some key -> p !! k = Some x ->
  zip paramkeys p !! k = Some (key, x).
Proof. intros Hk Hp. rewrite lookup_zip_with, Hk. simpl. rewrite Hp. reflexivity. Qed.

(** X14.  Whatever the sampler returns, when [fitting] returns, a
    parameter that was given a fixed value is reported with that value in
    the dictionary [self.popt]: exactly when every parameter is fixed or the
    parameter is not one of the first two, and as [10 ** log10 (value)] for
    a fixed [Mstar] or [Rc] beside free parameters. *)
Theorem fitting_reports_fixed ranges (fixed : params (option float))
    filename show progressbar kwargs s s' ev k key x :
  fitting E X ranges fixed filename show progressbar kwargs s = (s', Ok ev) ->
  to_list fixed !! k = Some (Some x) -> paramkeys !! k = Some key ->
  exists d,
    s' !! "popt" = Some (VDict d) /\
    d !! k = Some (key,
                   match mapM id (to_list fixed) with
                   | Some _ => x
                   | None => if (k <? 2)%nat then fpow E 10 (flog10 E x) else x
                   end).
Proof.
  unfold fitting. cbv zeta. intros H Hk Hkey.
  apply bind_inv in H as (s1 & [] & _ & H).
  apply bind_inv in H as (s2 & ev1 & H1 & H).
  apply bind_inv in H as (s3 & ev2 & H2 & H).
  injection H as <- _.
  destruct (mapM id (to_list fixed)) as [p|] eqn:Ep.
  - apply fitting_fixed_popt in H1.
    eexists. split; [eapply fitting_report_popt; eassumption|].
    apply lookup_zip_paramkeys; [exact Hkey|]. eapply mapM_id_Some; eassumption.
  - apply fitting_free_popt in H1 as (mcmc & popt & Hp & Hs).
    eexists. split; [eapply fitting_report_popt; eassumption|].
    apply lookup_zip_paramkeys; [exact Hkey|].
    eapply get_p_fixed; eassumption.
Qed.


(** ** Missing grid *)

(** X15.  With a fixed inclination on an object that has no [incl0]
    ([makegrid] has not run), [fitting] raises [AttributeError] from
    [update_incl], having assigned only [self.free]; the sampler is not
    reached. *)
Theorem fitting_needs_incl0 ranges (fixed : params (option float)) i
    filename show progressbar kwargs s :
  incl fixed = Some i -> s !! "incl0" = None ->
  fitting E X ranges fixed filename show progressbar kwargs s
  = (<["free" := VBools (free_of (to_list fixed))]> s, Raise (AttributeError "incl0")).
Proof.
  intros Hi Hs. unfold fitting.
  apply bind_raise. unfold fitting_caches. rewrite Hi.
  erewrite bind_ok by reflexivity.
  apply bind_raise. unfold Makegrid.update_incl.
  apply bind_raise. unfold get_float. apply bind_raise.
  unfold getattr. rewrite lookup_insert_ne by discriminate. rewrite Hs. reflexivity.
Qed.


(** ** [update_prof], lines 321-336, and [boxgauss], lines 44-58 *)

(** X16.  [update_prof] tabulates the line profile at 45 velocities with
    index bound 44 and step [w / 11], where [w = max(2.35482 cs/dv, 1)],
    whatever [cs] and [dv] are; and every index that [get_Iout] computes at
    lines 368-369 (clipped to [0, prof_n]) is inside that table. *)
Theorem update_prof_table cs s d :
  s !! "dv" = Some (VFloat d) ->
  let w := if cs / d * 2.35482 <? 1 then 1 else cs / d * 2.35482 in
  exists p,
    update_prof E cs s
      = (<["prof_d" := VFloat (w / 11)]> (<["prof_n" := VInt 44]>
         (<["prof" := VVec p]> s)), Ok tt) /\
    length p = 45%nat /\
    forall dv' d' v,
      is_ok (Raster.py_index p (Raster.profile_index dv' d' 44 v)) = true.
Proof.
  intros Hd w. unfold update_prof. rewrite (bind_ok _ _ _ _ _ (get_float_run _ _ _ Hd)).
  cbv zeta. fold w.
  match goal with |- context [setattr "prof" (VVec ?P)] => set (p := P) end.
  exists p. split; [reflexivity|].
  assert (length p = 45%nat) as Hp.
  { subst p. destruct (_ <? 0.01).
    - rewrite length_map. apply Grid.length_linspace.
    - rewrite !length_insert, length_map. apply Grid.length_linspace. }
  split; [exact Hp|]. intros dv' d' v.
  unfold Raster.profile_index, Raster.py_index. rewrite Hp.
  set (z := Raster.astype_int _).
  assert (0 <= Z.min (Z.max z 0) 44 < 45)%Z as Hr by lia.
  destruct (_ <? 0)%Z eqn:E0; [apply Z.ltb_lt in E0; lia|].
  assert ((0 <=? Z.min (Z.max z 0) 44)%Z && (Z.min (Z.max z 0) 44 <? Z.of_nat 45)%Z = true)
    as -> by (apply andb_true_intro; split; [apply Z.leb_le|apply Z.ltb_lt]; lia).
  destruct (lookup_lt_is_Some_2 p (Z.to_nat (Z.min (Z.max z 0) 44))) as [x ->]; [lia|].
  reflexivity.
Qed.

(** The table of the box profile: 11 samples of value 1, one channel wide
    at the step 1/11, between zeros. *)
Definition box_table : vec := replicate 17 0 ++ replicate 11 1 ++ replicate 17 0.

(** X17.  Below one hundredth of a channel ([cs/dv < 0.01], and so
    [2.35482 cs/dv < 1]) the profile of [update_prof] does not depend on
    [cs]: it is the box of 11 ones between 17 zeros on each side, with
    step 1/11. *)
Theorem update_prof_box cs s d :
  s !! "dv" = Some (VFloat d) ->
  (cs / d * 2.35482 <? 1) = true -> (cs / d <? 0.01) = true ->
  update_prof E cs s
  = (<["prof_d" := VFloat (1 / 11)]> (<["prof_n" := VInt 44]>
     (<["prof" := VVec box_table]> s)), Ok tt).
Proof.
  intros Hd Hw Hbox. unfold update_prof.
  rewrite (bind_ok _ _ _ _ _ (get_float_run _ _ _ Hd)).
  cbv zeta. rewrite Hw, Hbox.
  replace (map _ (Grid.linspace (- (2 * 1)) (2 * 1) 45)) with box_table
    by (vm_compute; reflexivity).
  reflexivity.
Qed.

(** Lines 44-58. *)
Definition boxgauss (cs_over_dv : float) : vec * Z * float :=
  let w := if cs_over_dv * 2.35482 <? 1 then 1 else cs_over_dv * 2.35482 in
  let vmax := 2 * w in
  let d := w / 10 in
  let n := 41%Z in
  let v := Grid.linspace (T:=float) (- vmax) vmax n in
  let p :=
    if cs_over_dv <? 0.01 then
      map (fun v => (1 + Flt.sign (v + 0.5)) * (1 - Flt.sign (v - 0.5)) / 4) v
    else
      let p := map (fun v => ferf E ((v + 0.5) / sqrt 2 / cs_over_dv)
                             - ferf E ((v - 0.5) / sqrt 2 / cs_over_dv)) v in
      <[Z.to_nat (n - 1) := 0]> (<[0%nat := 0]> p) in
  (p, (n - 1)%Z, d).

(** X18.  In the same regime [boxgauss] returns index bound 40, step 1/10
    and the box of 9 ones with the value 1/2 at the two edges, which fall
    on samples of its grid. *)
Theorem boxgauss_box c :
  (c * 2.35482 <? 1) = true -> (c <? 0.01) = true ->
  boxgauss c
  = (replicate 15 0 ++ [0.5] ++ replicate 9 1 ++ [0.5] ++ replicate 15 0, 40%Z, 1 / 10).
Proof.
  intros Hw Hbox. unfold boxgauss. cbv zeta. rewrite Hw, Hbox.
  replace (map _ (Grid.linspace (- (2 * 1)) (2 * 1) 41))
    with (replicate 15 0 ++ [0.5] ++ replicate 9 1 ++ [0.5] ++ replicate 15 0)
    by (vm_compute; reflexivity).
  reflexivity.
Qed.

End WithExt.

Lemma fitting_reports_fixed_witness :
  exists d,
    (fitting ext_ref sci_ref ranges_demo fixed_pI "channelfit" false false ∅ s_free).1
      !! "popt" = Some (VDict d) /\
    d !! 5%nat = Some ("pI", 0).
Proof.
  eapply (fitting_reports_fixed ext_ref sci_ref ranges_demo fixed_pI "channelfit"
            false false ∅ s_free _ _ 5 "pI" 0).
  - apply run_split. vm_compute. reflexivity.
  - reflexivity.
  - reflexivity.
Defined.

Lemma fitting_needs_incl0_witness :
  fitting ext_ref sci_ref ranges_demo (pmap Some v_demo) "channelfit" false true ∅
    (init true false "chi2")
  = (<["free" := VBools (free_of (to_list (pmap Some v_demo)))]> (init true false "chi2"),
     Raise (AttributeError "incl0")).
Proof.
  apply (fitting_needs_incl0 ext_ref sci_ref ranges_demo (pmap Some v_demo) 0);
    reflexivity.
Defined.

Lemma update_prof_table_witness :
  exists p : vec,
    (update_prof ext_ref 0 s_demo).2 = Ok tt /\ length p = 45%nat /\
    is_ok (Raster.py_index p (Raster.profile_index 1 1 44 nan)) = true.
Proof.
  destruct (update_prof_table ext_ref 0 s_demo 1 eq_refl) as (p & Hrun & Hl & Hidx).
  exists p. split; [rewrite Hrun; reflexivity|]. split; [exact Hl|apply Hidx].
Defined.

Lemma update_prof_box_witness :
  (update_prof ext_ref 0 s_demo).1 !! "prof" = Some (VVec box_table).
Proof.
  rewrite (update_prof_box ext_ref 0 s_demo 1 eq_refl eq_refl eq_refl).
  lookup_attr.
Defined.

Lemma boxgauss_box_witness :
  (boxgauss ext_ref 0).1.2 = 40%Z.
Proof. rewrite (boxgauss_box ext_ref 0 eq_refl eq_refl). reflexivity. Defined.

(** An object whose parameters are all fixed. *)
End FitFacts.

(** * [makegrid]: the calls that fail before the rotation *)

Module MakegridFacts.
Import Nd Py Makegrid.
Local Open Scope float_scope.

Ltac lookup_attr :=
  unfold loaded;
  repeat first [rewrite lookup_insert_eq | rewrite lookup_insert_ne by discriminate];
  try reflexivity.

Ltac read_attr :=
  first [apply get_vec_run | apply get_float_run | apply get_cube_run | apply get_img_run];
  lookup_attr.

Section WithExt.
Variable E : ext.
Variable load : loader.

(** X21.  [makegrid] without [cubefits], on an object that already
    holds the axes, assigns [incl0], the trigonometry and the mesh [X], [Y]
    and then raises [UnboundLocalError] for [v], which only the branch
    that reads the cube assigns; the velocity windows are not assigned. *)
Theorem makegrid_without_cube pa incl dist center vsys rmax vlim sigma nlayer
    xskip yskip s x y :
  s !! "x" = Some (VVec x) -> s !! "y" = Some (VVec y) ->
  exists s',
    makegrid E load None pa incl dist center vsys rmax vlim sigma nlayer xskip yskip s
      = (s', Raise (UnboundLocalError "v")) /\
    s' !! "incl0" = Some (VFloat incl) /\
    s' !! "X" = Some (VImg (meshgrid x y).1) /\
    s' !! "v_valid0" = s !! "v_valid0".
Proof.
  intros Hx Hy. unfold makegrid.
  destruct vlim as [[[vlim0 vlim1] vlim2] vlim3].
  eexists. split.
  - apply bind_raise. unfold makegrid_head.
    erewrite bind_ok by reflexivity.
    erewrite bind_ok by reflexivity.
    erewrite bind_ok.
    2:{ unfold update_incl. erewrite bind_ok by read_attr.
        do 2 (erewrite bind_ok by reflexivity). reflexivity. }
    do 3 (erewrite bind_ok by reflexivity). cbv zeta.
    erewrite bind_ok by (read_attr; exact Hx).
    erewrite bind_ok by (read_attr; exact Hy).
    do 2 (erewrite bind_ok by reflexivity).
    apply bind_raise. reflexivity.
  - repeat split; lookup_attr.
Qed.

(** X22.  With the default [sigma=None], a cube that loads and at least
    two channels in the velocity windows, [makegrid] raises [TypeError] in
    [makemom01], which receives the argument [sigma] and not the noise level
    that [read_cubefits] estimated and stored; the moment maps are not
    assigned. *)
Theorem makegrid_default_sigma f pa incl dist center vsys rmax vlim
    nlayer xskip yskip s o :
  load f center dist vsys (- rmax) rmax (- rmax) rmax xskip yskip None = Ok o ->
  length (o_data o) = length (o_v o) ->
  (2 <= length (fit_channels vlim (o_v o)))%nat ->
  exists s',
    makegrid E load (Some f) pa incl dist center vsys rmax vlim None
      nlayer xskip yskip s
    = (s', Raise (TypeError "unsupported operand type(s) for *: NoneType and float")) /\
    s' !! "mom0" = s !! "mom0" /\
    s' !! "sigma" = Some (VFloat (o_sigma o)) /\
    s' !! "sini" = Some (VFloat (fsin E (fradians E (incl + incl)))).
Proof.
  intros Hload Hlen H2. unfold makegrid.
  destruct vlim as [[[vlim0 vlim1] vlim2] vlim3].
  eexists. split.
  - apply bind_raise. unfold makegrid_head.
    erewrite bind_ok.
    2:{ erewrite bind_ok by (apply read_cubefits_run; exact Hload).
        erewrite bind_ok by read_attr. reflexivity. }
    erewrite bind_ok by reflexivity.
    erewrite bind_ok.
    2:{ unfold update_incl. erewrite bind_ok by read_attr.
        do 2 (erewrite bind_ok by reflexivity). reflexivity. }
    do 3 (erewrite bind_ok by reflexivity). cbv zeta.
    do 2 (erewrite bind_ok by read_attr).
    do 2 (erewrite bind_ok by reflexivity).
    erewrite bind_ok by reflexivity. cbv zeta.
    do 7 (erewrite bind_ok by reflexivity).
    erewrite bind_ok by read_attr.
    erewrite bind_ok.
    2:{ apply lift_run. unfold bool_index. rewrite decide_True; [reflexivity|].
        unfold mask_blue. rewrite length_map. exact Hlen. }
    erewrite bind_ok by reflexivity.
    erewrite bind_ok by read_attr.
    erewrite bind_ok.
    2:{ apply lift_run. unfold bool_index. rewrite decide_True; [reflexivity|].
        unfold mask_red. rewrite length_map. exact Hlen. }
    do 3 (erewrite bind_ok by reflexivity).
    apply bind_raise. unfold lift, makemom01_opt.
    edestruct (np_min_ok (diffs (fit_channels (vlim0, vlim1, vlim2, vlim3) (o_v o))))
      as [dv Hdv]; [rewrite length_diffs; lia|].
    rewrite Hdv. reflexivity.
  - repeat split; lookup_attr.
Qed.

(** X23.  [makegrid] stores [incl0 = incl] and then calls
    [update_incl(incl)], which adds its argument to [incl0]: on every input
    that reaches the rotation, the sine, cosine and tangent cached on the
    object are those of [incl + incl] degrees. *)
Theorem makegrid_caches_twice_incl f pa incl dist center vsys rmax vlim sg
    nlayer xskip yskip s o :
  load f center dist vsys (- rmax) rmax (- rmax) rmax xskip yskip (Some sg) = Ok o ->
  length (o_data o) = length (o_v o) ->
  (2 <= length (fit_channels vlim (o_v o)))%nat ->
  exists s',
    makegrid E load (Some f) pa incl dist center vsys rmax vlim (Some sg)
      nlayer xskip yskip s = (s', Raise (UnboundLocalError "xminor")) /\
    s' !! "incl0" = Some (VFloat incl) /\
    s' !! "sini" = Some (VFloat (fsin E (fradians E (incl + incl)))) /\
    s' !! "cosi" = Some (VFloat (fcos E (fradians E (incl + incl)))) /\
    s' !! "tani" = Some (VFloat (ftan E (fradians E (incl + incl)))).
Proof.
  intros Hload Hlen H2. unfold makegrid.
  destruct vlim as [[[vlim0 vlim1] vlim2] vlim3].
  edestruct (makemom01_opt_ok
               (select (o_data o) (mask_blue (vlim0, vlim1, vlim2, vlim3) (o_v o))
                ++ select (o_data o) (mask_red (vlim0, vlim1, vlim2, vlim3) (o_v o)))
               (fit_channels (vlim0, vlim1, vlim2, vlim3) (o_v o)) sg) as [m Hm].
  { unfold fit_channels. rewrite !length_app. f_equal.
    - apply length_select; [rewrite Hlen|]; unfold mask_blue; rewrite length_map; reflexivity.
    - apply length_select; [rewrite Hlen|]; unfold mask_red; rewrite length_map; reflexivity. }
  { exact H2. }
  eexists. split.
  - erewrite bind_ok.
    2:{ unfold makegrid_head.
        erewrite bind_ok.
        2:{ erewrite bind_ok by (apply read_cubefits_run; exact Hload).
            erewrite bind_ok by read_attr. reflexivity. }
        erewrite bind_ok by reflexivity.
        erewrite bind_ok.
        2:{ unfold update_incl. erewrite bind_ok by read_attr.
            do 2 (erewrite bind_ok by reflexivity). reflexivity. }
        do 3 (erewrite bind_ok by reflexivity). cbv zeta.
        do 2 (erewrite bind_ok by read_attr).
        do 2 (erewrite bind_ok by reflexivity).
        erewrite bind_ok by reflexivity. cbv zeta.
        do 7 (erewrite bind_ok by reflexivity).
        erewrite bind_ok by read_attr.
        erewrite bind_ok.
        2:{ apply lift_run. unfold bool_index. rewrite decide_True; [reflexivity|].
            unfold mask_blue. rewrite length_map. exact Hlen. }
        erewrite bind_ok by reflexivity.
        erewrite bind_ok by read_attr.
        erewrite bind_ok.
        2:{ apply lift_run. unfold bool_index. rewrite decide_True; [reflexivity|].
            unfold mask_red. rewrite length_map. exact Hlen. }
        do 3 (erewrite bind_ok by reflexivity).
        erewrite bind_ok by (apply lift_run; exact Hm).
        do 4 (erewrite bind_ok by reflexivity).
        reflexivity. }
    apply makegrid_tail_raises. reflexivity.
  - repeat split; lookup_attr.
Qed.

End WithExt.

(** An object that holds the axes of an earlier [read_cubefits]. *)
Definition s_axes : obj := <["y" := VVec [0]]> (<["x" := VVec [0; 1]]> ∅).

Lemma makegrid_without_cube_witness :
  exists s',
    makegrid ext_ref demo_load None 0 30 1 None 0 1 (-2.7, -1, 1, 2.7) (Some 1) 4 1 1
      s_axes = (s', Raise (UnboundLocalError "v")) /\
    s' !! "v_valid0" = None.
Proof.
  destruct (makegrid_without_cube ext_ref demo_load 0 30 1 None 0 1 (-2.7, -1, 1, 2.7)
              (Some 1) 4 1 1 s_axes [0; 1] [0] eq_refl eq_refl)
    as (s' & Hrun & _ & _ & Hv).
  exists s'. split; [exact Hrun|]. rewrite Hv. reflexivity.
Defined.

Lemma makegrid_default_sigma_witness :
  exists s',
    makegrid ext_ref demo_load (Some "cube.fits") 0 30 1 None 0 1 (-2.7, -1, 1, 2.7)
      None 4 1 1 ∅
    = (s', Raise (TypeError "unsupported operand type(s) for *: NoneType and float")) /\
    s' !! "mom0" = None /\ s' !! "sigma" = Some (VFloat 1).
Proof.
  assert (2 <= length (fit_channels (-2.7, -1, 1, 2.7)%float (o_v demo_obs)))%nat as H2
    by (vm_compute; lia).
  destruct (makegrid_default_sigma ext_ref demo_load "cube.fits" 0 30 1 None 0 1
              (-2.7, -1, 1, 2.7) 4 1 1 ∅ demo_obs eq_refl eq_refl H2)
    as (s' & Hrun & Hm & Hs & _).
  exists s'. split; [exact Hrun|]. split; [rewrite Hm; reflexivity|exact Hs].
Defined.

Lemma makegrid_caches_twice_incl_witness :
  exists s',
    makegrid ext_ref demo_load (Some "cube.fits") 0 30 1 None 0 1 (-2.7, -1, 1, 2.7)
      (Some 1) 4 1 1 ∅ = (s', Raise (UnboundLocalError "xminor")) /\
    s' !! "incl0" = Some (VFloat 30) /\
    s' !! "sini" = Some (VFloat (fsin ext_ref (fradians ext_ref (30 + 30)))).
Proof.
  assert (2 <= length (fit_channels (-2.7, -1, 1, 2.7)%float (o_v demo_obs)))%nat as H2
    by (vm_compute; lia).
  destruct (makegrid_caches_twice_incl ext_ref demo_load "cube.fits" 0 30 1 None 0 1
              (-2.7, -1, 1, 2.7) 1 4 1 1 ∅ demo_obs eq_refl eq_refl H2)
    as (s' & Hrun & Hi & Hs & _).
  exists s'. split; [exact Hrun|]. split; [exact Hi|exact Hs].
Defined.

End MakegridFacts.
